(** * Ticket service: repository and dispatcher, verified against their specification

    Shallow embedding of the Go sources
    - [database/postgres.go]: the entity repository ([Create], [GetByID],
      [List], [Update], [Delete]);
    - [ticket-service-db/main.go]: the operation dispatcher ([CreateTicket],
      [GetTicket], [ListTickets], [UpdateTicket], [DeleteTicket]) and the
      enum conversions;
    - [init.sql]: the table the repository talks to.

    The collaborators that are not part of the repository are modelled as far
    as the code observes them:
    - Go strings are byte strings ([string], one [ascii] per byte);
    - [encoding/json] for the one type the code marshals, [[]string]
      (module [json], with [unicode/utf8] and [unicode/utf16] below it);
    - the relational store as a finite map from the primary key to the other
      columns of the row, together with the acceptance test of the schema
      (module [sqldb]);
    - [time.Now()] and [uuid.New()] as explicit arguments. *)

From Stdlib Require Import ZArith NArith Ascii String Lia.
From stdpp Require Import gmap strings list fin_maps sorting pretty.

(** ** Go slices

    A Go slice is either [nil] or a (possibly empty) sequence; [json.Marshal]
    tells the two apart, the wire format and [len] do not. *)

Inductive slice (A : Type) : Type :=
| nil_slice
| mk_slice (elems : list A).
Arguments nil_slice {A}.
Arguments mk_slice {A} elems.

Definition elems {A} (s : slice A) : list A :=
  match s with
  | nil_slice => []
  | mk_slice l => l
  end.

Definition len {A} (s : slice A) : nat := length (elems s).

Definition slice_map {A B} (f : A → B) (s : slice A) : slice B :=
  match s with
  | nil_slice => nil_slice
  | mk_slice l => mk_slice (map f l)
  end.

(** ** unicode/utf8 and unicode/utf16 *)

Module utf8.
Local Open Scope N_scope.

Definition RuneError : N := 0xFFFD.
Definition MaxRune : N := 0x10FFFF.
Definition RuneSelf : N := 0x80.
Definition surrogateMin : N := 0xD800.
Definition surrogateMax : N := 0xDFFF.

Definition tx : N := 0x80.
Definition t2 : N := 0xC0.
Definition t3 : N := 0xE0.
Definition t4 : N := 0xF0.
Definition maskx : N := 0x3F.
Definition mask2 : N := 0x1F.
Definition mask3 : N := 0x0F.
Definition mask4 : N := 0x07.
Definition rune1Max : N := 0x7F.
Definition rune2Max : N := 0x7FF.
Definition rune3Max : N := 0xFFFF.
Definition locb : N := 0x80.
Definition hicb : N := 0xBF.

(** Entries of the [first] table: low three bits are the size, the high
    nibble indexes [acceptRanges]. *)
Definition xx : N := 0xF1.
Definition as_ : N := 0xF0.
Definition s1 : N := 0x02.
Definition s2 : N := 0x13.
Definition s3 : N := 0x03.
Definition s4 : N := 0x23.
Definition s5 : N := 0x34.
Definition s6 : N := 0x04.
Definition s7 : N := 0x44.

Definition first (p0 : N) : N :=
  if p0 <? 0x80 then as_
  else if p0 <? 0xC2 then xx
  else if p0 <? 0xE0 then s1
  else if p0 =? 0xE0 then s2
  else if p0 <? 0xED then s3
  else if p0 =? 0xED then s4
  else if p0 <? 0xF0 then s3
  else if p0 =? 0xF0 then s5
  else if p0 <? 0xF4 then s6
  else if p0 =? 0xF4 then s7
  else xx.

Definition acceptRanges (i : N) : N * N :=
  match i with
  | 0 => (locb, hicb)
  | 1 => (0xA0, hicb)
  | 2 => (locb, 0x9F)
  | 3 => (0x90, hicb)
  | 4 => (locb, 0x8F)
  | _ => (0, 0)
  end.

(** [byte(x)]: conversion to a byte keeps the low eight bits. *)
Definition byte (x : N) : ascii := ascii_of_N x.

(** [DecodeRune p]: the first rune of [p] and its width in bytes;
    [(RuneError, 1)] for an invalid or truncated encoding, [(RuneError, 0)]
    for the empty input. *)
Definition DecodeRune (p : list ascii) : N * nat :=
  match p with
  | [] => (RuneError, 0%nat)
  | c0 :: p1 =>
    let p0 := N_of_ascii c0 in
    let x := first p0 in
    if as_ <=? x then ((if N.testbit x 0 then RuneError else p0), 1%nat)
    else
      let sz := N.land x 7 in
      let accept := acceptRanges (N.shiftr x 4) in
      match p1 with
      | [] => (RuneError, 1%nat)
      | c1 :: p2 =>
        let b1 := N_of_ascii c1 in
        if (b1 <? accept.1) || (accept.2 <? b1) then (RuneError, 1%nat)
        else if sz <=? 2 then
          (N.lor (N.shiftl (N.land p0 mask2) 6) (N.land b1 maskx), 2%nat)
        else
          match p2 with
          | [] => (RuneError, 1%nat)
          | c2 :: p3 =>
            let b2 := N_of_ascii c2 in
            if (b2 <? locb) || (hicb <? b2) then (RuneError, 1%nat)
            else if sz <=? 3 then
              (N.lor (N.lor (N.shiftl (N.land p0 mask3) 12)
                            (N.shiftl (N.land b1 maskx) 6))
                     (N.land b2 maskx), 3%nat)
            else
              match p3 with
              | [] => (RuneError, 1%nat)
              | c3 :: _ =>
                let b3 := N_of_ascii c3 in
                if (b3 <? locb) || (hicb <? b3) then (RuneError, 1%nat)
                else
                  (N.lor (N.lor (N.lor (N.shiftl (N.land p0 mask4) 18)
                                       (N.shiftl (N.land b1 maskx) 12))
                                (N.shiftl (N.land b2 maskx) 6))
                         (N.land b3 maskx), 4%nat)
              end
          end
      end
  end.

Definition encode3 (r : N) : list ascii :=
  [ byte (N.lor t3 (N.shiftr r 12));
    byte (N.lor tx (N.land (N.shiftr r 6) maskx));
    byte (N.lor tx (N.land r maskx)) ].

(** [AppendRune nil r] / [EncodeRune]: the UTF-8 encoding of [r]; runes out
    of range and surrogates are encoded as [RuneError]. *)
Definition EncodeRune (r : N) : list ascii :=
  if r <=? rune1Max then [ byte r ]
  else if r <=? rune2Max then
    [ byte (N.lor t2 (N.shiftr r 6)); byte (N.lor tx (N.land r maskx)) ]
  else if (MaxRune <? r) || ((surrogateMin <=? r) && (r <=? surrogateMax))
  then encode3 RuneError
  else if r <=? rune3Max then encode3 r
  else
    [ byte (N.lor t4 (N.shiftr r 18));
      byte (N.lor tx (N.land (N.shiftr r 12) maskx));
      byte (N.lor tx (N.land (N.shiftr r 6) maskx));
      byte (N.lor tx (N.land r maskx)) ].

(** The test the callers write as [c == utf8.RuneError && size == 1]. *)
Definition invalid (d : N * nat) : bool :=
  (d.1 =? RuneError) && Nat.eqb d.2 1.

(** [ValidString]: walk the string rune by rune ([i += size], kept here as
    the number of bytes still to skip). *)
Fixpoint valid_from (skip : nat) (s : list ascii) : bool :=
  match s with
  | [] => true
  | _ :: rest =>
    match skip with
    | S k => valid_from k rest
    | O =>
      let d := DecodeRune s in
      if invalid d then false else valid_from (d.2 - 1) rest
    end
  end.

Definition ValidString (s : string) : bool :=
  valid_from 0 (list_ascii_of_string s).

(** The string with every byte that is not part of a valid encoding
    replaced by the encoding of [RuneError] (what the documentation of
    [json.Marshal] calls coercing to valid UTF-8). *)
Fixpoint coerce_from (skip : nat) (s : list ascii) : list ascii :=
  match s with
  | [] => []
  | _ :: rest =>
    match skip with
    | S k => coerce_from k rest
    | O =>
      let d := DecodeRune s in
      if invalid d then EncodeRune RuneError ++ coerce_from 0 rest
      else take d.2 s ++ coerce_from (d.2 - 1) rest
    end
  end.

Definition coerced (s : string) : string :=
  string_of_list_ascii (coerce_from 0 (list_ascii_of_string s)).
End utf8.

Module utf16.
Local Open Scope N_scope.

Definition surr1 : N := 0xd800.
Definition surr2 : N := 0xdc00.
Definition surr3 : N := 0xe000.
Definition surrSelf : N := 0x10000.
Definition replacementChar : N := 0xFFFD.

Definition IsSurrogate (r : N) : bool := (surr1 <=? r) && (r <? surr3).

(** [DecodeRune r1 r2]; the second argument is [None] where the Go caller
    passes the [-1] of a failed [getu4]. *)
Definition DecodeRune (r1 : N) (r2 : option N) : N :=
  match r2 with
  | Some r2 =>
    if (surr1 <=? r1) && (r1 <? surr2) && (surr2 <=? r2) && (r2 <? surr3)
    then N.lor (N.shiftl (r1 - surr1) 10) (r2 - surr2) + surrSelf
    else replacementChar
  | None => replacementChar
  end.
End utf16.

(** ** encoding/json, for the type [[]string]

    [Marshal] follows [appendString] with HTML escaping on (what
    [json.Marshal] uses); [Unmarshal] accepts exactly the texts that
    [checkValid] and the decoder accept for a [*[]string] destination that is
    [nil], and yields what [d.array] and [unquote] build. *)

Module json.
Local Open Scope N_scope.

Definition c_quote : ascii := "034".
Definition c_backslash : ascii := "\".

Definition hex (n : N) : ascii :=
  nth (N.to_nat n) (list_ascii_of_string "0123456789abcdef") "0"%char.

(** [htmlSafeSet]: the ASCII bytes copied as they are: everything from the
    space on except the quote, the backslash, [<], [>] and [&]. *)
Definition htmlSafeSet (b : N) : bool :=
  (0x20 <=? b) && (b <? 0x80)
  && negb ((b =? 34) || (b =? 92) || (b =? 60) || (b =? 62) || (b =? 38)).

(** The [switch b] of [appendString] for an ASCII byte that is not safe. *)
Definition escape_ascii (b : N) : list ascii :=
  if (b =? 92) || (b =? 34) then [c_backslash; utf8.byte b]
  else if b =? 8 then [c_backslash; "b"%char]
  else if b =? 12 then [c_backslash; "f"%char]
  else if b =? 10 then [c_backslash; "n"%char]
  else if b =? 13 then [c_backslash; "r"%char]
  else if b =? 9 then [c_backslash; "t"%char]
  else [c_backslash; "u"%char; "0"%char; "0"%char;
        hex (N.shiftr b 4); hex (N.land b 0xF)].

(** One turn of the loop of [appendString] at the head of [s]: the bytes
    written and the number of source bytes consumed. *)
Definition quote_step (s : list ascii) : list ascii * nat :=
  match s with
  | [] => ([], 0%nat)
  | c :: _ =>
    let b := N_of_ascii c in
    if b <? utf8.RuneSelf then
      ((if htmlSafeSet b then [c] else escape_ascii b), 1%nat)
    else
      let d := utf8.DecodeRune s in
      if utf8.invalid d then
        ([c_backslash; "u"%char; "f"%char; "f"%char; "f"%char; "d"%char], 1%nat)
      else if (d.1 =? 0x2028) || (d.1 =? 0x2029) then
        ([c_backslash; "u"%char; "2"%char; "0"%char; "2"%char;
          hex (N.land d.1 0xF)], d.2)
      else (take d.2 s, d.2)
  end.

Fixpoint quote_from (skip : nat) (s : list ascii) : list ascii :=
  match s with
  | [] => []
  | _ :: rest =>
    match skip with
    | S k => quote_from k rest
    | O => let st := quote_step s in st.1 ++ quote_from (st.2 - 1) rest
    end
  end.

Definition appendString (src : string) : list ascii :=
  c_quote :: quote_from 0 (list_ascii_of_string src) ++ [c_quote].

Fixpoint encode_elems (l : list string) : list ascii :=
  match l with
  | [] => []
  | [x] => appendString x
  | x :: rest => appendString x ++ ","%char :: encode_elems rest
  end.

(** [string(json.Marshal(v))] for [v : []string]; the error result of
    [json.Marshal] is always [nil] at this type. *)
Definition Marshal (v : slice string) : string :=
  match v with
  | nil_slice => "null"
  | mk_slice l =>
    string_of_list_ascii ("["%char :: encode_elems l ++ ["]"%char])
  end.

(** *** Decoding *)

Definition isSpace (c : ascii) : bool :=
  let b := N_of_ascii c in
  (b =? 32) || (b =? 9) || (b =? 13) || (b =? 10).

Definition hexval (c : ascii) : option N :=
  let b := N_of_ascii c in
  if (48 <=? b) && (b <=? 57) then Some (b - 48)
  else if (97 <=? b) && (b <=? 102) then Some (b - 97 + 10)
  else if (65 <=? b) && (b <=? 70) then Some (b - 65 + 10)
  else None.

(** [getu4 s]: the rune of a [\uXXXX] at the head of [s]; [None] is the
    [-1] of the Go function. *)
Definition getu4 (s : list ascii) : option N :=
  match s with
  | c0 :: c1 :: h1 :: h2 :: h3 :: h4 :: _ =>
    if (N_of_ascii c0 =? 92) && (N_of_ascii c1 =? 117) then
      match hexval h1, hexval h2, hexval h3, hexval h4 with
      | Some v1, Some v2, Some v3, Some v4 =>
        Some (((v1 * 16 + v2) * 16 + v3) * 16 + v4)
      | _, _, _, _ => None
      end
    else None
  | _ => None
  end.

Inductive step : Type :=
| StepEnd
| StepFail
| StepEmit (out : list ascii) (size : nat).

(** One turn of the loop of [unquote] inside a string literal whose
    remaining bytes are [s]. *)
Definition unquote_step (s : list ascii) : step :=
  match s with
  | [] => StepFail
  | c :: rest =>
    let b := N_of_ascii c in
    if b =? 34 then StepEnd
    else if b =? 92 then
      match rest with
      | [] => StepFail
      | e :: _ =>
        let eb := N_of_ascii e in
        if (eb =? 34) || (eb =? 92) || (eb =? 47) then StepEmit [e] 2
        else if eb =? 98 then StepEmit [utf8.byte 8] 2
        else if eb =? 102 then StepEmit [utf8.byte 12] 2
        else if eb =? 110 then StepEmit [utf8.byte 10] 2
        else if eb =? 114 then StepEmit [utf8.byte 13] 2
        else if eb =? 116 then StepEmit [utf8.byte 9] 2
        else if eb =? 117 then
          match getu4 s with
          | None => StepFail
          | Some rr =>
            if utf16.IsSurrogate rr then
              let dec := utf16.DecodeRune rr (getu4 (drop 6 s)) in
              if negb (dec =? utf16.replacementChar)
              then StepEmit (utf8.EncodeRune dec) 12
              else StepEmit (utf8.EncodeRune utf16.replacementChar) 6
            else StepEmit (utf8.EncodeRune rr) 6
          end
        else StepFail
      end
    else if b <? 0x20 then StepFail
    else if b <? utf8.RuneSelf then StepEmit [c] 1
    else
      let d := utf8.DecodeRune s in
      StepEmit (utf8.EncodeRune d.1) d.2
  end.

(** The body of a string literal, after its opening quote: the decoded
    bytes and what follows the closing quote. *)
Fixpoint unquote_from (skip : nat) (s : list ascii)
  : option (list ascii * list ascii) :=
  match s with
  | [] => None
  | _ :: rest =>
    match skip with
    | S k => unquote_from k rest
    | O =>
      match unquote_step s with
      | StepEnd => Some ([], rest)
      | StepFail => None
      | StepEmit out size =>
        match unquote_from (size - 1) rest with
        | Some (t, r) => Some (out ++ t, r)
        | None => None
        end
      end
    end
  end.

Fixpoint skip_space (s : list ascii) : list ascii :=
  match s with
  | c :: rest => if isSpace c then skip_space rest else s
  | [] => []
  end.

Definition is_null_literal (s : list ascii) : bool :=
  match s with
  | n :: u :: l1 :: l2 :: _ =>
    (N_of_ascii n =? 110) && (N_of_ascii u =? 117)
    && (N_of_ascii l1 =? 108) && (N_of_ascii l2 =? 108)
  | _ => false
  end.

(** One array element into a [string] slot: a string literal is unquoted,
    [null] leaves the zero value, anything else is refused (a syntax error
    or an [UnmarshalTypeError]). *)
Definition element (s : list ascii) : option (string * list ascii) :=
  match s with
  | [] => None
  | c :: rest =>
    if N_of_ascii c =? 34 then
      match unquote_from 0 rest with
      | Some (t, r) => Some (string_of_list_ascii t, r)
      | None => None
      end
    else if is_null_literal s then Some (EmptyString, drop 4 s)
    else None
  end.

(** The elements of a non-empty array, from the first value up to and
    including the closing bracket. [fuel] bounds the number of elements. *)
Fixpoint elements (fuel : nat) (s : list ascii)
  : option (list string * list ascii) :=
  match fuel with
  | O => None
  | S fuel' =>
    match element (skip_space s) with
    | None => None
    | Some (x, rest) =>
      match skip_space rest with
      | [] => None
      | c :: rest' =>
        if N_of_ascii c =? 44 then
          match elements fuel' rest' with
          | Some (xs, r) => Some (x :: xs, r)
          | None => None
          end
        else if N_of_ascii c =? 93 then Some ([x], rest')
        else None
      end
    end
  end.

Definition at_end (s : list ascii) : bool :=
  match skip_space s with
  | [] => true
  | _ => false
  end.

Definition decode (data : list ascii) : option (slice string) :=
  match skip_space data with
  | [] => None
  | c :: rest =>
    if N_of_ascii c =? 91 then
      match skip_space rest with
      | [] => None
      | c' :: rest' =>
        if N_of_ascii c' =? 93 then
          if at_end rest' then Some (mk_slice []) else None
        else
          match elements (length rest) rest with
          | Some (xs, r) => if at_end r then Some (mk_slice xs) else None
          | None => None
          end
      end
    else if is_null_literal (c :: rest) then
      if at_end (drop 4 (c :: rest)) then Some nil_slice else None
    else None
  end.

(** [json.Unmarshal([]byte(data), &v)] for a [nil] [v : []string]: the new
    value of [v], or [None] for a non-nil error. *)
Definition Unmarshal (data : string) : option (slice string) :=
  decode (list_ascii_of_string data).
End json.

(** ** database/sql values *)

(** [time.Time], as an instant on the clock of the store. *)
Definition Time : Type := Z.

Module sql.
(** [sql.NullString]; the zero value is [{String: "", Valid: false}]. *)
Record NullString : Type := { String_ : string; Valid : bool }.

Definition null : NullString := {| String_ := ""; Valid := false |}.

(** [NullString.Value]: what is sent to the store. *)
Definition Value (ns : NullString) : option string :=
  if Valid ns then Some (String_ ns) else None.

(** [NullString.Scan]: what a column value becomes. *)
Definition Scan (v : option string) : NullString :=
  match v with
  | Some s => {| String_ := s; Valid := true |}
  | None => null
  end.
End sql.

(** ** The relational store ([init.sql])

    One table, [tickets], keyed by [id]. A row holds the other nine columns;
    [description], [assignee_id] and [tags] are nullable. The schema's
    constraints on a written row (lengths of the VARCHAR columns, the
    encoding of text, the syntax of JSONB) are the acceptance test [admits]
    of the store: the model does not fix it, every theorem holds for
    every such test. A statement either runs on a reachable store or is not
    modelled: connectivity failures are outside the model. *)

Module sqldb.
Record Row : Type := {
  title : string;
  description : option string;
  status : string;
  priority : string;
  assignee_id : option string;
  tags : option string;
  created_at : Time;
  updated_at : Time;
  reporter_id : string
}.

Record DB : Type := {
  admits : string → Row → bool;
  tickets : gmap string Row
}.

Definition with_tickets (db : DB) (t : gmap string Row) : DB :=
  {| admits := admits db; tickets := t |}.

(** A query argument as the driver receives it. *)
Inductive arg : Type :=
| ArgString (s : string)
| ArgStrings (l : slice string)
| ArgTime (t : Time).

(** [database/sql] converts every argument before the statement is sent;
    a [[]string] is not a value the driver accepts. *)
Definition driver_accepts (a : arg) : bool :=
  match a with
  | ArgStrings _ => false
  | _ => true
  end.

(** [INSERT INTO tickets (...) VALUES (...) RETURNING id, created_at,
    updated_at]: fails on a duplicate key and on a row the schema refuses. *)
Definition insert (db : DB) (id : string) (row : Row)
  : option (DB * (string * Time * Time)) :=
  match tickets db !! id with
  | Some _ => None
  | None =>
    if admits db id row
    then Some (with_tickets db (<[id := row]> (tickets db)),
               (id, created_at row, updated_at row))
    else None
  end.

(** [SELECT ... FROM tickets WHERE id = $1] *)
Definition select_by_id (db : DB) (id : string) : option Row :=
  tickets db !! id.

(** [ORDER BY created_at DESC] *)
Definition newer_first (a b : string * Row) : Prop :=
  (created_at b.2 ≤ created_at a.2)%Z.

#[global] Instance newer_first_dec : RelDecision newer_first :=
  λ a b, decide (created_at b.2 ≤ created_at a.2)%Z.

(** [SELECT ... FROM tickets ORDER BY created_at DESC LIMIT $1 OFFSET $2];
    a negative limit or offset is an error of the store. *)
Definition select_page (db : DB) (limit offset : Z)
  : option (list (string * Row)) :=
  if ((limit <? 0) || (offset <? 0))%Z then None
  else Some (take (Z.to_nat limit)
               (drop (Z.to_nat offset)
                  (merge_sort newer_first (map_to_list (tickets db))))).

(** [DELETE FROM tickets WHERE id = $1]: the number of rows affected. *)
Definition delete_by_id (db : DB) (id : string) : DB * Z :=
  match tickets db !! id with
  | Some _ => (with_tickets db (delete id (tickets db)), 1%Z)
  | None => (db, 0%Z)
  end.

(** *** UPDATE with positional parameters

    [column = $placeholder]; placeholders count from one. *)
Record SetPart : Type := { column : string; placeholder : nat }.

Definition param (args : list arg) (n : nat) : option arg :=
  match n with
  | O => None
  | S k => args !! k
  end.

Definition set_title (s : string) (r : Row) : Row :=
  {| title := s; description := description r; status := status r;
     priority := priority r; assignee_id := assignee_id r; tags := tags r;
     created_at := created_at r; updated_at := updated_at r;
     reporter_id := reporter_id r |}.
Definition set_description (s : option string) (r : Row) : Row :=
  {| title := title r; description := s; status := status r;
     priority := priority r; assignee_id := assignee_id r; tags := tags r;
     created_at := created_at r; updated_at := updated_at r;
     reporter_id := reporter_id r |}.
Definition set_status (s : string) (r : Row) : Row :=
  {| title := title r; description := description r; status := s;
     priority := priority r; assignee_id := assignee_id r; tags := tags r;
     created_at := created_at r; updated_at := updated_at r;
     reporter_id := reporter_id r |}.
Definition set_priority (s : string) (r : Row) : Row :=
  {| title := title r; description := description r; status := status r;
     priority := s; assignee_id := assignee_id r; tags := tags r;
     created_at := created_at r; updated_at := updated_at r;
     reporter_id := reporter_id r |}.
Definition set_assignee_id (s : option string) (r : Row) : Row :=
  {| title := title r; description := description r; status := status r;
     priority := priority r; assignee_id := s; tags := tags r;
     created_at := created_at r; updated_at := updated_at r;
     reporter_id := reporter_id r |}.
Definition set_tags (s : option string) (r : Row) : Row :=
  {| title := title r; description := description r; status := status r;
     priority := priority r; assignee_id := assignee_id r; tags := s;
     created_at := created_at r; updated_at := updated_at r;
     reporter_id := reporter_id r |}.
Definition set_updated_at (t : Time) (r : Row) : Row :=
  {| title := title r; description := description r; status := status r;
     priority := priority r; assignee_id := assignee_id r; tags := tags r;
     created_at := created_at r; updated_at := t;
     reporter_id := reporter_id r |}.

(** One assignment of the SET clause, with the value bound to its
    placeholder. *)
Definition assign (col : string) (a : arg) (r : Row) : option Row :=
  match a with
  | ArgString s =>
    if String.eqb col "title" then Some (set_title s r)
    else if String.eqb col "description" then Some (set_description (Some s) r)
    else if String.eqb col "status" then Some (set_status s r)
    else if String.eqb col "priority" then Some (set_priority s r)
    else if String.eqb col "assignee_id" then Some (set_assignee_id (Some s) r)
    else if String.eqb col "tags" then Some (set_tags (Some s) r)
    else None
  | ArgTime t =>
    if String.eqb col "updated_at" then Some (set_updated_at t r) else None
  | ArgStrings _ => None
  end.

Fixpoint assign_all (sets : list SetPart) (args : list arg) (r : Row)
  : option Row :=
  match sets with
  | [] => Some r
  | p :: rest =>
    match param args (placeholder p) with
    | None => None
    | Some a =>
      match assign (column p) a r with
      | None => None
      | Some r' => assign_all rest args r'
      end
    end
  end.

Inductive row_result : Type :=
| OneRow (id : string) (r : Row)
| ErrNoRows
| QueryError.

(** [UPDATE tickets SET <sets> WHERE id = $<where_> RETURNING ...] run
    with [args]. No row matches: no row comes back. *)
Definition update_returning (db : DB) (sets : list SetPart) (where_ : nat)
           (args : list arg) : row_result * DB :=
  if negb (forallb driver_accepts args) then (QueryError, db)
  else
    match param args where_ with
    | Some (ArgString id) =>
      match tickets db !! id with
      | None => (ErrNoRows, db)
      | Some r =>
        match assign_all sets args r with
        | None => (QueryError, db)
        | Some r' =>
          if admits db id r'
          then (OneRow id r', with_tickets db (<[id := r']> (tickets db)))
          else (QueryError, db)
        end
      end
    | _ => (QueryError, db)
    end.
End sqldb.

(** ** The entity repository ([database/postgres.go]) *)

Module database.
Import sqldb.

(** [type Ticket struct] *)
Record Ticket : Type := {
  ID : string;
  Title : string;
  Description : sql.NullString;
  Status : string;
  Priority : string;
  AssigneeID : sql.NullString;
  Tags : slice string;
  CreatedAt : Time;
  UpdatedAt : Time;
  ReporterID : string
}.

(** The errors the repository builds with [fmt.Errorf]:
    ["ticket not found: <id>"] and ["failed to <what>: <cause>"]. *)
Inductive error : Type :=
| ErrNotFound (id : string)
| ErrFailed (what : string).

(** What a call comes to: a value with a [nil] error, a non-nil error, or a
    run-time panic (the type assertion of [Update]). *)
Inductive result (A : Type) : Type :=
| Ok (a : A)
| Err (e : error)
| Panic.
Arguments Ok {A} a.
Arguments Err {A} e.
Arguments Panic {A}.

(** [json.Marshal(ticket.Tags)] then the INSERT; the created ticket is the
    copy of the argument with the three returned columns scanned into it. *)
Definition Create (db : DB) (ticket : Ticket) : result Ticket * DB :=
  let tagsJSON := json.Marshal (Tags ticket) in
  let row :=
    {| title := Title ticket;
       description := sql.Value (Description ticket);
       status := Status ticket;
       priority := Priority ticket;
       assignee_id := sql.Value (AssigneeID ticket);
       tags := Some tagsJSON;
       created_at := CreatedAt ticket;
       updated_at := UpdatedAt ticket;
       reporter_id := ReporterID ticket |} in
  match insert db (ID ticket) row with
  | None => (Err (ErrFailed "create ticket"), db)
  | Some (db', (id, created, updated)) =>
    (Ok {| ID := id;
           Title := Title ticket;
           Description := Description ticket;
           Status := Status ticket;
           Priority := Priority ticket;
           AssigneeID := AssigneeID ticket;
           Tags := Tags ticket;
           CreatedAt := created;
           UpdatedAt := updated;
           ReporterID := ReporterID ticket |}, db')
  end.

(** [Scan] of the nine columns every query of the repository selects
    ([id, title, description, status, priority, assignee_id, tags,
    created_at, updated_at]) into [var ticket Ticket] and
    [var tagsJSON string]. A NULL [tags] does not scan into a [string].
    [reporter_id] is not among the columns: the field keeps its zero
    value. *)
Definition scan (id : string) (r : Row) : option (Ticket * string) :=
  match tags r with
  | None => None
  | Some tagsJSON =>
    Some ({| ID := id;
             Title := title r;
             Description := sql.Scan (description r);
             Status := status r;
             Priority := priority r;
             AssigneeID := sql.Scan (assignee_id r);
             Tags := nil_slice;
             CreatedAt := created_at r;
             UpdatedAt := updated_at r;
             ReporterID := "" |}, tagsJSON)
  end.

Definition with_Tags (t : Ticket) (v : slice string) : Ticket :=
  {| ID := ID t; Title := Title t; Description := Description t;
     Status := Status t; Priority := Priority t;
     AssigneeID := AssigneeID t; Tags := v; CreatedAt := CreatedAt t;
     UpdatedAt := UpdatedAt t; ReporterID := ReporterID t |}.

(** The decoding of the tags column after a scan: skipped for the empty
    string, otherwise [json.Unmarshal] into [ticket.Tags]. *)
Definition unmarshal_tags (ticket : Ticket) (tagsJSON : string)
  : result Ticket :=
  if String.eqb tagsJSON "" then Ok ticket
  else
    match json.Unmarshal tagsJSON with
    | Some v => Ok (with_Tags ticket v)
    | None => Err (ErrFailed "unmarshal tags from JSON")
    end.

Definition GetByID (db : DB) (id : string) : result Ticket :=
  match select_by_id db id with
  | None => Err (ErrNotFound id)
  | Some r =>
    match scan id r with
    | None => Err (ErrFailed "get ticket")
    | Some (ticket, tagsJSON) => unmarshal_tags ticket tagsJSON
    end
  end.

(** The [for rows.Next()] loop of [List]. *)
Fixpoint list_rows (rows : list (string * Row)) (tickets : list Ticket)
  : result (list Ticket) :=
  match rows with
  | [] => Ok tickets
  | (id, r) :: rest =>
    match scan id r with
    | None => Err (ErrFailed "scan ticket")
    | Some (ticket, tagsJSON) =>
      match unmarshal_tags ticket tagsJSON with
      | Ok t => list_rows rest (tickets ++ [t])
      | Err e => Err e
      | Panic => Panic
      end
    end
  end.

Definition List (db : DB) (limit offset : Z) : result (list Ticket) :=
  match select_page db limit offset with
  | None => Err (ErrFailed "list tickets")
  | Some rows => list_rows rows []
  end.

(** The values of [map[string]interface{}]: the two dynamic types the
    dispatcher stores in it. *)
Inductive value : Type :=
| VString (s : string)
| VStrings (l : slice string).

Definition arg_of_value (v : value) : arg :=
  match v with
  | VString s => ArgString s
  | VStrings l => ArgStrings l
  end.

(** The three variables the loop of [Update] threads. *)
Record builder : Type := {
  setParts : list SetPart;
  args : list arg;
  argIndex : nat
}.

Definition builder0 : builder :=
  {| setParts := []; args := []; argIndex := 1 |}.

Definition is_text_field (field : string) : bool :=
  String.eqb field "title" || String.eqb field "description"
  || String.eqb field "status" || String.eqb field "priority"
  || String.eqb field "assignee_id".

Definition push (st : builder) (col : string) (a : arg) : builder :=
  {| setParts := setParts st ++ [{| column := col; placeholder := argIndex st |}];
     args := args st ++ [a];
     argIndex := S (argIndex st) |}.

(** The [switch field] of the loop; [None] is the panic of
    [value.([]string)] on a value of another dynamic type. *)
Definition add_field (st : builder) (field : string) (v : value)
  : option builder :=
  if is_text_field field then Some (push st field (arg_of_value v))
  else if String.eqb field "tags" then
    match v with
    | VStrings l => Some (push st "tags" (ArgString (json.Marshal l)))
    | VString _ => None
    end
  else Some st.

(** [for field, value := range updates]: [updates] lists the entries of
    the map in the order the loop meets them. *)
Fixpoint range_updates (updates : list (string * value)) (st : builder)
  : option builder :=
  match updates with
  | [] => Some st
  | (field, v) :: rest =>
    match add_field st field v with
    | None => None
    | Some st' => range_updates rest st'
    end
  end.

(** [fmt.Sprintf("%s = $%d", field, argIndex)] and the SET clause the
    second loop of [Update] joins with [", "]. *)
Definition setPart_text (p : SetPart) : string :=
  column p +:+ " = $" +:+ pretty (placeholder p).

Fixpoint setClause (parts : list SetPart) : string :=
  match parts with
  | [] => ""
  | [p] => setPart_text p
  | p :: rest => setPart_text p +:+ ", " +:+ setClause rest
  end.

(** The statement [Update] runs: the SET parts, the placeholder of the
    WHERE clause and the arguments, or [None] when there is nothing to
    set. *)
Definition update_statement (st : builder) (now : Time) (id : string)
  : option (list SetPart * nat * list arg) :=
  if Nat.eqb (length (setParts st)) 0 then None
  else
    let setParts1 :=
      setParts st ++ [{| column := "updated_at"; placeholder := argIndex st |}] in
    let args1 := args st ++ [ArgTime now] in
    let argIndex1 := S (argIndex st) in
    Some (setParts1, argIndex1, args1 ++ [ArgString id]).

Definition Update (db : DB) (id : string) (updates : list (string * value))
           (now : Time) : result Ticket * DB :=
  match range_updates updates builder0 with
  | None => (Panic, db)
  | Some st =>
    match update_statement st now id with
    | None => (GetByID db id, db)
    | Some (sets, where_, args) =>
      match update_returning db sets where_ args with
      | (ErrNoRows, db') => (Err (ErrNotFound id), db')
      | (QueryError, db') => (Err (ErrFailed "update ticket"), db')
      | (OneRow id' r, db') =>
        match scan id' r with
        | None => (Err (ErrFailed "update ticket"), db')
        | Some (ticket, tagsJSON) => (unmarshal_tags ticket tagsJSON, db')
        end
      end
    end
  end.

(** [Delete]: [None] is the [nil] error. *)
Definition Delete (db : DB) (id : string) : option error * DB :=
  let '(db', rowsAffected) := delete_by_id db id in
  if (rowsAffected =? 0)%Z then (Some (ErrNotFound id), db')
  else (None, db').
(** [type Config struct] *)
Record Config : Type := {
  Host : string;
  Port : string;
  User : string;
  Password : string;
  DBName : string;
  SSLMode : string
}.

(** The data source name [NewConnection] formats with
    [fmt.Sprintf("host=%s port=%s user=%s password=%s dbname=%s sslmode=%s", ...)]
    and hands to [sql.Open]. *)
Definition dsn (config : Config) : string :=
  "host=" +:+ Host config +:+ " port=" +:+ Port config
  +:+ " user=" +:+ User config +:+ " password=" +:+ Password config
  +:+ " dbname=" +:+ DBName config +:+ " sslmode=" +:+ SSLMode config.
End database.

(** ** The wire types ([proto/ticket]) *)

Module ticketpb.
(** Modelled from the spec: the generated package [proto/ticket] is not
    among the sources. The enums have the four named values of the spec,
    the unspecified sentinel and, protobuf enums being open, every other
    number; the messages have the fields [main.go] reads and writes. *)
Inductive TicketStatus : Type :=
| TICKET_STATUS_UNSPECIFIED
| TICKET_STATUS_OPEN
| TICKET_STATUS_IN_PROGRESS
| TICKET_STATUS_RESOLVED
| TICKET_STATUS_CLOSED
| TICKET_STATUS_unknown (n : Z).

Inductive TicketPriority : Type :=
| TICKET_PRIORITY_UNSPECIFIED
| TICKET_PRIORITY_LOW
| TICKET_PRIORITY_MEDIUM
| TICKET_PRIORITY_HIGH
| TICKET_PRIORITY_CRITICAL
| TICKET_PRIORITY_unknown (n : Z).

Record Ticket : Type := {
  Id : string;
  Title : string;
  Description : string;
  Status : TicketStatus;
  Priority : TicketPriority;
  AssigneeId : string;
  Tags : slice string;
  CreatedAt : Time;
  UpdatedAt : Time
}.

Record CreateTicketRequest : Type := {
  create_Title : string;
  create_Description : string;
  create_Priority : TicketPriority;
  create_AssigneeId : string;
  create_Tags : slice string;
  create_ReporterId : string
}.

Record UpdateTicketRequest : Type := {
  update_Id : string;
  update_Title : string;
  update_Description : string;
  update_Status : TicketStatus;
  update_Priority : TicketPriority;
  update_AssigneeId : string;
  update_Tags : slice string
}.

Record DeleteTicketResponse : Type := { Success : bool }.
End ticketpb.

(** ** The operation dispatcher ([ticket-service-db/main.go]) *)

Module server.
Import ticketpb.
Import database (result, Ok, Err, Panic).

Definition convertStatusToProto (status : string) : TicketStatus :=
  if String.eqb status "OPEN" then TICKET_STATUS_OPEN
  else if String.eqb status "IN_PROGRESS" then TICKET_STATUS_IN_PROGRESS
  else if String.eqb status "RESOLVED" then TICKET_STATUS_RESOLVED
  else if String.eqb status "CLOSED" then TICKET_STATUS_CLOSED
  else TICKET_STATUS_OPEN.

Definition convertPriorityToProto (priority : string) : TicketPriority :=
  if String.eqb priority "LOW" then TICKET_PRIORITY_LOW
  else if String.eqb priority "MEDIUM" then TICKET_PRIORITY_MEDIUM
  else if String.eqb priority "HIGH" then TICKET_PRIORITY_HIGH
  else if String.eqb priority "CRITICAL" then TICKET_PRIORITY_CRITICAL
  else TICKET_PRIORITY_MEDIUM.

Definition convertStatusFromProto (status : TicketStatus) : string :=
  match status with
  | TICKET_STATUS_OPEN => "OPEN"
  | TICKET_STATUS_IN_PROGRESS => "IN_PROGRESS"
  | TICKET_STATUS_RESOLVED => "RESOLVED"
  | TICKET_STATUS_CLOSED => "CLOSED"
  | _ => "OPEN"
  end.

Definition convertPriorityFromProto (priority : TicketPriority) : string :=
  match priority with
  | TICKET_PRIORITY_LOW => "LOW"
  | TICKET_PRIORITY_MEDIUM => "MEDIUM"
  | TICKET_PRIORITY_HIGH => "HIGH"
  | TICKET_PRIORITY_CRITICAL => "CRITICAL"
  | _ => "MEDIUM"
  end.

Definition dbTicketToProto (dbTicket : database.Ticket) : Ticket :=
  {| Id := database.ID dbTicket;
     Title := database.Title dbTicket;
     Status := convertStatusToProto (database.Status dbTicket);
     Priority := convertPriorityToProto (database.Priority dbTicket);
     Tags := database.Tags dbTicket;
     CreatedAt := database.CreatedAt dbTicket;
     UpdatedAt := database.UpdatedAt dbTicket;
     Description :=
       if sql.Valid (database.Description dbTicket)
       then sql.String_ (database.Description dbTicket) else "";
     AssigneeId :=
       if sql.Valid (database.AssigneeID dbTicket)
       then sql.String_ (database.AssigneeID dbTicket) else "" |}.

(** The [database.Ticket] literal of [CreateTicket] and the two
    conditional assignments after it. [id] is [uuid.New().String()],
    [now1] and [now2] the two readings of [time.Now()]. *)
Definition new_dbTicket (id : string) (now1 now2 : Time)
           (req : CreateTicketRequest) : database.Ticket :=
  {| database.ID := id;
     database.CreatedAt := now1;
     database.UpdatedAt := now2;
     database.Title := create_Title req;
     database.Status := "OPEN";
     database.Priority := convertPriorityFromProto (create_Priority req);
     database.Tags := create_Tags req;
     database.ReporterID := create_ReporterId req;
     database.Description :=
       if negb (String.eqb (create_Description req) "")
       then {| sql.String_ := create_Description req; sql.Valid := true |}
       else sql.null;
     database.AssigneeID :=
       if negb (String.eqb (create_AssigneeId req) "")
       then {| sql.String_ := create_AssigneeId req; sql.Valid := true |}
       else sql.null |}.

Definition CreateTicket (db : sqldb.DB) (id : string) (now1 now2 : Time)
           (req : CreateTicketRequest) : result Ticket * sqldb.DB :=
  let dbTicket := new_dbTicket id now1 now2 req in
  match database.Create db dbTicket with
  | (Ok createdTicket, db') => (Ok (dbTicketToProto createdTicket), db')
  | (Err e, db') => (Err e, db')
  | (Panic, db') => (Panic, db')
  end.

Definition GetTicket (db : sqldb.DB) (id : string) : result Ticket :=
  match database.GetByID db id with
  | Ok ticket => Ok (dbTicketToProto ticket)
  | Err e => Err e
  | Panic => Panic
  end.

(** [limit := int(req.PageSize); if limit <= 0 || limit > 100 { limit = 50 }] *)
Definition page_limit (page_size : Z) : Z :=
  if ((page_size <=? 0) || (100 <? page_size))%Z then 50%Z else page_size.

Definition page_offset : Z := 0%Z.

Definition ListTickets (db : sqldb.DB) (page_size : Z)
  : result (list Ticket) :=
  let limit := page_limit page_size in
  let offset := page_offset in
  match database.List db limit offset with
  | Ok tickets => Ok (map dbTicketToProto tickets)
  | Err e => Err e
  | Panic => Panic
  end.

(** The [updates] map of [UpdateTicket]. *)
Definition build_updates (req : UpdateTicketRequest)
  : gmap string database.value :=
  let updates : gmap string database.value := ∅ in
  let updates :=
    if negb (String.eqb (update_Title req) "")
    then <["title" := database.VString (update_Title req)]> updates
    else updates in
  let updates :=
    if negb (String.eqb (update_Description req) "")
    then <["description" := database.VString (update_Description req)]> updates
    else updates in
  let updates :=
    match update_Status req with
    | TICKET_STATUS_UNSPECIFIED => updates
    | s => <["status" := database.VString (convertStatusFromProto s)]> updates
    end in
  let updates :=
    match update_Priority req with
    | TICKET_PRIORITY_UNSPECIFIED => updates
    | p => <["priority" := database.VString (convertPriorityFromProto p)]> updates
    end in
  let updates :=
    if negb (String.eqb (update_AssigneeId req) "")
    then <["assignee_id" := database.VString (update_AssigneeId req)]> updates
    else updates in
  let updates :=
    if (0 <? len (update_Tags req))%nat
    then <["tags" := database.VStrings (update_Tags req)]> updates
    else updates in
  updates.

(** [UpdateTicket]; the range loop of the repository is given the entries
    of the map in the order [map_to_list] lists them; the result of
    [Update] does not depend on that order, as is proved below. *)
Definition UpdateTicket (db : sqldb.DB) (now : Time)
           (req : UpdateTicketRequest) : result Ticket * sqldb.DB :=
  let updates := build_updates req in
  match database.Update db (update_Id req) (map_to_list updates) now with
  | (Ok updatedTicket, db') => (Ok (dbTicketToProto updatedTicket), db')
  | (Err e, db') => (Err e, db')
  | (Panic, db') => (Panic, db')
  end.

(** [DeleteTicket]: the error of the repository becomes [Success: false]
    with a [nil] error. *)
Definition DeleteTicket (db : sqldb.DB) (id : string)
  : result DeleteTicketResponse * sqldb.DB :=
  match database.Delete db id with
  | (Some _, db') => (Ok {| Success := false |}, db')
  | (None, db') => (Ok {| Success := true |}, db')
  end.
(** [os.Getenv]: the value of the variable, the empty string when it is
    not set. The environment is the map of the variables that are set. *)
Definition Getenv (env : gmap string string) (key : string) : string :=
  default "" (env !! key).

(** [getEnv]: the variable, or the fallback when it reads as empty. *)
Definition getEnv (env : gmap string string) (key fallback : string)
  : string :=
  let value := Getenv env key in
  if negb (String.eqb value "") then value else fallback.

(** The [database.Config] literal of [main]. *)
Definition dbConfig (env : gmap string string) : database.Config :=
  {| database.Host := getEnv env "DB_HOST" "localhost";
     database.Port := getEnv env "DB_PORT" "5432";
     database.User := getEnv env "DB_USER" "ayushpandya";
     database.Password := getEnv env "DB_PASSWORD" "postgres";
     database.DBName := getEnv env "DB_NAME" "ticketdb";
     database.SSLMode := getEnv env "DB_SSLMODE" "disable" |}.

(** The address [main] gives to [net.Listen]: [":" + port]. *)
Definition listen_address (env : gmap string string) : string :=
  ":" +:+ getEnv env "GRPC_PORT" "50051".
End server.

(** ** Vocabulary of the specification *)

Module spec.
Import sqldb database.

(** The recognized fields of a field-updates mapping. *)
Definition recognized (field : string) : bool :=
  is_text_field field || String.eqb field "tags".

(** A field-updates mapping holds, under a recognized name, a new value
    for that attribute: a string for the five text attributes, a sequence
    of strings for the tags. Other keys may hold anything. *)
Definition fits (field : string) (v : value) : bool :=
  if is_text_field field then
    match v with VString _ => true | VStrings _ => false end
  else if String.eqb field "tags" then
    match v with VStrings _ => true | VString _ => false end
  else true.

(** The one entry on which the loop of [Update] panics: [tags] with a
    value that is not a sequence of strings. *)
Definition no_panic (field : string) (v : value) : bool :=
  negb (String.eqb field "tags"
        && match v with VString _ => true | VStrings _ => false end).

Definition field_updates (m : gmap string value) : Prop :=
  map_Forall (λ field v, fits field v = true) m.

(** The orders in which a range loop may meet the entries of a map. *)
Definition range_order (m : gmap string value)
           (updates : list (string * value)) : Prop :=
  updates ≡ₚ map_to_list m.

(** The query argument of a recognized entry: the value itself, the tags
    as their JSON text. *)
Definition arg_for (kv : string * value) : arg :=
  match kv.2 with
  | VString s => ArgString s
  | VStrings l =>
    if String.eqb kv.1 "tags" then ArgString (json.Marshal l)
    else ArgStrings l
  end.

(** The storage string of a wire priority, as the table of the
    specification gives it. *)
Definition priority_string (p : ticketpb.TicketPriority) : string :=
  match p with
  | ticketpb.TICKET_PRIORITY_LOW => "LOW"
  | ticketpb.TICKET_PRIORITY_HIGH => "HIGH"
  | ticketpb.TICKET_PRIORITY_CRITICAL => "CRITICAL"
  | ticketpb.TICKET_PRIORITY_MEDIUM => "MEDIUM"
  | ticketpb.TICKET_PRIORITY_UNSPECIFIED => "MEDIUM"
  | ticketpb.TICKET_PRIORITY_unknown _ => "MEDIUM"
  end.

(** Empty input string: absent; otherwise present. *)
Definition optional (s : string) : option string :=
  match s with
  | EmptyString => None
  | _ => Some s
  end.

(** Every tag is valid UTF-8. *)
Definition valid_tags (v : slice string) : Prop :=
  Forall (λ x, utf8.ValidString x = true) (elems v).

(** Newest first, on the wire tickets. *)
Definition newest_first (a b : ticketpb.Ticket) : Prop :=
  (ticketpb.CreatedAt b ≤ ticketpb.CreatedAt a)%Z.

(** A store whose schema accepts every row ([init.sql] has no CHECK
    constraint: it accepts every row within the widths of its columns). *)
Definition store (t : gmap string Row) : DB :=
  {| admits := λ _ _, true; tickets := t |}.
End spec.

(** ** Auxiliary definitions of the proofs *)

(** The SET parts of the recognized entries, numbered from [k]. *)
Definition numbered (k : nat) (l : list (string * database.value))
  : list sqldb.SetPart :=
  imap (λ i kv, {| sqldb.column := kv.1; sqldb.placeholder := k + i |}) l.

Definition recognized_entries (l : list (string * database.value))
  : list (string * database.value) :=
  filter (λ kv, spec.recognized kv.1) l.

Import sqldb database.

Section auxiliary_runes.
Local Open Scope N_scope.

(** The rune a two-byte sequence stands for: the payload bits of the lead
    byte followed by those of the continuation byte. *)
Definition rune2 (p0 b1 : N) : N := (p0 mod 32) * 64 + b1 mod 64.

(** The rune of a three-byte sequence. *)
Definition rune3 (p0 b1 b2 : N) : N := (p0 mod 16) * 4096 + (b1 mod 64) * 64 + b2 mod 64.

(** The rune of a four-byte sequence. *)
Definition rune4 (p0 b1 b2 b3 : N) : N :=
  (p0 mod 8) * 262144 + (b1 mod 64) * 4096 + (b2 mod 64) * 64 + b3 mod 64.

(** [bytes] is the encoding of the rune [r], and decoding reads it back
    whatever follows. *)
Definition encodes (bytes : list ascii) (r : N) : Prop :=
  utf8.EncodeRune r = bytes
  ∧ ∀ t, utf8.DecodeRune (bytes ++ t) = (r, length bytes).

(** The output already written, put in front of what the rest of the
    literal decodes to. *)
Definition prepend (out : list ascii) (o : option (list ascii * list ascii))
  : option (list ascii * list ascii) :=
  match o with
  | Some (t, r) => Some (out ++ t, r)
  | None => None
  end.

End auxiliary_runes.

(** The row [Create] inserts for a ticket. *)
Definition row_of_ticket (ticket : Ticket) : Row :=
  {| title := Title ticket;
     description := sql.Value (Description ticket);
     status := Status ticket;
     priority := Priority ticket;
     assignee_id := sql.Value (AssigneeID ticket);
     tags := Some (json.Marshal (Tags ticket));
     created_at := CreatedAt ticket;
     updated_at := UpdatedAt ticket;
     reporter_id := ReporterID ticket |}.

(** What a row scans and decodes to. *)
Definition row_ticket (row : string * Row) : result Ticket :=
  match scan row.1 row.2 with
  | None => Err (ErrFailed "scan ticket")
  | Some (ticket, tagsJSON) => unmarshal_tags ticket tagsJSON
  end.

(** The page the store returns for [ListTickets]. *)
Definition page (db : DB) (page_size : Z) : list (string * Row) :=
  take (Z.to_nat (server.page_limit page_size))
       (merge_sort newer_first (map_to_list (tickets db))).

(** The assignment a column and an argument stand for, if any. *)
Definition setter (col : string) (a : arg) : option (Row → Row) :=
  match a with
  | ArgString s =>
    if String.eqb col "title" then Some (set_title s)
    else if String.eqb col "description" then Some (set_description (Some s))
    else if String.eqb col "status" then Some (set_status s)
    else if String.eqb col "priority" then Some (set_priority s)
    else if String.eqb col "assignee_id" then Some (set_assignee_id (Some s))
    else if String.eqb col "tags" then Some (set_tags (Some s))
    else None
  | ArgTime t => if String.eqb col "updated_at" then Some (set_updated_at t) else None
  | ArgStrings _ => None
  end.

(** The assignments of a list of entries, in order. *)
Fixpoint assign_fields (fields : list (string * value)) (r : Row) : option Row :=
  match fields with
  | [] => Some r
  | kv :: rest =>
    match assign kv.1 (spec.arg_for kv) r with
    | None => None
    | Some r' => assign_fields rest r'
    end
  end.

(** The text columns of a row by name; NULL and an unknown name read as
    [None]. *)
Definition get_column (c : string) (r : Row) : option string :=
  if String.eqb c "title" then Some (title r)
  else if String.eqb c "description" then description r
  else if String.eqb c "status" then Some (status r)
  else if String.eqb c "priority" then Some (priority r)
  else if String.eqb c "assignee_id" then assignee_id r
  else if String.eqb c "tags" then tags r
  else if String.eqb c "reporter_id" then Some (reporter_id r)
  else None.

(** What the UPDATE statement of [Update] comes to for the recognized
    entries [fields], with the scan and the decoding of the returned row. *)
Definition updated (db : DB) (id : string) (fields : list (string * value))
           (now : Time) : result Ticket * DB :=
  if negb (forallb driver_accepts (map spec.arg_for fields))
  then (Err (ErrFailed "update ticket"), db)
  else
    match tickets db !! id with
    | None => (Err (ErrNotFound id), db)
    | Some r =>
      match assign_fields fields r with
      | None => (Err (ErrFailed "update ticket"), db)
      | Some r1 =>
        let r' := set_updated_at now r1 in
        if admits db id r'
        then (match scan id r' with
              | None => Err (ErrFailed "update ticket")
              | Some (ticket, tagsJSON) => unmarshal_tags ticket tagsJSON
              end, with_tickets db (<[id := r']> (tickets db)))
        else (Err (ErrFailed "update ticket"), db)
      end
    end.

(** The number of stored tickets created after the time [c]. *)
Definition newer_than (db : DB) (c : Time) : nat :=
  length (filter (λ kv : string * Row, (c < created_at kv.2)%Z)
                 (map_to_list (tickets db))).

(** The entry of the [updates] map of [UpdateTicket] under the key [c]. *)
Definition requested (req : ticketpb.UpdateTicketRequest) (c : string)
  : option value :=
  if String.eqb c "title" then
    if String.eqb (ticketpb.update_Title req) "" then None
    else Some (VString (ticketpb.update_Title req))
  else if String.eqb c "description" then
    if String.eqb (ticketpb.update_Description req) "" then None
    else Some (VString (ticketpb.update_Description req))
  else if String.eqb c "status" then
    match ticketpb.update_Status req with
    | ticketpb.TICKET_STATUS_UNSPECIFIED => None
    | s => Some (VString (server.convertStatusFromProto s))
    end
  else if String.eqb c "priority" then
    match ticketpb.update_Priority req with
    | ticketpb.TICKET_PRIORITY_UNSPECIFIED => None
    | p => Some (VString (server.convertPriorityFromProto p))
    end
  else if String.eqb c "assignee_id" then
    if String.eqb (ticketpb.update_AssigneeId req) "" then None
    else Some (VString (ticketpb.update_AssigneeId req))
  else if String.eqb c "tags" then
    if (0 <? len (ticketpb.update_Tags req))%nat
    then Some (VStrings (ticketpb.update_Tags req)) else None
  else None.

(** The wire ticket [t] with the tags [v]. *)
Definition with_wire_tags (t : ticketpb.Ticket) (v : slice string)
  : ticketpb.Ticket :=
  {| ticketpb.Id := ticketpb.Id t; ticketpb.Title := ticketpb.Title t;
     ticketpb.Description := ticketpb.Description t;
     ticketpb.Status := ticketpb.Status t;
     ticketpb.Priority := ticketpb.Priority t;
     ticketpb.AssigneeId := ticketpb.AssigneeId t;
     ticketpb.Tags := v;
     ticketpb.CreatedAt := ticketpb.CreatedAt t;
     ticketpb.UpdatedAt := ticketpb.UpdatedAt t |}.

(** The row [r] with the recognized fields of the mapping [m] written into
    it: the text fields as they are, the tags as their JSON text. *)
Definition changed (m : gmap string value) (r : Row) : Row :=
  {| title := match m !! "title" with Some (VString s) => s | _ => title r end;
     description :=
       match m !! "description" with
       | Some (VString s) => Some s
       | _ => description r
       end;
     status := match m !! "status" with Some (VString s) => s | _ => status r end;
     priority :=
       match m !! "priority" with Some (VString s) => s | _ => priority r end;
     assignee_id :=
       match m !! "assignee_id" with
       | Some (VString s) => Some s
       | _ => assignee_id r
       end;
     tags :=
       match m !! "tags" with
       | Some (VStrings l) => Some (json.Marshal l)
       | _ => tags r
       end;
     created_at := created_at r;
     updated_at := updated_at r;
     reporter_id := reporter_id r |}.

(** ** Sample stores and requests, for the concrete runs below *)

Section samples.
Local Open Scope Z_scope.

Definition ex_row : Row :=
  {| title := "Fix login bug";
     description := Some "Users cannot log in";
     status := "OPEN";
     priority := "HIGH";
     assignee_id := None;
     tags := Some (json.Marshal (mk_slice ["bug"; "auth"]));
     created_at := 10%Z;
     updated_at := 11%Z;
     reporter_id := "user-7" |}.

Definition ex_db : DB := spec.store {["t-1" := ex_row]}.

Definition ex_ticket (id : string) (tags : slice string) : Ticket :=
  {| ID := id; Title := "Fix login bug"; Description := sql.null;
     Status := "OPEN"; Priority := "HIGH"; AssigneeID := sql.null;
     Tags := tags; CreatedAt := 30%Z; UpdatedAt := 30%Z;
     ReporterID := "user-7" |}.

Definition ex_created (id : string) (tags : slice string) : DB :=
  (Create ex_db (ex_ticket id tags)).2.

(** The byte 0xFF is not valid UTF-8: [json.Marshal] writes it as the escape
    of U+FFFD, and what comes back is the three-byte encoding EF BF BD of
    U+FFFD. *)
Definition bad_tag : string := String "255" EmptyString.

Definition replaced_tag : string :=
  String "239" (String "191" (String "189" EmptyString)).

Definition ex_request (title : string) : ticketpb.CreateTicketRequest :=
  {| ticketpb.create_Title := title;
     ticketpb.create_Description := "";
     ticketpb.create_Priority := ticketpb.TICKET_PRIORITY_UNSPECIFIED;
     ticketpb.create_AssigneeId := "user-9";
     ticketpb.create_Tags := nil_slice;
     ticketpb.create_ReporterId := "user-7" |}.

Definition ex_updates : gmap string value :=
  <["tags" := VStrings (mk_slice ["bug"])]>
    (<["note" := VString "n"]> {["title" := VString "T"]}).

Definition ex_row_at (name : string) (created : Time) : Row :=
  {| title := name; description := None; status := "OPEN"; priority := "LOW";
     assignee_id := None; tags := Some "[]"; created_at := created;
     updated_at := created; reporter_id := "user-7" |}.

Definition ex_db3 : DB :=
  spec.store
    (<["t-2" := ex_row_at "Newest" 30]>
       (<["t-3" := ex_row_at "Oldest" 10]> {["t-1" := ex_row_at "Middle" 20]})).

(** A row as a statement other than the repository's may leave it: the tags
    are NULL. *)
Definition ex_null_tags : Row :=
  {| title := "Imported"; description := None; status := "OPEN";
     priority := "LOW"; assignee_id := None; tags := None; created_at := 5;
     updated_at := 5; reporter_id := "user-7" |}.

Definition ex_db_null : DB := spec.store {["t-9" := ex_null_tags]}.

Definition ex_update : ticketpb.UpdateTicketRequest :=
  {| ticketpb.update_Id := "t-1";
     ticketpb.update_Title := "Fix login bug - URGENT";
     ticketpb.update_Description := "";
     ticketpb.update_Status := ticketpb.TICKET_STATUS_unknown 99;
     ticketpb.update_Priority := ticketpb.TICKET_PRIORITY_UNSPECIFIED;
     ticketpb.update_AssigneeId := "";
     ticketpb.update_Tags := nil_slice |}.

Definition ex_create : ticketpb.CreateTicketRequest :=
  {| ticketpb.create_Title := "Add dark mode";
     ticketpb.create_Description := "Users requested dark mode";
     ticketpb.create_Priority := ticketpb.TICKET_PRIORITY_MEDIUM;
     ticketpb.create_AssigneeId := "";
     ticketpb.create_Tags := mk_slice ["feature"; "ui"];
     ticketpb.create_ReporterId := "user-7" |}.

End samples.

(** * Theorems *)

(** ** UTF-8 and JSON *)

Section json_facts.
Local Open Scope N_scope.

Ltac div_lia := zify; Z.to_euclidean_division_equations; lia.

Lemma land_shiftl_low a b k : b < 2 ^ k → N.land (a * 2 ^ k) b = 0.
Proof.
  intros Hb. apply N.bits_inj; intros i. rewrite N.land_spec, N.bits_0.
  destruct (N.lt_ge_cases i k) as [Hi|Hi].
  - rewrite N.mul_pow2_bits_low by trivial. reflexivity.
  - rewrite <- (N.mod_small b (2 ^ k)) by trivial.
    rewrite N.mod_pow2_bits_high by trivial. apply andb_false_r.
Qed.

Lemma lor_shiftl_low a b k : b < 2 ^ k → N.lor (N.shiftl a k) b = a * 2 ^ k + b.
Proof.
  intros Hb. rewrite N.shiftl_mul_pow2.
  pose proof (land_shiftl_low a b k Hb) as H0.
  rewrite <- N.lxor_lor, <- N.add_nocarry_lxor; trivial.
Qed.

Lemma lor_tag t a k : a < 2 ^ k → t mod 2 ^ k = 0 → N.lor t a = t + a.
Proof.
  intros Ha Ht.
  assert (t = (t / 2 ^ k) * 2 ^ k) as ->.
  { rewrite (N.div_mod t (2 ^ k)) at 1 by (apply N.pow_nonzero; discriminate). rewrite Ht. div_lia. }
  rewrite <- N.shiftl_mul_pow2. rewrite lor_shiftl_low; trivial. rewrite N.shiftl_mul_pow2. reflexivity.
Qed.

Lemma mask_mod5 x : N.land x utf8.mask2 = x mod 32.
Proof. apply (N.land_ones x 5). Qed.
Lemma mask_mod4 x : N.land x utf8.mask3 = x mod 16.
Proof. apply (N.land_ones x 4). Qed.
Lemma mask_mod3 x : N.land x utf8.mask4 = x mod 8.
Proof. apply (N.land_ones x 3). Qed.
Lemma mask_mod6 x : N.land x utf8.maskx = x mod 64.
Proof. apply (N.land_ones x 6). Qed.

Lemma dec2_arith p0 b1 :
  N.lor (N.shiftl (N.land p0 utf8.mask2) 6) (N.land b1 utf8.maskx)
  = (p0 mod 32) * 64 + b1 mod 64.
Proof.
  rewrite mask_mod5, mask_mod6. apply (lor_shiftl_low _ _ 6). change (2^6) with 64. div_lia.
Qed.

Lemma dec3_arith p0 b1 b2 :
  N.lor (N.lor (N.shiftl (N.land p0 utf8.mask3) 12) (N.shiftl (N.land b1 utf8.maskx) 6))
        (N.land b2 utf8.maskx)
  = (p0 mod 16) * 4096 + (b1 mod 64) * 64 + b2 mod 64.
Proof.
  rewrite mask_mod4, !mask_mod6.
  rewrite (N.shiftl_mul_pow2 (b1 mod 64)).
  rewrite (lor_shiftl_low _ _ 12) by (change (2^12) with 4096; change (2^6) with 64; div_lia).
  replace (p0 mod 16 * 2 ^ 12 + b1 mod 64 * 2 ^ 6) with (N.shiftl (p0 mod 16 * 64 + b1 mod 64) 6)
    by (rewrite N.shiftl_mul_pow2; change (2^12) with 4096; change (2^6) with 64; div_lia).
  rewrite (lor_shiftl_low _ _ 6) by (change (2^6) with 64; div_lia).
  change (2^6) with 64; div_lia.
Qed.

Lemma dec4_arith p0 b1 b2 b3 :
  N.lor (N.lor (N.lor (N.shiftl (N.land p0 utf8.mask4) 18) (N.shiftl (N.land b1 utf8.maskx) 12))
               (N.shiftl (N.land b2 utf8.maskx) 6))
        (N.land b3 utf8.maskx)
  = (p0 mod 8) * 262144 + (b1 mod 64) * 4096 + (b2 mod 64) * 64 + b3 mod 64.
Proof.
  rewrite mask_mod3, !mask_mod6.
  rewrite (N.shiftl_mul_pow2 (b1 mod 64)), (N.shiftl_mul_pow2 (b2 mod 64)).
  rewrite (lor_shiftl_low _ _ 18) by (change (2^18) with 262144; change (2^12) with 4096; div_lia).
  replace (p0 mod 8 * 2 ^ 18 + b1 mod 64 * 2 ^ 12)
    with (N.shiftl (p0 mod 8 * 64 + b1 mod 64) 12)
    by (rewrite N.shiftl_mul_pow2; change (2^18) with 262144; change (2^12) with 4096; div_lia).
  rewrite (lor_shiftl_low _ _ 12) by (change (2^12) with 4096; change (2^6) with 64; div_lia).
  replace ((p0 mod 8 * 64 + b1 mod 64) * 2 ^ 12 + b2 mod 64 * 2 ^ 6)
    with (N.shiftl ((p0 mod 8 * 64 + b1 mod 64) * 64 + b2 mod 64) 6)
    by (rewrite N.shiftl_mul_pow2; change (2^12) with 4096; change (2^6) with 64; div_lia).
  rewrite (lor_shiftl_low _ _ 6) by (change (2^6) with 64; div_lia).
  change (2^6) with 64; div_lia.
Qed.

Lemma enc_cont r k : N.lor utf8.tx (N.land (N.shiftr r k) utf8.maskx) = 128 + (r / 2 ^ k) mod 64.
Proof.
  rewrite mask_mod6, N.shiftr_div_pow2. apply (lor_tag _ _ 6); [change (2^6) with 64; div_lia | reflexivity].
Qed.

Lemma enc_cont0 r : N.lor utf8.tx (N.land r utf8.maskx) = 128 + r mod 64.
Proof.
  rewrite mask_mod6. apply (lor_tag _ _ 6); [change (2^6) with 64; div_lia | reflexivity].
Qed.

Lemma enc_lead2 r : r <= 0x7FF → N.lor utf8.t2 (N.shiftr r 6) = 192 + r / 64.
Proof.
  intros. rewrite N.shiftr_div_pow2. change (2^6) with 64.
  apply (lor_tag _ _ 5); [change (2^5) with 32; div_lia | reflexivity].
Qed.
Lemma enc_lead3 r : r <= 0xFFFF → N.lor utf8.t3 (N.shiftr r 12) = 224 + r / 4096.
Proof.
  intros. rewrite N.shiftr_div_pow2. change (2^12) with 4096.
  apply (lor_tag _ _ 4); [change (2^4) with 16; div_lia | reflexivity].
Qed.
Lemma enc_lead4 r : r <= 0x10FFFF → N.lor utf8.t4 (N.shiftr r 18) = 240 + r / 262144.
Proof.
  intros. rewrite N.shiftr_div_pow2. change (2^18) with 262144.
  apply (lor_tag _ _ 3); [change (2^3) with 8; div_lia | reflexivity].
Qed.

Lemma cont_mod b : 0x80 <= b → b <= 0xBF → b mod 64 = b - 128.
Proof. intros. div_lia. Qed.

Lemma encode_rune2 p0 b1 :
  0xC2 <= p0 → p0 < 0xE0 → 0x80 <= b1 → b1 <= 0xBF →
  utf8.EncodeRune (rune2 p0 b1) = [utf8.byte p0; utf8.byte b1].
Proof.
  intros. unfold rune2. rewrite (cont_mod b1) by assumption.
  assert (p0 mod 32 = p0 - 192) as -> by div_lia.
  set (r := (p0 - 192) * 64 + (b1 - 128)).
  assert (r / 64 = p0 - 192) as Hq by (subst r; div_lia).
  assert (r mod 64 = b1 - 128) as Hm by (subst r; div_lia).
  assert (128 <= r ∧ r <= 0x7FF) as [Hlo Hhi] by (subst r; lia).
  unfold utf8.EncodeRune, utf8.rune1Max, utf8.rune2Max.
  destruct (N.leb_spec r 127); [lia|].
  destruct (N.leb_spec r 2047); [|lia].
  rewrite enc_lead2, enc_cont0, Hq, Hm by assumption.
  repeat f_equal; lia.
Qed.

Lemma encode_rune3 p0 b1 b2 :
  0xE0 <= p0 → p0 < 0xF0 → 0x80 <= b1 → b1 <= 0xBF → 0x80 <= b2 → b2 <= 0xBF →
  (p0 = 0xE0 → 0xA0 <= b1) → (p0 = 0xED → b1 <= 0x9F) →
  utf8.EncodeRune (rune3 p0 b1 b2) = [utf8.byte p0; utf8.byte b1; utf8.byte b2].
Proof.
  intros. unfold rune3. rewrite (cont_mod b1), (cont_mod b2) by assumption.
  assert (p0 mod 16 = p0 - 224) as -> by div_lia.
  set (r := (p0 - 224) * 4096 + (b1 - 128) * 64 + (b2 - 128)).
  assert (r / 4096 = p0 - 224) as Hq by (subst r; div_lia).
  assert ((r / 64) mod 64 = b1 - 128) as Hm1 by (subst r; div_lia).
  assert (r mod 64 = b2 - 128) as Hm by (subst r; div_lia).
  assert (0x800 <= r ∧ r <= 0xFFFF ∧ (r < 0xD800 ∨ 0xDFFF < r)) as (Hlo & Hhi & Hs)
    by (subst r; lia).
  unfold utf8.EncodeRune, utf8.rune1Max, utf8.rune2Max, utf8.rune3Max,
    utf8.MaxRune, utf8.surrogateMin, utf8.surrogateMax.
  destruct (N.leb_spec r 127); [lia|].
  destruct (N.leb_spec r 2047); [lia|].
  destruct (N.ltb_spec 1114111 r); [lia|].
  assert ((55296 <=? r) && (r <=? 57343) = false) as ->.
  { destruct (N.leb_spec 55296 r), (N.leb_spec r 57343); trivial; lia. }
  cbv beta iota delta [orb]. destruct (N.leb_spec r 65535); [|lia].
  unfold utf8.encode3.
  rewrite enc_lead3, (enc_cont _ 6), enc_cont0 by assumption.
  change (2 ^ 6) with 64. rewrite Hq, Hm1, Hm.
  repeat f_equal; lia.
Qed.

Lemma encode_rune4 p0 b1 b2 b3 :
  0xF0 <= p0 → p0 <= 0xF4 → 0x80 <= b1 → b1 <= 0xBF → 0x80 <= b2 → b2 <= 0xBF →
  0x80 <= b3 → b3 <= 0xBF →
  (p0 = 0xF0 → 0x90 <= b1) → (p0 = 0xF4 → b1 <= 0x8F) →
  utf8.EncodeRune (rune4 p0 b1 b2 b3)
  = [utf8.byte p0; utf8.byte b1; utf8.byte b2; utf8.byte b3].
Proof.
  intros. unfold rune4.
  rewrite (cont_mod b1), (cont_mod b2), (cont_mod b3) by assumption.
  assert (p0 mod 8 = p0 - 240) as -> by div_lia.
  set (r := (p0 - 240) * 262144 + (b1 - 128) * 4096 + (b2 - 128) * 64 + (b3 - 128)).
  assert (r / 262144 = p0 - 240) as Hq by (subst r; div_lia).
  assert ((r / 4096) mod 64 = b1 - 128) as Hm2 by (subst r; div_lia).
  assert ((r / 64) mod 64 = b2 - 128) as Hm1 by (subst r; div_lia).
  assert (r mod 64 = b3 - 128) as Hm by (subst r; div_lia).
  assert (0x10000 <= r ∧ r <= 0x10FFFF) as (Hlo & Hhi) by (subst r; lia).
  unfold utf8.EncodeRune, utf8.rune1Max, utf8.rune2Max, utf8.rune3Max,
    utf8.MaxRune, utf8.surrogateMin, utf8.surrogateMax.
  destruct (N.leb_spec r 127); [lia|].
  destruct (N.leb_spec r 2047); [lia|].
  destruct (N.ltb_spec 1114111 r); [lia|].
  assert ((55296 <=? r) && (r <=? 57343) = false) as ->.
  { destruct (N.leb_spec 55296 r), (N.leb_spec r 57343); trivial; lia. }
  cbv beta iota delta [orb]. destruct (N.leb_spec r 65535); [lia|].
  rewrite enc_lead4, (enc_cont _ 12), (enc_cont _ 6), enc_cont0 by assumption.
  change (2 ^ 6) with 64. change (2 ^ 12) with 4096. rewrite Hq, Hm2, Hm1, Hm.
  repeat f_equal; lia.
Qed.

Lemma first_cases p0 :
  p0 < 256 →
  (p0 < 0x80 ∧ utf8.first p0 = utf8.as_)
  ∨ (0x80 <= p0 ∧ utf8.first p0 = utf8.xx)
  ∨ (0xC2 <= p0 ∧ p0 < 0xE0 ∧ utf8.first p0 = utf8.s1)
  ∨ (p0 = 0xE0 ∧ utf8.first p0 = utf8.s2)
  ∨ (0xE1 <= p0 ∧ p0 < 0xF0 ∧ p0 ≠ 0xED ∧ utf8.first p0 = utf8.s3)
  ∨ (p0 = 0xED ∧ utf8.first p0 = utf8.s4)
  ∨ (p0 = 0xF0 ∧ utf8.first p0 = utf8.s5)
  ∨ (0xF1 <= p0 ∧ p0 < 0xF4 ∧ utf8.first p0 = utf8.s6)
  ∨ (p0 = 0xF4 ∧ utf8.first p0 = utf8.s7).
Proof.
  intros Hb. unfold utf8.first.
  repeat match goal with
  | |- context [N.ltb ?a ?b] => destruct (N.ltb_spec a b)
  | |- context [N.eqb ?a ?b] => destruct (N.eqb_spec a b)
  end; try lia; try (subst p0; lia).
  all: intuition lia.
Qed.

Ltac eval_closed t := let v := eval vm_compute in t in change t with v.

Ltac decode_class X :=
  eval_closed (utf8.as_ <=? X); eval_closed (N.testbit X 0);
  eval_closed (N.land X 7); eval_closed (utf8.acceptRanges (N.shiftr X 4));
  cbv beta iota; cbn [fst snd];
  try eval_closed (2 <=? 2); try eval_closed (3 <=? 2); try eval_closed (3 <=? 3);
  try eval_closed (4 <=? 2); try eval_closed (4 <=? 3);
  cbv beta iota.

Lemma invalid_error : utf8.invalid (utf8.RuneError, 1%nat) = true.
Proof. reflexivity. Qed.

Lemma invalid_size r n : (2 <= n)%nat → utf8.invalid (r, n) = false.
Proof.
  intros. unfold utf8.invalid. cbn [fst snd].
  destruct n as [|[|n]]; try lia. cbn. apply andb_false_r.
Qed.

Ltac bad_branch :=
  let H := fresh in intros H; rewrite invalid_error in H; discriminate H.

Ltac range_check b lo hi :=
  destruct (N.ltb_spec b lo); [cbn [orb]; bad_branch|];
  destruct (N.ltb_spec hi b); [cbn [orb]; bad_branch|];
  cbn [orb]; cbv beta iota.

Ltac redo_check b lo hi :=
  destruct (N.ltb_spec b lo); [exfalso; lia|];
  destruct (N.ltb_spec hi b); [exfalso; lia|];
  cbn [orb]; cbv beta iota.

Ltac bytes_eq :=
  unfold utf8.byte; rewrite ?ascii_N_embedding; reflexivity.

Lemma decode_two c0 c1 p2 X :
  utf8.first (N_of_ascii c0) = X → X = utf8.s1 →
  0xC2 <= N_of_ascii c0 → N_of_ascii c0 < 0xE0 →
  utf8.invalid (utf8.DecodeRune (c0 :: c1 :: p2)) = false →
  ∃ r, encodes [c0; c1] r.
Proof.
  intros Hf -> Hlo Hhi. unfold utf8.DecodeRune at 1. cbv zeta. rewrite Hf.
  decode_class utf8.s1.
  range_check (N_of_ascii c1) 128 191. intros _.
  exists (rune2 (N_of_ascii c0) (N_of_ascii c1)). split.
  - rewrite encode_rune2 by assumption. bytes_eq.
  - intros t. cbn [app length]. unfold utf8.DecodeRune. cbv zeta. rewrite Hf.
    decode_class utf8.s1.
    redo_check (N_of_ascii c1) 128 191. rewrite dec2_arith. reflexivity.
Qed.

Lemma decode_three c0 c1 c2 p3 X lo hi :
  utf8.first (N_of_ascii c0) = X →
  N.land X 7 = 3 → (utf8.as_ <=? X) = false →
  utf8.acceptRanges (N.shiftr X 4) = (lo, hi) →
  0x80 <= lo → hi <= 0xBF →
  0xE0 <= N_of_ascii c0 → N_of_ascii c0 < 0xF0 →
  (N_of_ascii c0 = 0xE0 → 0xA0 <= lo) → (N_of_ascii c0 = 0xED → hi <= 0x9F) →
  utf8.invalid (utf8.DecodeRune (c0 :: c1 :: c2 :: p3)) = false →
  ∃ r, encodes [c0; c1; c2] r.
Proof.
  intros Hf Hsz Has Hacc Hlo Hhi H0 H0' HE0 HED.
  unfold utf8.DecodeRune at 1. cbv zeta. rewrite Hf, Hsz, Has, Hacc.
  cbv beta iota; cbn [fst snd].
  eval_closed (3 <=? 2); eval_closed (3 <=? 3); cbv beta iota.
  range_check (N_of_ascii c1) lo hi.
  range_check (N_of_ascii c2) utf8.locb utf8.hicb. intros _.
  unfold utf8.locb, utf8.hicb in *.
  exists (rune3 (N_of_ascii c0) (N_of_ascii c1) (N_of_ascii c2)). split.
  - rewrite encode_rune3 by lia. bytes_eq.
  - intros t. cbn [app length]. unfold utf8.DecodeRune. cbv zeta.
    rewrite Hf, Hsz, Has, Hacc. cbv beta iota; cbn [fst snd].
    eval_closed (3 <=? 2); eval_closed (3 <=? 3); cbv beta iota.
    redo_check (N_of_ascii c1) lo hi.
    unfold utf8.locb, utf8.hicb.
    redo_check (N_of_ascii c2) 128 191. rewrite dec3_arith. reflexivity.
Qed.

Lemma decode_four c0 c1 c2 c3 p4 X lo hi :
  utf8.first (N_of_ascii c0) = X →
  N.land X 7 = 4 → (utf8.as_ <=? X) = false →
  utf8.acceptRanges (N.shiftr X 4) = (lo, hi) →
  0x80 <= lo → hi <= 0xBF →
  0xF0 <= N_of_ascii c0 → N_of_ascii c0 <= 0xF4 →
  (N_of_ascii c0 = 0xF0 → 0x90 <= lo) → (N_of_ascii c0 = 0xF4 → hi <= 0x8F) →
  utf8.invalid (utf8.DecodeRune (c0 :: c1 :: c2 :: c3 :: p4)) = false →
  ∃ r, encodes [c0; c1; c2; c3] r.
Proof.
  intros Hf Hsz Has Hacc Hlo Hhi H0 H0' HF0 HF4.
  unfold utf8.DecodeRune at 1. cbv zeta. rewrite Hf, Hsz, Has, Hacc.
  cbv beta iota; cbn [fst snd].
  eval_closed (4 <=? 2); eval_closed (4 <=? 3); cbv beta iota.
  range_check (N_of_ascii c1) lo hi.
  range_check (N_of_ascii c2) utf8.locb utf8.hicb.
  range_check (N_of_ascii c3) utf8.locb utf8.hicb. intros _.
  unfold utf8.locb, utf8.hicb in *.
  exists (rune4 (N_of_ascii c0) (N_of_ascii c1) (N_of_ascii c2) (N_of_ascii c3)). split.
  - rewrite encode_rune4 by lia. bytes_eq.
  - intros t. cbn [app length]. unfold utf8.DecodeRune. cbv zeta.
    rewrite Hf, Hsz, Has, Hacc. cbv beta iota; cbn [fst snd].
    eval_closed (4 <=? 2); eval_closed (4 <=? 3); cbv beta iota.
    redo_check (N_of_ascii c1) lo hi.
    unfold utf8.locb, utf8.hicb.
    redo_check (N_of_ascii c2) 128 191.
    redo_check (N_of_ascii c3) 128 191. rewrite dec4_arith. reflexivity.
Qed.

Lemma DecodeRune_ascii c0 p1 :
  N_of_ascii c0 < 0x80 → utf8.DecodeRune (c0 :: p1) = (N_of_ascii c0, 1%nat).
Proof.
  intros H. unfold utf8.DecodeRune. cbv zeta.
  assert (utf8.first (N_of_ascii c0) = utf8.as_) as ->.
  { unfold utf8.first. destruct (N.ltb_spec (N_of_ascii c0) 128); [reflexivity | lia]. }
  reflexivity.
Qed.

Ltac short_input :=
  let H := fresh in
  intros H; exfalso; revert H; unfold utf8.DecodeRune; cbv zeta;
  match goal with Hf : utf8.first _ = _ |- _ => rewrite Hf end;
  vm_compute; discriminate.

Lemma DecodeRune_multibyte c0 p1 :
  0x80 <= N_of_ascii c0 →
  utf8.invalid (utf8.DecodeRune (c0 :: p1)) = false →
  ∃ bytes rest r,
    c0 :: p1 = bytes ++ rest ∧ (2 <= length bytes)%nat ∧ encodes bytes r.
Proof.
  intros Hge. pose proof (N_ascii_bounded c0) as Hb.
  destruct (first_cases _ Hb)
    as [[? Hf]|[[? Hf]|[(? & ? & Hf)|[[? Hf]|[(? & ? & ? & Hf)|[[? Hf]|[[? Hf]|[(? & ? & Hf)|[? Hf]]]]]]]]].
  - lia.
  - short_input.
  - destruct p1 as [|c1 p2]; [short_input|]. intros Hv.
    destruct (decode_two c0 c1 p2 _ Hf eq_refl) as [r Hr]; try assumption.
    exists [c0; c1], p2, r. cbn [length app]. split_and!; [reflexivity | lia | exact Hr].
  - destruct p1 as [|c1 [|c2 p3]]; [short_input| |].
    { intros Hv. exfalso. revert Hv. unfold utf8.DecodeRune. cbv zeta. rewrite Hf.
      decode_class utf8.s2. destruct (_ || _); vm_compute; discriminate. }
    intros Hv.
    destruct (decode_three c0 c1 c2 p3 _ 0xA0 0xBF Hf eq_refl eq_refl eq_refl) as [r Hr];
      try assumption; try lia.
    exists [c0; c1; c2], p3, r. cbn [length app]. split_and!; [reflexivity | lia | exact Hr].
  - destruct p1 as [|c1 [|c2 p3]]; [short_input| |].
    { intros Hv. exfalso. revert Hv. unfold utf8.DecodeRune. cbv zeta. rewrite Hf.
      decode_class utf8.s3. destruct (_ || _); vm_compute; discriminate. }
    intros Hv.
    destruct (decode_three c0 c1 c2 p3 _ 0x80 0xBF Hf eq_refl eq_refl eq_refl) as [r Hr];
      try assumption; try lia.
    exists [c0; c1; c2], p3, r. cbn [length app]. split_and!; [reflexivity | lia | exact Hr].
  - destruct p1 as [|c1 [|c2 p3]]; [short_input| |].
    { intros Hv. exfalso. revert Hv. unfold utf8.DecodeRune. cbv zeta. rewrite Hf.
      decode_class utf8.s4. destruct (_ || _); vm_compute; discriminate. }
    intros Hv.
    destruct (decode_three c0 c1 c2 p3 _ 0x80 0x9F Hf eq_refl eq_refl eq_refl) as [r Hr];
      try assumption; try lia.
    exists [c0; c1; c2], p3, r. cbn [length app]. split_and!; [reflexivity | lia | exact Hr].
  - destruct p1 as [|c1 [|c2 [|c3 p4]]]; [short_input| | |].
    1,2: intros Hv; exfalso; revert Hv; unfold utf8.DecodeRune; cbv zeta; rewrite Hf;
      decode_class utf8.s5; repeat (destruct (_ || _); [vm_compute; discriminate|]);
      vm_compute; discriminate.
    intros Hv.
    destruct (decode_four c0 c1 c2 c3 p4 _ 0x90 0xBF Hf eq_refl eq_refl eq_refl) as [r Hr];
      try assumption; try lia.
    exists [c0; c1; c2; c3], p4, r. cbn [length app].
    split_and!; [reflexivity | lia | exact Hr].
  - destruct p1 as [|c1 [|c2 [|c3 p4]]]; [short_input| | |].
    1,2: intros Hv; exfalso; revert Hv; unfold utf8.DecodeRune; cbv zeta; rewrite Hf;
      decode_class utf8.s6; repeat (destruct (_ || _); [vm_compute; discriminate|]);
      vm_compute; discriminate.
    intros Hv.
    destruct (decode_four c0 c1 c2 c3 p4 _ 0x80 0xBF Hf eq_refl eq_refl eq_refl) as [r Hr];
      try assumption; try lia.
    exists [c0; c1; c2; c3], p4, r. cbn [length app].
    split_and!; [reflexivity | lia | exact Hr].
  - destruct p1 as [|c1 [|c2 [|c3 p4]]]; [short_input| | |].
    1,2: intros Hv; exfalso; revert Hv; unfold utf8.DecodeRune; cbv zeta; rewrite Hf;
      decode_class utf8.s7; repeat (destruct (_ || _); [vm_compute; discriminate|]);
      vm_compute; discriminate.
    intros Hv.
    destruct (decode_four c0 c1 c2 c3 p4 _ 0x80 0x8F Hf eq_refl eq_refl eq_refl) as [r Hr];
      try assumption; try lia.
    exists [c0; c1; c2; c3], p4, r. cbn [length app].
    split_and!; [reflexivity | lia | exact Hr].
Qed.

(** Skipping [k] bytes is dropping them. *)
Lemma quote_from_skip k s : json.quote_from k s = json.quote_from 0 (drop k s).
Proof.
  revert k; induction s as [|c s IH]; intros [|k]; try reflexivity.
  cbn [json.quote_from drop]. apply IH.
Qed.

Lemma coerce_from_skip k s : utf8.coerce_from k s = utf8.coerce_from 0 (drop k s).
Proof.
  revert k; induction s as [|c s IH]; intros [|k]; try reflexivity.
  cbn [utf8.coerce_from drop]. apply IH.
Qed.

Lemma valid_from_skip k s : utf8.valid_from k s = utf8.valid_from 0 (drop k s).
Proof.
  revert k; induction s as [|c s IH]; intros [|k]; try reflexivity.
  cbn [utf8.valid_from drop]. apply IH.
Qed.

Lemma unquote_from_skip k s : json.unquote_from k s = json.unquote_from 0 (drop k s).
Proof.
  revert k; induction s as [|c s IH]; intros [|k]; try reflexivity.
  cbn [json.unquote_from drop]. apply IH.
Qed.

Lemma unquote_from_app bytes Y :
  json.unquote_from (length bytes) (bytes ++ Y) = json.unquote_from 0 Y.
Proof. rewrite unquote_from_skip, drop_app_length. reflexivity. Qed.

Lemma unquote_from_step c rest :
  json.unquote_from 0 (c :: rest) =
  match json.unquote_step (c :: rest) with
  | json.StepEnd => Some ([], rest)
  | json.StepFail => None
  | json.StepEmit out size => prepend out (json.unquote_from 0 (drop (size - 1) rest))
  end.
Proof.
  cbn [json.unquote_from]. destruct (json.unquote_step (c :: rest)); try reflexivity.
  rewrite unquote_from_skip. reflexivity.
Qed.

Ltac eval_step :=
  match goal with
  | |- context [json.unquote_step ?s] =>
    let v := eval vm_compute in (json.unquote_step s) in
    change (json.unquote_step s) with v
  end.

(** An ASCII byte, escaped or not, is read back as itself. *)
Lemma unquote_ascii c X :
  N_of_ascii c < 0x80 →
  json.unquote_from 0
    ((if json.htmlSafeSet (N_of_ascii c) then [c] else json.escape_ascii (N_of_ascii c)) ++ X)
  = prepend [c] (json.unquote_from 0 X).
Proof.
  destruct c as [[] [] [] [] [] [] [] []]; intros H;
    try (exfalso; revert H; vm_compute; discriminate).
  all: match goal with
       | |- json.unquote_from 0 (?pre ++ _) = _ =>
         let v := eval vm_compute in pre in change pre with v
       end; cbn [app]; rewrite unquote_from_step; eval_step;
       cbn [skipn Nat.sub]; reflexivity.
Qed.

Lemma quote_from_step c rest :
  json.quote_from 0 (c :: rest) =
  (json.quote_step (c :: rest)).1
  ++ json.quote_from 0 (drop ((json.quote_step (c :: rest)).2 - 1) rest).
Proof. cbn [json.quote_from]. rewrite quote_from_skip. reflexivity. Qed.

Lemma coerce_from_step c rest :
  utf8.coerce_from 0 (c :: rest) =
  let d := utf8.DecodeRune (c :: rest) in
  if utf8.invalid d then utf8.EncodeRune utf8.RuneError ++ utf8.coerce_from 0 rest
  else take d.2 (c :: rest) ++ utf8.coerce_from 0 (drop (d.2 - 1) rest).
Proof.
  cbn [utf8.coerce_from]. cbv zeta.
  destruct (utf8.invalid _); [reflexivity|].
  rewrite coerce_from_skip. reflexivity.
Qed.

Lemma valid_from_step c rest :
  utf8.valid_from 0 (c :: rest) =
  let d := utf8.DecodeRune (c :: rest) in
  if utf8.invalid d then false else utf8.valid_from 0 (drop (d.2 - 1) rest).
Proof.
  cbn [utf8.valid_from]. cbv zeta.
  destruct (utf8.invalid _); [reflexivity|].
  rewrite valid_from_skip. reflexivity.
Qed.

Lemma invalid_ascii b : b < 0x80 → utf8.invalid (b, 1%nat) = false.
Proof.
  intros H. unfold utf8.invalid. cbn [fst snd].
  destruct (N.eqb_spec b utf8.RuneError) as [->|]; [|reflexivity].
  exfalso. revert H. vm_compute. discriminate.
Qed.

(** What follows a multi-byte rune, from the decomposition of
    [DecodeRune_multibyte]. *)
Lemma drop_rune (c : ascii) rest bytes rest' :
  c :: rest = bytes ++ rest' → (2 <= length bytes)%nat →
  drop (length bytes - 1) rest = rest'.
Proof.
  intros E Hl. destruct bytes as [|c' bytes]; [cbn in Hl; lia|].
  cbn [app] in E. injection E as -> ->.
  cbn [length]. replace (S (length bytes) - 1)%nat with (length bytes) by lia.
  apply drop_app_length.
Qed.

Lemma quote_step_ascii c rest :
  N_of_ascii c < 0x80 →
  json.quote_step (c :: rest) =
  ((if json.htmlSafeSet (N_of_ascii c) then [c] else json.escape_ascii (N_of_ascii c)), 1%nat).
Proof.
  intros H. unfold json.quote_step. cbv zeta. unfold utf8.RuneSelf.
  destruct (N.ltb_spec (N_of_ascii c) 128); [reflexivity | lia].
Qed.

Lemma quote_step_multibyte c rest :
  0x80 <= N_of_ascii c →
  json.quote_step (c :: rest) =
  let d := utf8.DecodeRune (c :: rest) in
  if utf8.invalid d then
    ([json.c_backslash; "u"%char; "f"%char; "f"%char; "f"%char; "d"%char], 1%nat)
  else if (d.1 =? 0x2028) || (d.1 =? 0x2029) then
    ([json.c_backslash; "u"%char; "2"%char; "0"%char; "2"%char;
      json.hex (N.land d.1 0xF)], d.2)
  else (take d.2 (c :: rest), d.2).
Proof.
  intros H. unfold json.quote_step. cbv zeta. unfold utf8.RuneSelf.
  destruct (N.ltb_spec (N_of_ascii c) 128); [lia | reflexivity].
Qed.

Lemma unquote_step_multibyte c rest :
  0x80 <= N_of_ascii c →
  json.unquote_step (c :: rest) =
  json.StepEmit (utf8.EncodeRune (utf8.DecodeRune (c :: rest)).1)
                (utf8.DecodeRune (c :: rest)).2.
Proof.
  intros H. unfold json.unquote_step. cbv zeta. unfold utf8.RuneSelf.
  destruct (N.eqb_spec (N_of_ascii c) 34); [lia|].
  destruct (N.eqb_spec (N_of_ascii c) 92); [lia|].
  destruct (N.ltb_spec (N_of_ascii c) 32); [lia|].
  destruct (N.ltb_spec (N_of_ascii c) 128); [lia | reflexivity].
Qed.

Lemma unquote_replacement X :
  json.unquote_from 0
    ([json.c_backslash; "u"%char; "f"%char; "f"%char; "f"%char; "d"%char] ++ X)
  = prepend (utf8.EncodeRune utf8.RuneError) (json.unquote_from 0 X).
Proof.
  cbn [app]. unfold json.c_backslash. rewrite unquote_from_step. eval_step.
  cbn [skipn Nat.sub]. reflexivity.
Qed.

Lemma unquote_separator r X :
  r = 0x2028 ∨ r = 0x2029 →
  json.unquote_from 0
    ([json.c_backslash; "u"%char; "2"%char; "0"%char; "2"%char;
      json.hex (N.land r 0xF)] ++ X)
  = prepend (utf8.EncodeRune r) (json.unquote_from 0 X).
Proof.
  intros [-> | ->]; cbn [app]; unfold json.c_backslash;
    match goal with |- context [json.hex ?a] =>
      let v := eval vm_compute in (json.hex a) in change (json.hex a) with v end;
    rewrite unquote_from_step; eval_step; cbn [skipn Nat.sub]; reflexivity.
Qed.

Lemma unquote_end tail :
  json.unquote_from 0 (json.c_quote :: tail) = Some ([], tail).
Proof. rewrite unquote_from_step. reflexivity. Qed.

(** Reading back what [appendString] wrote between the quotes yields the
    coerced string. *)
Lemma unquote_quote_len n : ∀ s tail,
  (length s <= n)%nat →
  json.unquote_from 0 (json.quote_from 0 s ++ json.c_quote :: tail)
  = Some (utf8.coerce_from 0 s, tail).
Proof.
  induction n as [|n IH]; intros s tail Hn.
  { destruct s; [|cbn in Hn; lia]. apply unquote_end. }
  destruct s as [|c rest]; [apply unquote_end|].
  cbn [length] in Hn.
  rewrite quote_from_step, coerce_from_step. cbv zeta.
  destruct (N.ltb_spec (N_of_ascii c) 0x80) as [Hlt|Hge].
  - rewrite quote_step_ascii, DecodeRune_ascii by assumption.
    rewrite invalid_ascii by assumption. cbn [fst snd Nat.sub firstn skipn].
    rewrite <- app_assoc, unquote_ascii by assumption.
    rewrite ?skipn_O, ?firstn_O. rewrite IH by lia. reflexivity.
  - rewrite quote_step_multibyte by assumption. cbv zeta.
    destruct (utf8.invalid (utf8.DecodeRune (c :: rest))) eqn:Hinv.
    + cbn [fst snd Nat.sub]. rewrite skipn_O, <- app_assoc, unquote_replacement.
      rewrite IH by lia. reflexivity.
    + destruct (DecodeRune_multibyte c rest Hge Hinv)
        as (bytes & rest' & r & Hsplit & Hlen & Henc & Hdec).
      pose proof (Hdec rest') as Hd. rewrite <- Hsplit in Hd. rewrite Hd.
      cbn [fst snd].
      rewrite (drop_rune c rest bytes rest' Hsplit Hlen).
      assert (take (length bytes) (c :: rest) = bytes) as Htake
        by (rewrite Hsplit; apply take_app_length).
      assert (length rest' <= n)%nat as Hrest.
      { apply (f_equal length) in Hsplit. rewrite length_app in Hsplit.
        cbn [length] in Hsplit. lia. }
      rewrite Htake.
      destruct ((r =? 0x2028) || (r =? 0x2029)) eqn:Hsep; cbn [fst snd];
        rewrite (drop_rune c rest bytes rest' Hsplit Hlen).
      * rewrite <- app_assoc, unquote_separator.
        2:{ apply orb_true_iff in Hsep as [H|H]; apply N.eqb_eq in H; auto. }
        rewrite IH by assumption. cbn [prepend]. rewrite Henc. reflexivity.
      * rewrite <- app_assoc.
        destruct bytes as [|c' bytes']; [cbn in Hlen; lia|].
        assert (c' = c) as -> by (cbn [app] in Hsplit; congruence).
        cbn [app]. rewrite unquote_from_step.
        rewrite unquote_step_multibyte by assumption.
        change (c :: bytes' ++ json.quote_from 0 rest' ++ json.c_quote :: tail)
          with ((c :: bytes') ++ json.quote_from 0 rest' ++ json.c_quote :: tail).
        rewrite Hdec. cbn [fst snd length]. rewrite Henc.
        replace (S (length bytes') - 1)%nat with (length bytes') by lia.
        rewrite drop_app_length. rewrite IH by assumption. reflexivity.
Qed.

Lemma unquote_quote s tail :
  json.unquote_from 0 (json.quote_from 0 s ++ json.c_quote :: tail)
  = Some (utf8.coerce_from 0 s, tail).
Proof. apply (unquote_quote_len (length s)). lia. Qed.

(** A valid string is its own coercion. *)
Lemma coerce_valid_len n : ∀ s,
  (length s <= n)%nat → utf8.valid_from 0 s = true → utf8.coerce_from 0 s = s.
Proof.
  induction n as [|n IH]; intros s Hn Hv.
  { destruct s; [reflexivity | cbn in Hn; lia]. }
  destruct s as [|c rest]; [reflexivity|]. cbn [length] in Hn.
  rewrite valid_from_step in Hv. rewrite coerce_from_step. cbv zeta in *.
  destruct (utf8.invalid (utf8.DecodeRune (c :: rest))) eqn:Hinv; [discriminate|].
  destruct (N.ltb_spec (N_of_ascii c) 0x80) as [Hlt|Hge].
  - rewrite DecodeRune_ascii in * by assumption. cbn [fst snd Nat.sub firstn] in *.
    rewrite skipn_O in *. rewrite firstn_O. rewrite IH by (trivial; lia). reflexivity.
  - destruct (DecodeRune_multibyte c rest Hge Hinv)
      as (bytes & rest' & r & Hsplit & Hlen & Henc & Hdec).
    pose proof (Hdec rest') as Hd. rewrite <- Hsplit in Hd. rewrite Hd in *.
    cbn [fst snd] in *.
    rewrite (drop_rune c rest bytes rest' Hsplit Hlen) in *.
    rewrite IH; trivial.
    + rewrite Hsplit at 1. rewrite take_app_length. symmetry. exact Hsplit.
    + apply (f_equal length) in Hsplit. rewrite length_app in Hsplit.
      cbn [length] in Hsplit. lia.
Qed.

Lemma coerce_valid s : utf8.valid_from 0 s = true → utf8.coerce_from 0 s = s.
Proof. apply (coerce_valid_len (length s)). lia. Qed.

(** *** Arrays *)

Lemma element_appendString x tail :
  json.element (json.appendString x ++ tail) = Some (utf8.coerced x, tail).
Proof.
  unfold json.appendString, json.element. cbn [app].
  change (N_of_ascii json.c_quote =? 34) with true. cbv iota.
  rewrite <- app_assoc. cbn [app]. rewrite unquote_quote. reflexivity.
Qed.

Lemma skip_space_appendString x tail :
  json.skip_space (json.appendString x ++ tail) = json.appendString x ++ tail.
Proof. reflexivity. Qed.

Lemma encode_elems_cons x y l :
  json.encode_elems (x :: y :: l)
  = json.appendString x ++ ","%char :: json.encode_elems (y :: l).
Proof. reflexivity. Qed.

Lemma elements_encode l : ∀ x fuel tail,
  (length l < fuel)%nat →
  json.elements fuel (json.encode_elems (x :: l) ++ "]"%char :: tail)
  = Some (map utf8.coerced (x :: l), tail).
Proof.
  induction l as [|y l IH]; intros x fuel tail Hf;
    (destruct fuel as [|fuel]; [lia|]).
  - cbn [json.elements json.encode_elems].
    rewrite skip_space_appendString, element_appendString. reflexivity.
  - rewrite encode_elems_cons. cbn [json.elements].
    rewrite <- app_assoc. cbn [app].
    rewrite skip_space_appendString, element_appendString.
    cbn [json.skip_space]. change (json.isSpace ","%char) with false. cbv iota.
    change (N_of_ascii ","%char =? 44) with true. cbv iota.
    rewrite IH by (cbn [length] in Hf; lia). reflexivity.
Qed.

Lemma encode_elems_length l x : (length l < length (json.encode_elems (x :: l)))%nat.
Proof.
  revert x; induction l as [|y l IH]; intros x.
  - cbn. lia.
  - rewrite encode_elems_cons, length_app. cbn [length].
    specialize (IH y). lia.
Qed.

Lemma decode_encode_list l :
  json.decode ("["%char :: json.encode_elems l ++ ["]"%char])
  = Some (mk_slice (map utf8.coerced l)).
Proof.
  destruct l as [|x l]; [reflexivity|].
  unfold json.decode. cbn [json.skip_space]. change (json.isSpace "["%char) with false.
  cbv iota. change (N_of_ascii "["%char =? 91) with true. cbv iota.
  assert (json.skip_space (json.encode_elems (x :: l) ++ ["]"%char])
          = json.c_quote :: tl (json.encode_elems (x :: l) ++ ["]"%char])) as ->.
  { destruct l; reflexivity. }
  change (N_of_ascii json.c_quote =? 93) with false. cbv iota.
  rewrite elements_encode.
  - reflexivity.
  - rewrite length_app. pose proof (encode_elems_length l x). lia.
Qed.

(** [Unmarshal] after [Marshal]: the same slice, each string coerced to
    valid UTF-8; [nil] stays [nil]. *)
Lemma Unmarshal_Marshal v :
  json.Unmarshal (json.Marshal v) = Some (slice_map utf8.coerced v).
Proof.
  destruct v as [|l]; [reflexivity|].
  unfold json.Unmarshal, json.Marshal.
  rewrite list_ascii_of_string_of_list_ascii. apply decode_encode_list.
Qed.

Lemma coerced_valid x : utf8.ValidString x = true → utf8.coerced x = x.
Proof.
  unfold utf8.ValidString, utf8.coerced. intros H.
  rewrite coerce_valid by assumption. apply string_of_list_ascii_of_string.
Qed.

Lemma slice_map_coerced_valid v : spec.valid_tags v → slice_map utf8.coerced v = v.
Proof.
  destruct v as [|l]; [reflexivity|]. unfold spec.valid_tags. cbn [elems slice_map].
  intros H. f_equal. induction H as [|x l Hx Hl IH]; [reflexivity|].
  cbn [map]. rewrite coerced_valid, IH by assumption. reflexivity.
Qed.

Lemma Marshal_nonempty v : String.eqb (json.Marshal v) "" = false.
Proof. destruct v; reflexivity. Qed.

(** *** The fuel of [elements] never runs out

    Every element consumes at least one byte, so the length of the input
    bounds the number of elements: more fuel changes nothing. *)

Lemma unquote_from_shorter s : ∀ k t r,
  json.unquote_from k s = Some (t, r) → (length r < length s)%nat.
Proof.
  induction s as [|c rest IH]; intros k t r H; [discriminate|].
  cbn [json.unquote_from] in H. cbn [length]. destruct k as [|k].
  - destruct (json.unquote_step (c :: rest)) as [| |out size].
    + injection H as _ <-. lia.
    + discriminate.
    + destruct (json.unquote_from (size - 1) rest) as [[t' r']|] eqn:E; [|discriminate].
      injection H as _ <-. apply IH in E. lia.
  - apply IH in H. lia.
Qed.

Lemma skip_space_length s : (length (json.skip_space s) <= length s)%nat.
Proof.
  induction s as [|c s IH]; [reflexivity|]. cbn [json.skip_space].
  destruct (json.isSpace c); cbn [length]; lia.
Qed.

Lemma element_shorter s x r :
  json.element s = Some (x, r) → (length r < length s)%nat.
Proof.
  unfold json.element. destruct s as [|c rest]; [discriminate|].
  destruct (N_of_ascii c =? 34).
  - destruct (json.unquote_from 0 rest) as [[t r']|] eqn:E; [|discriminate].
    intros H; injection H as _ <-. apply unquote_from_shorter in E. cbn [length]. lia.
  - destruct (json.is_null_literal (c :: rest)) eqn:E; [|discriminate].
    intros H; injection H as _ <-.
    destruct rest as [|c1 [|c2 [|c3 rest]]]; try (cbn in E; discriminate E).
    cbn [skipn length]. rewrite skipn_O. lia.
Qed.

Lemma elements_fuel fuel : ∀ s k,
  (length s <= fuel)%nat → json.elements (fuel + k) s = json.elements fuel s.
Proof.
  induction fuel as [|fuel IH]; intros s k Hl.
  - destruct s; [|cbn in Hl; lia]. destruct k; reflexivity.
  - cbn [Nat.add json.elements].
    destruct (json.element (json.skip_space s)) as [[x rest]|] eqn:E; [|reflexivity].
    destruct (json.skip_space rest) as [|c rest'] eqn:E'; [reflexivity|].
    destruct (N_of_ascii c =? 44); [|reflexivity].
    rewrite IH; [reflexivity|].
    apply element_shorter in E. pose proof (skip_space_length s).
    pose proof (skip_space_length rest) as H'. rewrite E' in H'. cbn [length] in H'. lia.
Qed.

End json_facts.

(** ** The repository *)

Lemma add_field_recognized st field v :
  spec.no_panic field v = true → spec.recognized field = true →
  add_field st field v = Some (push st field (spec.arg_for (field, v))).
Proof.
  unfold spec.no_panic, spec.recognized, add_field, spec.arg_for. cbn [fst snd].
  destruct (is_text_field field) eqn:Et.
  - destruct (String.eqb_spec field "tags") as [->|Hne]; [discriminate Et|].
    destruct v; reflexivity.
  - cbn [orb]. intros Hf Hr. rewrite Hr in *. apply String.eqb_eq in Hr as ->.
    destruct v; [discriminate | reflexivity].
Qed.

Lemma fits_no_panic field v : spec.fits field v = true → spec.no_panic field v = true.
Proof.
  unfold spec.fits, spec.no_panic.
  destruct (is_text_field field) eqn:Et.
  - destruct (String.eqb_spec field "tags") as [->|Hne]; [discriminate Et | reflexivity].
  - destruct (String.eqb field "tags"), v; trivial.
Qed.

Lemma add_field_unrecognized st field v :
  spec.recognized field = false → add_field st field v = Some st.
Proof.
  unfold spec.recognized, add_field. intros H.
  apply orb_false_iff in H as [-> ->]. reflexivity.
Qed.

Lemma numbered_snoc k l kv :
  numbered k (l ++ [kv])
  = numbered k l ++ [{| column := kv.1; placeholder := k + length l |}].
Proof.
  unfold numbered. rewrite imap_app. cbn [imap]. rewrite Nat.add_0_r. reflexivity.
Qed.

Lemma numbered_cons k l kv :
  numbered k (kv :: l) = {| column := kv.1; placeholder := k |} :: numbered (S k) l.
Proof.
  unfold numbered. cbn [imap]. rewrite Nat.add_0_r. f_equal.
  apply imap_ext. intros i x _. cbn. f_equal. lia.
Qed.

(** The loop of [Update] on well-typed entries: the recognized entries, in
    the order met, numbered from the current index. *)
Lemma range_updates_spec updates : ∀ st,
  Forall (λ kv, spec.no_panic kv.1 kv.2 = true) updates →
  range_updates updates st
  = Some {| setParts := setParts st ++ numbered (argIndex st) (recognized_entries updates);
            args := args st ++ map spec.arg_for (recognized_entries updates);
            argIndex := argIndex st + length (recognized_entries updates) |}.
Proof.
  induction updates as [|[field v] rest IH]; intros st Hfit.
  - cbn. rewrite !app_nil_r, Nat.add_0_r. destruct st; reflexivity.
  - inversion Hfit as [|? ? Hkv Hrest]; subst. cbn [fst snd] in Hkv.
    cbn [range_updates]. unfold recognized_entries. rewrite filter_cons. cbn [fst].
    destruct (decide (spec.recognized field)) as [Hr|Hr].
    + apply Is_true_true in Hr.
      rewrite add_field_recognized by assumption.
      rewrite IH by assumption. unfold push. cbn [setParts args argIndex].
      rewrite numbered_cons. cbn [map length fst]. rewrite <- !app_assoc. cbn [app].
      f_equal. f_equal. unfold recognized_entries. lia.
    + apply Is_true_false in Hr. rewrite add_field_unrecognized by assumption.
      apply IH. assumption.
Qed.

Lemma field_updates_range m updates :
  spec.field_updates m → spec.range_order m updates →
  Forall (λ kv, spec.fits kv.1 kv.2 = true) updates.
Proof.
  unfold spec.field_updates, spec.range_order. intros Hm Hp.
  apply map_Forall_to_list in Hm. rewrite Hp.
  eapply Forall_impl; [exact Hm|]. intros [k v]. trivial.
Qed.

Lemma fits_all_no_panic updates :
  Forall (λ kv, spec.fits kv.1 kv.2 = true) updates →
  Forall (λ kv, spec.no_panic kv.1 kv.2 = true) updates.
Proof. intros H. eapply Forall_impl; [exact H|]. intros kv. apply fits_no_panic. Qed.

Lemma numbered_length k l : length (numbered k l) = length l.
Proof. unfold numbered. apply length_imap. Qed.

Lemma numbered_lookup k l i kv :
  l !! i = Some kv →
  numbered k l !! i = Some {| column := kv.1; placeholder := k + i |}.
Proof. intros H. unfold numbered. rewrite list_lookup_imap, H. reflexivity. Qed.

Lemma numbered_placeholders k l : placeholder <$> numbered k l = seq k (length l).
Proof.
  revert k; induction l as [|kv l IH]; intros k; [reflexivity|].
  rewrite numbered_cons. cbn [fmap list_fmap length seq]. f_equal. apply IH.
Qed.

Lemma numbered_columns k l : column <$> numbered k l = l.*1.
Proof.
  revert k; induction l as [|kv l IH]; intros k; [reflexivity|].
  rewrite numbered_cons. cbn [fmap list_fmap]. f_equal. apply IH.
Qed.

Lemma update_statement_some st now id :
  setParts st ≠ [] →
  update_statement st now id
  = Some (setParts st ++ [{| column := "updated_at"; placeholder := argIndex st |}],
          S (argIndex st), (args st ++ [ArgTime now]) ++ [ArgString id]).
Proof.
  intros H. unfold update_statement.
  destruct (setParts st); [congruence | reflexivity].
Qed.

Lemma update_statement_none st now id :
  setParts st = [] → update_statement st now id = None.
Proof. intros H. unfold update_statement. rewrite H. reflexivity. Qed.

(** C8 — SET-clause parameter indices. For every field-updates mapping with
    at least one recognized field, whatever the order in which the range
    loop meets its entries: the [i]-th recognized field met is the [i]-th
    part of the SET clause, its placeholder is [$i] (counting from one) and
    the argument bound to that placeholder is the value of that field (the
    tags as their JSON text); the part after the [n] fields is
    [updated_at = $(n+1)] bound to the current time, and the WHERE clause
    uses [$(n+2)], bound to the id. The placeholders of the SET clause are
    exactly 1, ..., n+1 in this order. *)
Theorem Update_parameter_indices (m : gmap string value)
        (updates : list (string * value)) (now : Time) (id : string) :
  spec.field_updates m → spec.range_order m updates →
  recognized_entries updates ≠ [] →
  let fields := recognized_entries updates in
  let n := length fields in
  ∃ st sets where_ args,
    range_updates updates builder0 = Some st
    ∧ update_statement st now id = Some (sets, where_, args)
    ∧ length sets = S n ∧ length args = S (S n)
    ∧ (∀ i kv, fields !! i = Some kv →
         sets !! i = Some {| column := kv.1; placeholder := S i |}
         ∧ param args (S i) = Some (spec.arg_for kv))
    ∧ placeholder <$> sets = seq 1 (S n)
    ∧ column <$> sets = fields.*1 ++ ["updated_at"]
    ∧ sets !! n = Some {| column := "updated_at"; placeholder := S n |}
    ∧ param args (S n) = Some (ArgTime now)
    ∧ where_ = S (S n)
    ∧ param args where_ = Some (ArgString id).
Proof.
  intros Hm Hp Hne. cbv zeta.
  pose proof (field_updates_range m updates Hm Hp) as Hfit.
  pose proof (range_updates_spec updates builder0 (fits_all_no_panic _ Hfit)) as Hst.
  cbn [setParts args argIndex builder0 app] in Hst.
  remember (recognized_entries updates) as fields eqn:Ef.
  remember (length fields) as n eqn:En.
  eexists _, _, _, _. split; [exact Hst|].
  split.
  { apply update_statement_some. cbn [setParts]. intros E.
    apply (f_equal length) in E. rewrite numbered_length in E.
    destruct fields; [congruence | discriminate]. }
  cbn [setParts args argIndex].
  assert (length (map spec.arg_for fields) = n) as Hla by (subst n; apply length_map).
  assert (length (numbered 1 fields) = n) as Hls by (subst n; apply numbered_length).
  split_and!.
  - rewrite length_app, Hls. cbn. lia.
  - rewrite !length_app, Hla. cbn. lia.
  - intros i kv Hi. pose proof (lookup_lt_Some _ _ _ Hi) as Hlt. rewrite <- En in Hlt.
    split.
    + rewrite lookup_app_l by (rewrite Hls; exact Hlt).
      apply (numbered_lookup 1). exact Hi.
    + cbn [param]. rewrite <- app_assoc.
      rewrite lookup_app_l by (rewrite Hla; exact Hlt).
      rewrite list_lookup_fmap, Hi. reflexivity.
  - rewrite fmap_app, numbered_placeholders, <- En. cbn [fmap list_fmap placeholder].
    change (1 + n)%nat with (S n).
    rewrite (seq_S n 1). reflexivity.
  - rewrite fmap_app, numbered_columns. reflexivity.
  - rewrite lookup_app_r by (rewrite Hls; lia).
    rewrite Hls, Nat.sub_diag. reflexivity.
  - cbn [param]. rewrite <- app_assoc.
    rewrite lookup_app_r by (rewrite Hla; lia). rewrite Hla, Nat.sub_diag. reflexivity.
  - reflexivity.
  - cbn [param]. change (1 + n)%nat with (S n).
    rewrite lookup_app_r by (rewrite length_app, Hla; cbn; lia).
    rewrite length_app, Hla. cbn [length]. replace (S n - (n + 1))%nat with 0%nat by lia.
    reflexivity.
Qed.

Lemma recognized_entries_none updates :
  Forall (λ kv, ¬ spec.recognized kv.1) updates → recognized_entries updates = [].
Proof.
  unfold recognized_entries. induction 1 as [|kv l Hkv Hl IH]; [reflexivity|].
  rewrite filter_cons_False by assumption. exact IH.
Qed.

Lemma range_updates_unrecognized updates : ∀ st,
  recognized_entries updates = [] → range_updates updates st = Some st.
Proof.
  induction updates as [|[field v] rest IH]; intros st H; [reflexivity|].
  unfold recognized_entries in H. rewrite filter_cons in H. cbn [fst] in H.
  destruct (decide (spec.recognized field)) as [Hr|Hr]; [discriminate|].
  apply Is_true_false in Hr. cbn [range_updates].
  rewrite add_field_unrecognized by assumption. apply IH. exact H.
Qed.

(** Nothing recognized: [Update] is [GetByID]. *)
Lemma Update_unrecognized db id updates now :
  recognized_entries updates = [] →
  Update db id updates now = (GetByID db id, db).
Proof.
  intros H. unfold Update. rewrite range_updates_unrecognized by assumption.
  reflexivity.
Qed.

Lemma GetByID_missing db id :
  tickets db !! id = None → GetByID db id = Err (ErrNotFound id).
Proof. intros H. unfold GetByID, select_by_id. rewrite H. reflexivity. Qed.

Lemma arg_for_accepted kv :
  spec.fits kv.1 kv.2 = true → spec.recognized kv.1 = true →
  driver_accepts (spec.arg_for kv) = true.
Proof.
  destruct kv as [field v]. unfold spec.fits, spec.recognized, spec.arg_for.
  cbn [fst snd]. destruct (is_text_field field); cbn [orb].
  - destruct v; [reflexivity | discriminate].
  - intros Hf Hr. rewrite Hr in *. destruct v; [discriminate | reflexivity].
Qed.

Lemma args_accepted updates :
  Forall (λ kv, spec.fits kv.1 kv.2 = true) updates →
  forallb driver_accepts (map spec.arg_for (recognized_entries updates)) = true.
Proof.
  intros H. apply forallb_forall. intros a Ha.
  apply in_map_iff in Ha as (kv & <- & Hin).
  apply list_elem_of_In, list_elem_of_filter in Hin as [Hr Hin].
  apply arg_for_accepted; [|apply Is_true_true; exact Hr].
  rewrite Forall_forall in H. apply H. exact Hin.
Qed.

(** The statement [Update] runs for well-typed entries of which at least one
    is recognized. *)
Lemma Update_statement_run db id updates now :
  Forall (λ kv, spec.no_panic kv.1 kv.2 = true) updates →
  recognized_entries updates ≠ [] →
  let fields := recognized_entries updates in
  let n := length fields in
  let sets := numbered 1 fields ++ [{| column := "updated_at"; placeholder := S n |}] in
  let args := (map spec.arg_for fields ++ [ArgTime now]) ++ [ArgString id] in
  Update db id updates now =
  match update_returning db sets (S (S n)) args with
  | (ErrNoRows, db') => (Err (ErrNotFound id), db')
  | (QueryError, db') => (Err (ErrFailed "update ticket"), db')
  | (OneRow id' r, db') =>
    match scan id' r with
    | None => (Err (ErrFailed "update ticket"), db')
    | Some (ticket, tagsJSON) => (unmarshal_tags ticket tagsJSON, db')
    end
  end.
Proof.
  intros Hfit Hne. cbv zeta. unfold Update.
  rewrite (range_updates_spec updates builder0 Hfit).
  cbn [setParts args argIndex builder0 app].
  rewrite update_statement_some.
  2:{ cbn [setParts]. intros E. apply (f_equal length) in E.
      rewrite numbered_length in E. destruct (recognized_entries updates); [congruence|discriminate]. }
  cbn [setParts args argIndex]. reflexivity.
Qed.

Lemma where_param (fields : list arg) now id :
  param ((fields ++ [ArgTime now]) ++ [ArgString id]) (S (S (length fields)))
  = Some (ArgString id).
Proof.
  cbn [param]. rewrite lookup_app_r by (rewrite length_app; cbn; lia).
  rewrite length_app. cbn [length].
  replace (S (length fields) - (length fields + 1))%nat with 0%nat by lia. reflexivity.
Qed.

Lemma forallb_args (fields : list arg) now id :
  forallb driver_accepts fields = true →
  forallb driver_accepts ((fields ++ [ArgTime now]) ++ [ArgString id]) = true.
Proof. intros H. rewrite !forallb_app, H. reflexivity. Qed.

(** A well-typed update of an id that has no row fails with the not-found
    error and leaves the store as it was. *)
Lemma Update_missing db id updates now :
  tickets db !! id = None →
  Forall (λ kv, spec.fits kv.1 kv.2 = true) updates →
  Update db id updates now = (Err (ErrNotFound id), db).
Proof.
  intros Hid Hfit.
  destruct (recognized_entries updates) as [|kv fields] eqn:E.
  - rewrite Update_unrecognized by assumption. rewrite GetByID_missing by assumption.
    reflexivity.
  - rewrite Update_statement_run by (auto using fits_all_no_panic; congruence). cbv zeta.
    unfold update_returning.
    rewrite forallb_args by (apply args_accepted; assumption). cbn [negb].
    rewrite <- (length_map spec.arg_for), where_param, Hid. reflexivity.
Qed.

(** ** The dispatcher *)

Lemma build_updates_typed req : spec.field_updates (server.build_updates req).
Proof.
  unfold spec.field_updates, server.build_updates.
  repeat match goal with
  | |- map_Forall _ (if ?b then _ else _) => destruct b
  | |- map_Forall _ (match ?x with _ => _ end) => destruct x
  | |- map_Forall _ (<[_ := _]> _) => apply map_Forall_insert_2; [reflexivity|]
  | |- map_Forall _ ∅ => apply map_Forall_empty
  end.
Qed.

Lemma build_updates_range req :
  Forall (λ kv, spec.fits kv.1 kv.2 = true) (map_to_list (server.build_updates req)).
Proof.
  apply (field_updates_range (server.build_updates req)).
  - apply build_updates_typed.
  - unfold spec.range_order. reflexivity.
Qed.

(** C4 — Not-found propagation and the Delete exception. For an id with no
    stored ticket: [GetByID] and [GetTicket] fail with the not-found error;
    [Update] with any field-updates mapping (non-empty or not, in any order
    of its entries) and [UpdateTicket] with any request fail with the
    not-found error and change nothing; [DeleteTicket] returns
    [Success: false] with a nil error and changes nothing. For an id with a
    stored ticket, [DeleteTicket] removes the row and returns
    [Success: true]. *)
Theorem not_found_and_delete (db : DB) (id : string) :
  (tickets db !! id = None →
     GetByID db id = Err (ErrNotFound id)
     ∧ server.GetTicket db id = Err (ErrNotFound id)
     ∧ (∀ m updates now,
          spec.field_updates m → spec.range_order m updates →
          Update db id updates now = (Err (ErrNotFound id), db))
     ∧ (∀ now req,
          ticketpb.update_Id req = id →
          server.UpdateTicket db now req = (Err (ErrNotFound id), db))
     ∧ Delete db id = (Some (ErrNotFound id), db)
     ∧ server.DeleteTicket db id = (Ok {| ticketpb.Success := false |}, db))
  ∧ (∀ r, tickets db !! id = Some r →
     Delete db id = (None, with_tickets db (delete id (tickets db)))
     ∧ server.DeleteTicket db id
       = (Ok {| ticketpb.Success := true |},
          with_tickets db (delete id (tickets db)))
     ∧ GetByID (with_tickets db (delete id (tickets db))) id
       = Err (ErrNotFound id)).
Proof.
  split.
  - intros Hid.
    assert (Delete db id = (Some (ErrNotFound id), db)) as HD.
    { unfold Delete, delete_by_id. rewrite Hid. reflexivity. }
    split_and!.
    + apply GetByID_missing; assumption.
    + unfold server.GetTicket. rewrite GetByID_missing by assumption. reflexivity.
    + intros m updates now Hm Hp. apply Update_missing; [assumption|].
      eapply field_updates_range; eassumption.
    + intros now req <-. unfold server.UpdateTicket.
      rewrite Update_missing; [reflexivity | assumption | apply build_updates_range].
    + exact HD.
    + unfold server.DeleteTicket. rewrite HD. reflexivity.
  - intros r Hid.
    assert (Delete db id = (None, with_tickets db (delete id (tickets db)))) as HD.
    { unfold Delete, delete_by_id. rewrite Hid. reflexivity. }
    split_and!.
    + exact HD.
    + unfold server.DeleteTicket. rewrite HD. reflexivity.
    + apply GetByID_missing. cbn [tickets with_tickets]. apply lookup_delete_eq.
Qed.

(** C6 — No-op update. [Update] with the empty field-updates mapping is
    [GetByID]: it returns what [GetByID] returns and leaves the store,
    [updated_at] included, as it was; so does [UpdateTicket] with a request
    that carries no field. *)
Theorem Update_empty_is_GetByID (db : DB) (id : string) (now : Time) :
  (∀ updates, spec.range_order ∅ updates →
     Update db id updates now = (GetByID db id, db))
  ∧ Update db id [] now = (GetByID db id, db)
  ∧ (∀ r, tickets db !! id = Some r →
       tickets (Update db id [] now).2 !! id = Some r).
Proof.
  split_and!.
  - intros updates Hp. unfold spec.range_order in Hp.
    rewrite map_to_list_empty in Hp. apply Permutation_nil_r in Hp. subst updates.
    reflexivity.
  - reflexivity.
  - intros r Hr. exact Hr.
Qed.

(** C10 — Unrecognized keys only. For a non-empty field-updates mapping none
    of whose keys is recognized, in any order of its entries, [Update] is
    the [Update] with the empty mapping: the result of [GetByID], the store
    unchanged. *)
Theorem Update_unrecognized_only (db : DB) (id : string)
        (m : gmap string value) (updates : list (string * value)) (now : Time) :
  m ≠ ∅ →
  (∀ field, field ∈ dom m →
     field ∉ ["title"; "description"; "status"; "priority"; "assignee_id"; "tags"]) →
  spec.range_order m updates →
  Update db id updates now = Update db id [] now
  ∧ Update db id updates now = (GetByID db id, db).
Proof.
  intros _ Hkeys Hp.
  assert (recognized_entries updates = []) as Hrec.
  { apply recognized_entries_none, Forall_forall.
    intros [field v] Hin Hr. cbn [fst] in Hr.
    assert (field ∈ dom m) as Hd.
    { apply elem_of_dom. exists v. apply elem_of_map_to_list.
      unfold spec.range_order in Hp. rewrite <- Hp. exact Hin. }
    apply (Hkeys field Hd).
    unfold spec.recognized, is_text_field in Hr.
    repeat (apply orb_prop_elim in Hr as [Hr|Hr]);
      apply Is_true_true, String.eqb_eq in Hr; subst field; set_solver. }
  rewrite (Update_unrecognized db id updates now Hrec). split; reflexivity.
Qed.

Lemma range_order_singleton field v updates :
  spec.range_order {[field := v]} updates → updates = [(field, v)].
Proof.
  unfold spec.range_order. rewrite map_to_list_singleton.
  intros H. apply Permutation_singleton_r in H. exact H.
Qed.

(** [Update] with the single entry [title]: the three outcomes. *)
Lemma Update_title_run db id r v now :
  tickets db !! id = Some r →
  Update db id [("title", v)] now =
  match v with
  | VStrings _ => (Err (ErrFailed "update ticket"), db)
  | VString s =>
    let r' := set_updated_at now (set_title s r) in
    if admits db id r' then
      (match scan id r' with
       | None => Err (ErrFailed "update ticket")
       | Some (ticket, tagsJSON) => unmarshal_tags ticket tagsJSON
       end, with_tickets db (<[id := r']> (tickets db)))
    else (Err (ErrFailed "update ticket"), db)
  end.
Proof.
  intros Hr. unfold Update.
  change (range_updates [("title", v)] builder0)
    with (Some (push builder0 "title" (arg_of_value v))).
  cbv beta iota.
  change (update_statement (push builder0 "title" (arg_of_value v)) now id)
    with (Some ([{| column := "title"; placeholder := 1 |};
                 {| column := "updated_at"; placeholder := 2 |}], 3%nat,
                [arg_of_value v; ArgTime now; ArgString id])).
  cbv beta iota. unfold update_returning. destruct v as [s|l]; [|reflexivity].
  cbn [arg_of_value forallb driver_accepts andb negb].
  change (param [ArgString s; ArgTime now; ArgString id] 3) with (Some (ArgString id)).
  cbv beta iota. rewrite Hr.
  change (assign_all _ _ r) with (Some (set_updated_at now (set_title s r))).
  cbv beta iota zeta.
  destruct (admits db id _); [destruct (scan _ _) as [[? ?]|]|]; reflexivity.
Qed.

(** C1 — Partial update isolation. For a stored ticket and an [Update]
    whose field-updates mapping has the single key [title]: the stored row
    after the call has the description, status, priority, assignee_id, tags,
    reporter_id and created_at of the row before it, under the same id, and
    every other row is untouched; when the call returns a ticket, its title
    is the new title, its updated_at is the time of the call, and all its
    other fields are those [GetByID] returned before the call; and when the
    new title is a string the store accepts, the stored row is the old row
    with the new title and the new updated_at. *)
Theorem Update_title_isolation (db : DB) (id : string) (r : Row) (v : value)
        (updates : list (string * value)) (now : Time) :
  tickets db !! id = Some r →
  spec.range_order {["title" := v]} updates →
  ∃ r',
    tickets (Update db id updates now).2 !! id = Some r'
    ∧ description r' = description r ∧ status r' = status r
    ∧ priority r' = priority r ∧ assignee_id r' = assignee_id r
    ∧ tags r' = tags r ∧ reporter_id r' = reporter_id r
    ∧ created_at r' = created_at r
    ∧ (∀ id', id' ≠ id →
         tickets (Update db id updates now).2 !! id' = tickets db !! id')
    ∧ (∀ t', (Update db id updates now).1 = Ok t' →
         v = VString (Title t') ∧ title r' = Title t'
         ∧ updated_at r' = now ∧ UpdatedAt t' = now
         ∧ ∃ t, GetByID db id = Ok t
             ∧ ID t' = ID t ∧ Description t' = Description t
             ∧ Status t' = Status t ∧ Priority t' = Priority t
             ∧ AssigneeID t' = AssigneeID t ∧ Tags t' = Tags t
             ∧ ReporterID t' = ReporterID t ∧ CreatedAt t' = CreatedAt t)
    ∧ (∀ s, v = VString s →
         admits db id (set_updated_at now (set_title s r)) = true →
         r' = set_updated_at now (set_title s r)).
Proof.
  intros Hr Hp. apply range_order_singleton in Hp as ->.
  rewrite (Update_title_run db id r v now Hr).
  destruct v as [s|l].
  - cbv zeta. destruct (admits db id (set_updated_at now (set_title s r))) eqn:Ha.
    + exists (set_updated_at now (set_title s r)). cbn [fst snd tickets with_tickets].
      split_and!; try reflexivity.
      * apply lookup_insert_eq.
      * intros id' Hne. apply lookup_insert_ne. congruence.
      * intros t' Ht'. unfold GetByID, select_by_id. rewrite Hr.
        unfold scan in *. cbn [tags set_updated_at set_title] in *.
        destruct (tags r) as [tagsJSON|]; [|discriminate].
        unfold unmarshal_tags in *.
        destruct (String.eqb tagsJSON "").
        { injection Ht' as <-. cbn. split_and!; try reflexivity.
          eexists. split; [reflexivity|]. cbn. split_and!; reflexivity. }
        destruct (json.Unmarshal tagsJSON) as [tv|]; [|discriminate].
        injection Ht' as <-. cbn. split_and!; try reflexivity.
        eexists. split; [reflexivity|]. cbn. split_and!; reflexivity.
      * intros s' E _. injection E as <-. reflexivity.
    + exists r. cbn [fst snd]. split_and!; try reflexivity; try assumption.
      * intros t' Ht'. discriminate.
      * intros s' E Ha'. injection E as <-. congruence.
  - exists r. cbn [fst snd]. split_and!; try reflexivity; try assumption.
    + intros t' Ht'. discriminate.
    + intros s' E. discriminate.
Qed.

(** [Create] succeeds exactly on a fresh id with a row the schema accepts,
    and then stores that row and returns its argument. *)
Lemma Create_ok db ticket created db' :
  Create db ticket = (Ok created, db') ↔
  tickets db !! ID ticket = None
  ∧ admits db (ID ticket) (row_of_ticket ticket) = true
  ∧ db' = with_tickets db (<[ID ticket := row_of_ticket ticket]> (tickets db))
  ∧ created = ticket.
Proof.
  unfold Create, insert. fold (row_of_ticket ticket).
  destruct (tickets db !! ID ticket) as [r|] eqn:Hl.
  { split; [discriminate | intros (? & _); discriminate]. }
  destruct (admits db (ID ticket) (row_of_ticket ticket)) eqn:Ha.
  - cbn [created_at updated_at row_of_ticket]. split.
    + intros H. injection H as <- <-. destruct ticket; split_and!; reflexivity.
    + intros (_ & _ & -> & ->). destruct ticket; reflexivity.
  - split; [discriminate | intros (_ & ? & _); discriminate].
Qed.

Lemma unmarshal_Marshal_tags t v :
  unmarshal_tags t (json.Marshal v) = Ok (with_Tags t (slice_map utf8.coerced v)).
Proof.
  unfold unmarshal_tags. rewrite Marshal_nonempty, Unmarshal_Marshal. reflexivity.
Qed.

(** C2, as amended — Tags round-trip. After a [Create] that succeeded,
    [GetByID] of the id returns a ticket whose tags are the created tags
    with every string coerced to valid UTF-8 (each byte that is not part of
    a valid encoding replaced by U+FFFD): the same number of tags in the
    same order, [nil] for [nil]; and when every tag is valid UTF-8, which
    includes the empty sequence, the tags returned are the tags created,
    element for element. *)
Theorem tags_round_trip (db : DB) (ticket created : Ticket) (db' : DB) :
  Create db ticket = (Ok created, db') →
  ∃ t', GetByID db' (ID ticket) = Ok t'
    ∧ Tags t' = slice_map utf8.coerced (Tags ticket)
    ∧ length (elems (Tags t')) = length (elems (Tags ticket))
    ∧ (spec.valid_tags (Tags ticket) → Tags t' = Tags ticket).
Proof.
  intros H. apply Create_ok in H as (Hfresh & Ha & -> & ->).
  unfold GetByID, select_by_id. cbn [tickets with_tickets].
  rewrite lookup_insert_eq. unfold scan. cbn [tags row_of_ticket].
  rewrite unmarshal_Marshal_tags. eexists. split; [reflexivity|].
  cbn [Tags with_Tags]. split_and!.
  - reflexivity.
  - destruct (Tags ticket) as [|l]; cbn [slice_map elems]; [reflexivity | apply length_map].
  - apply slice_map_coerced_valid.
Qed.

(** ** CreateTicket *)

Lemma CreateTicket_ok db id now1 now2 req resp db' :
  server.CreateTicket db id now1 now2 req = (Ok resp, db') ↔
  let ticket := server.new_dbTicket id now1 now2 req in
  tickets db !! id = None
  ∧ admits db id (row_of_ticket ticket) = true
  ∧ db' = with_tickets db (<[id := row_of_ticket ticket]> (tickets db))
  ∧ resp = server.dbTicketToProto ticket.
Proof.
  cbv zeta. unfold server.CreateTicket.
  destruct (Create db (server.new_dbTicket id now1 now2 req)) as [[created| |] db1] eqn:E.
  - apply Create_ok in E as (Hf & Ha & -> & ->). cbn [ID server.new_dbTicket] in *.
    split.
    + intros H. injection H as <- <-. split_and!; trivial.
    + intros (_ & _ & -> & ->). reflexivity.
  - split; [discriminate|]. intros (Hf & Ha & -> & ->). exfalso.
    assert (Create db (server.new_dbTicket id now1 now2 req)
            = (Ok (server.new_dbTicket id now1 now2 req),
               with_tickets db (<[id := row_of_ticket (server.new_dbTicket id now1 now2 req)]>
                                  (tickets db)))) as E'.
    { apply Create_ok. split_and!; trivial. }
    congruence.
  - split; [discriminate|]. intros (Hf & Ha & -> & ->). exfalso.
    assert (Create db (server.new_dbTicket id now1 now2 req)
            = (Ok (server.new_dbTicket id now1 now2 req),
               with_tickets db (<[id := row_of_ticket (server.new_dbTicket id now1 now2 req)]>
                                  (tickets db)))) as E'.
    { apply Create_ok. split_and!; trivial. }
    congruence.
Qed.

Lemma optional_value (s : string) :
  sql.Value (if negb (String.eqb s "")
             then {| sql.String_ := s; sql.Valid := true |} else sql.null)
  = spec.optional s.
Proof. destruct s; reflexivity. Qed.

Lemma convertPriorityFromProto_table p :
  server.convertPriorityFromProto p = spec.priority_string p.
Proof. destruct p; reflexivity. Qed.

(** C3 — Create normalization. For every [CreateTicket] request that
    creates a ticket: the stored status is OPEN and so is the status
    returned (the request has no say in it); the stored priority is the
    storage string of the requested priority, MEDIUM for the unspecified
    value and for every unknown number, and the priority returned is the
    wire value of that string; an empty description or assignee_id is stored
    as NULL and a non-empty one as itself. *)
Theorem CreateTicket_normalization (db : DB) (id : string) (now1 now2 : Time)
        (req : ticketpb.CreateTicketRequest) (resp : ticketpb.Ticket) (db' : DB) :
  server.CreateTicket db id now1 now2 req = (Ok resp, db') →
  ∃ row, tickets db' !! id = Some row
    ∧ status row = "OPEN"
    ∧ ticketpb.Status resp = ticketpb.TICKET_STATUS_OPEN
    ∧ priority row = spec.priority_string (ticketpb.create_Priority req)
    ∧ ticketpb.Priority resp
      = match ticketpb.create_Priority req with
        | ticketpb.TICKET_PRIORITY_LOW => ticketpb.TICKET_PRIORITY_LOW
        | ticketpb.TICKET_PRIORITY_HIGH => ticketpb.TICKET_PRIORITY_HIGH
        | ticketpb.TICKET_PRIORITY_CRITICAL => ticketpb.TICKET_PRIORITY_CRITICAL
        | _ => ticketpb.TICKET_PRIORITY_MEDIUM
        end
    ∧ description row = spec.optional (ticketpb.create_Description req)
    ∧ assignee_id row = spec.optional (ticketpb.create_AssigneeId req).
Proof.
  intros H. apply CreateTicket_ok in H as (Hf & Ha & -> & ->).
  eexists. split; [apply lookup_insert_eq|].
  cbn [row_of_ticket server.new_dbTicket status priority description assignee_id
       Status Priority Description AssigneeID server.dbTicketToProto
       ticketpb.Status ticketpb.Priority].
  rewrite !optional_value, convertPriorityFromProto_table.
  split_and!; try reflexivity.
  destruct (ticketpb.create_Priority req); reflexivity.
Qed.

(** C9, as amended — The title on create. For every [CreateTicket] request
    that creates a ticket, the stored title and the title returned are the
    title of the request, byte for byte: non-empty exactly when the request's
    title is non-empty. *)
Theorem CreateTicket_title_verbatim (db : DB) (id : string) (now1 now2 : Time)
        (req : ticketpb.CreateTicketRequest) (resp : ticketpb.Ticket) (db' : DB) :
  server.CreateTicket db id now1 now2 req = (Ok resp, db') →
  ∃ row, tickets db' !! id = Some row
    ∧ title row = ticketpb.create_Title req
    ∧ ticketpb.Title resp = ticketpb.create_Title req
    ∧ (title row ≠ "" ↔ ticketpb.create_Title req ≠ "").
Proof.
  intros H. apply CreateTicket_ok in H as (Hf & Ha & -> & ->).
  eexists. split; [apply lookup_insert_eq|].
  cbn [row_of_ticket server.new_dbTicket title Title server.dbTicketToProto ticketpb.Title].
  split_and!; reflexivity.
Qed.

(** ** GetByID *)

(** C7, as amended — What [GetByID] returns. For every stored ticket whose
    tags column holds a text [json.Unmarshal] accepts (or the empty text),
    [GetByID] returns the id, title, description, status, priority,
    assignee_id, created_at and updated_at of the row and the tags decoded
    from the column; the query does not select reporter_id, and the
    ReporterID of the ticket returned is the empty string. *)
Theorem GetByID_returns_stored (db : DB) (id : string) (r : Row)
        (tagsJSON : string) (v : slice string) :
  tickets db !! id = Some r →
  tags r = Some tagsJSON →
  (if String.eqb tagsJSON "" then v = nil_slice
   else json.Unmarshal tagsJSON = Some v) →
  GetByID db id =
  Ok {| ID := id;
        Title := title r;
        Description := sql.Scan (description r);
        Status := status r;
        Priority := priority r;
        AssigneeID := sql.Scan (assignee_id r);
        Tags := v;
        CreatedAt := created_at r;
        UpdatedAt := updated_at r;
        ReporterID := "" |}.
Proof.
  intros Hr Ht Hv. unfold GetByID, select_by_id, scan, unmarshal_tags.
  rewrite Hr, Ht. destruct (String.eqb tagsJSON "").
  - subst v. reflexivity.
  - rewrite Hv. reflexivity.
Qed.

(** ** List *)

#[local] Instance newer_first_total : Total newer_first.
Proof. intros a b. unfold newer_first. lia. Qed.

#[local] Instance newer_first_trans : Transitive newer_first.
Proof. intros a b c. unfold newer_first. lia. Qed.

Lemma unmarshal_tags_fields t js t' :
  unmarshal_tags t js = Ok t' →
  ID t' = ID t ∧ CreatedAt t' = CreatedAt t.
Proof.
  unfold unmarshal_tags. destruct (String.eqb js "").
  - intros H; injection H as <-. split; reflexivity.
  - destruct (json.Unmarshal js); [|discriminate].
    intros H; injection H as <-. split; reflexivity.
Qed.

Lemma row_ticket_fields row t :
  row_ticket row = Ok t → ID t = row.1 ∧ CreatedAt t = created_at row.2.
Proof.
  unfold row_ticket, scan. destruct (tags row.2); [|discriminate].
  intros H. apply unmarshal_tags_fields in H. exact H.
Qed.

Lemma list_rows_spec rows : ∀ acc ts,
  list_rows rows acc = Ok ts →
  ∃ ts', ts = acc ++ ts' ∧ Forall2 (λ row t, row_ticket row = Ok t) rows ts'.
Proof.
  induction rows as [|[id r] rows IH]; intros acc ts H; cbn [list_rows] in H.
  - injection H as <-. exists []. rewrite app_nil_r. split; [reflexivity | constructor].
  - destruct (scan id r) as [[ticket js]|] eqn:Es; [|discriminate].
    destruct (unmarshal_tags ticket js) as [t| |] eqn:Eu; try discriminate.
    apply IH in H as (ts' & -> & HF). exists (t :: ts').
    rewrite <- app_assoc. split; [reflexivity|]. constructor; [|exact HF].
    unfold row_ticket. cbn [fst snd]. rewrite Es. exact Eu.
Qed.

Lemma list_rows_total rows : ∀ acc,
  Forall (λ row, ∃ t, row_ticket row = Ok t) rows →
  ∃ ts, list_rows rows acc = Ok ts.
Proof.
  induction rows as [|[id r] rows IH]; intros acc H; cbn [list_rows].
  - eexists; reflexivity.
  - inversion H as [|? ? [t Ht] Hrest]; subst. unfold row_ticket in Ht.
    cbn [fst snd] in Ht. destruct (scan id r) as [[ticket js]|]; [|discriminate].
    rewrite Ht. apply IH. exact Hrest.
Qed.

Lemma StronglySorted_Forall2 {A B} (P : A → B → Prop) (R : relation A)
      (R' : relation B) l k :
  (∀ a b x y, P a x → P b y → R a b → R' x y) →
  Forall2 P l k → StronglySorted R l → StronglySorted R' k.
Proof.
  intros HR HF. induction HF as [|a x l k Hax HF IH]; intros HS; [constructor|].
  inversion HS as [|? ? HSl Hall]; subst. constructor; [apply IH; exact HSl|].
  clear IH HS HSl. induction HF as [|b y l k Hby HF IH]; [constructor|].
  inversion Hall; subst. constructor; [eapply HR; eauto | apply IH; assumption].
Qed.

Lemma page_limit_range page_size :
  (1 ≤ server.page_limit page_size ≤ 100)%Z.
Proof.
  unfold server.page_limit.
  destruct (Z.leb_spec page_size 0), (Z.ltb_spec 100 page_size); cbn [orb]; lia.
Qed.

Lemma select_page_limit db page_size :
  select_page db (server.page_limit page_size) server.page_offset
  = Some (page db page_size).
Proof.
  unfold select_page, server.page_offset, page.
  pose proof (page_limit_range page_size).
  destruct (Z.ltb_spec (server.page_limit page_size) 0); [lia|].
  cbn [orb Z.ltb Z.compare Z.to_nat]. rewrite skipn_O. reflexivity.
Qed.

Lemma ListTickets_ok db page_size ts :
  server.ListTickets db page_size = Ok ts →
  ∃ tickets, ts = map server.dbTicketToProto tickets
    ∧ Forall2 (λ row t, row_ticket row = Ok t) (page db page_size) tickets.
Proof.
  unfold server.ListTickets, List. rewrite select_page_limit.
  destruct (list_rows (page db page_size) []) as [tickets| |] eqn:E; try discriminate.
  intros H; injection H as <-.
  apply list_rows_spec in E as (ts' & -> & HF). exists ts'. split; [reflexivity | exact HF].
Qed.

Lemma sorted_all db :
  StronglySorted newer_first (merge_sort newer_first (map_to_list (tickets db))).
Proof. apply StronglySorted_merge_sort; apply _. Qed.

Lemma page_sorted db page_size : StronglySorted newer_first (page db page_size).
Proof.
  unfold page. pose proof (sorted_all db) as H.
  rewrite <- (take_drop (Z.to_nat (server.page_limit page_size))) in H.
  apply StronglySorted_app_1_l in H. exact H.
Qed.

Lemma page_length db page_size :
  length (page db page_size)
  = Nat.min (Z.to_nat (server.page_limit page_size)) (size (tickets db)).
Proof.
  unfold page. rewrite length_take. f_equal.
  rewrite merge_sort_Permutation. apply length_map_to_list.
Qed.

Lemma page_stored db page_size id r :
  (id, r) ∈ page db page_size → tickets db !! id = Some r.
Proof.
  unfold page. intros H. apply elem_of_map_to_list.
  rewrite <- (merge_sort_Permutation newer_first).
  eapply elem_of_sublist; [exact H | apply sublist_take].
Qed.

(** A stored row that is not on the page is not newer than any row on it. *)
Lemma page_newest db page_size id r row :
  tickets db !! id = Some r → (id, r) ∉ page db page_size →
  row ∈ page db page_size → (created_at r ≤ created_at row.2)%Z.
Proof.
  intros Hr Hout Hin. pose proof (sorted_all db) as HS.
  rewrite <- (take_drop (Z.to_nat (server.page_limit page_size))) in HS.
  assert ((id, r) ∈ merge_sort newer_first (map_to_list (tickets db))) as Hall.
  { rewrite merge_sort_Permutation. apply elem_of_map_to_list. exact Hr. }
  rewrite <- (take_drop (Z.to_nat (server.page_limit page_size))) in Hall.
  apply elem_of_app in Hall as [Hp|Hd]; [exfalso; apply Hout; exact Hp|].
  apply (StronglySorted_app_1_elem_of _ _ _ row (id, r) HS Hin Hd).
Qed.

Lemma proto_fields row t :
  row_ticket row = Ok t →
  ticketpb.Id (server.dbTicketToProto t) = row.1
  ∧ ticketpb.CreatedAt (server.dbTicketToProto t) = created_at row.2.
Proof. intros H. apply row_ticket_fields in H. exact H. Qed.

Lemma page_tickets_in rows tickets t :
  Forall2 (λ row t, row_ticket row = Ok t) rows tickets →
  t ∈ map server.dbTicketToProto tickets →
  ∃ row, row ∈ rows ∧ ticketpb.Id t = row.1 ∧ ticketpb.CreatedAt t = created_at row.2.
Proof.
  intros HF Ht. apply list_elem_of_fmap in Ht as (dt & -> & Hdt).
  apply list_elem_of_lookup in Hdt as [i Hi].
  destruct (Forall2_lookup_r _ _ _ _ _ HF Hi) as (row & Hrow & Hok).
  exists row. split; [eapply list_elem_of_lookup_2; eauto|]. apply proto_fields. exact Hok.
Qed.

Lemma page_rows_in rows tickets row :
  Forall2 (λ row t, row_ticket row = Ok t) rows tickets →
  row ∈ rows →
  ∃ t, t ∈ map server.dbTicketToProto tickets ∧ ticketpb.Id t = row.1.
Proof.
  intros HF Hrow. apply list_elem_of_lookup in Hrow as [i Hi].
  destruct (Forall2_lookup_l _ _ _ _ _ HF Hi) as (dt & Hdt & Hok).
  exists (server.dbTicketToProto dt). split.
  - apply list_elem_of_fmap. exists dt. split; [reflexivity|].
    eapply list_elem_of_lookup_2; eauto.
  - apply proto_fields. exact Hok.
Qed.

Lemma GetByID_row_ticket db id r t :
  tickets db !! id = Some r → GetByID db id = Ok t → ∃ t', row_ticket (id, r) = Ok t'.
Proof.
  unfold GetByID, select_by_id, row_ticket. cbn [fst snd]. intros ->.
  destruct (scan id r) as [[ticket js]|]; [|discriminate]. intros H. eauto.
Qed.

(** C5 — Pagination bound. The effective limit is 50 when the requested
    page size is at most 0 or more than 100 and the requested page size
    otherwise; the offset is 0. A list that [ListTickets] returns has at
    most that many tickets (exactly the smaller of the limit and the number
    of stored tickets), is ordered by created_at, newest first, consists of
    stored tickets, and no stored ticket left out is newer than one
    returned. With no stored ticket the result is the empty list and no
    error; and whenever every stored ticket can be read with [GetByID],
    [ListTickets] returns a list. *)
Theorem ListTickets_pagination (db : DB) (page_size : Z) :
  ((page_size ≤ 0 ∨ 100 < page_size)%Z → server.page_limit page_size = 50%Z)
  ∧ ((0 < page_size ≤ 100)%Z → server.page_limit page_size = page_size)
  ∧ server.page_offset = 0%Z
  ∧ (∀ ts, server.ListTickets db page_size = Ok ts →
       (length ts ≤ Z.to_nat (server.page_limit page_size))%nat
       ∧ length ts
         = Nat.min (Z.to_nat (server.page_limit page_size)) (size (tickets db))
       ∧ StronglySorted spec.newest_first ts
       ∧ (∀ t, t ∈ ts →
            ∃ r, tickets db !! ticketpb.Id t = Some r
              ∧ ticketpb.CreatedAt t = created_at r)
       ∧ (∀ id r, tickets db !! id = Some r →
            (∀ t, t ∈ ts → ticketpb.Id t ≠ id) →
            ∀ t, t ∈ ts → (created_at r ≤ ticketpb.CreatedAt t)%Z))
  ∧ (tickets db = ∅ → server.ListTickets db page_size = Ok [])
  ∧ ((∀ id r, tickets db !! id = Some r → ∃ t, GetByID db id = Ok t) →
     ∃ ts, server.ListTickets db page_size = Ok ts).
Proof.
  split_and!.
  - intros H. unfold server.page_limit.
    destruct (Z.leb_spec page_size 0), (Z.ltb_spec 100 page_size); cbn [orb]; lia.
  - intros H. unfold server.page_limit.
    destruct (Z.leb_spec page_size 0), (Z.ltb_spec 100 page_size); cbn [orb]; lia.
  - reflexivity.
  - intros ts H. apply ListTickets_ok in H as (tickets & -> & HF).
    pose proof (Forall2_length _ _ _ HF) as Hlen. rewrite page_length in Hlen.
    rewrite length_map, <- Hlen. split_and!.
    + lia.
    + reflexivity.
    + apply (StronglySorted_Forall2
               (λ row t, ticketpb.CreatedAt t = created_at row.2)
               newer_first spec.newest_first (page db page_size)).
      * intros a b x y Ha Hb HR. unfold spec.newest_first, newer_first in *. lia.
      * apply Forall2_fmap_r. eapply Forall2_impl; [exact HF|].
        intros row t Hok. apply proto_fields. exact Hok.
      * apply page_sorted.
    + intros t Ht. destruct (page_tickets_in _ _ _ HF Ht) as ([id r] & Hin & Hid & Hc).
      cbn [fst snd] in *. exists r. rewrite Hid. split; [|exact Hc].
      eapply page_stored; eauto.
    + intros id r Hr Hnot t Ht.
      destruct (page_tickets_in _ _ _ HF Ht) as (row & Hin & Hid & Hc). rewrite Hc.
      eapply page_newest; eauto. intros Hpage.
      destruct (page_rows_in _ _ _ HF Hpage) as (t0 & Ht0 & Hid0).
      apply (Hnot t0 Ht0). exact Hid0.
  - intros He. unfold server.ListTickets, List. rewrite select_page_limit.
    unfold page. rewrite He, map_to_list_empty. cbn. rewrite take_nil. reflexivity.
  - intros Hall. unfold server.ListTickets, List. rewrite select_page_limit.
    destruct (list_rows_total (page db page_size) []) as [ts Hts].
    + apply Forall_forall. intros [id r] Hin. pose proof (page_stored _ _ _ _ Hin) as Hr.
      destruct (Hall id r Hr) as [t Ht]. eapply GetByID_row_ticket; eauto.
    + rewrite Hts. eauto.
Qed.

(** ** The order of the range loop does not matter *)

Lemma assign_setter col a r :
  assign col a r = match setter col a with Some f => Some (f r) | None => None end.
Proof.
  unfold assign, setter. destruct a; [|reflexivity|destruct (String.eqb _ _); reflexivity].
  repeat (destruct (String.eqb col _); [reflexivity|]). reflexivity.
Qed.

Lemma setter_commute c1 a1 c2 a2 f g r :
  c1 ≠ c2 → setter c1 a1 = Some f → setter c2 a2 = Some g → f (g r) = g (f r).
Proof.
  intros Hne. unfold setter.
  destruct a1, a2; try discriminate;
    repeat match goal with
    | |- context [String.eqb ?a ?b] => destruct (String.eqb_spec a b); [subst|]
    end;
    intros H1 H2; try discriminate; try congruence;
    injection H1 as <-; injection H2 as <-; reflexivity.
Qed.

Lemma assign_swap c1 a1 c2 a2 r :
  c1 ≠ c2 →
  match assign c1 a1 r with Some r' => assign c2 a2 r' | None => None end
  = match assign c2 a2 r with Some r' => assign c1 a1 r' | None => None end.
Proof.
  intros Hne. rewrite !assign_setter.
  destruct (setter c1 a1) as [f|] eqn:E1, (setter c2 a2) as [g|] eqn:E2;
    rewrite ?assign_setter, ?E1, ?E2; try reflexivity.
  f_equal. symmetry. eapply setter_commute; eauto.
Qed.

Lemma assign_fields_perm fields fields' :
  fields ≡ₚ fields' → NoDup fields.*1 →
  ∀ r, assign_fields fields r = assign_fields fields' r.
Proof.
  induction 1 as [|kv l l' Hp IH|kv1 kv2 l|l1 l2 l3 H12 IH12 H23 IH23]; intros Hnd r.
  - reflexivity.
  - cbn [assign_fields]. destruct (assign kv.1 (spec.arg_for kv) r); [|reflexivity].
    apply IH. cbn in Hnd. apply NoDup_cons in Hnd as [_ Hnd]. exact Hnd.
  - cbn [assign_fields].
    assert (kv2.1 ≠ kv1.1) as Hne.
    { cbn in Hnd. apply NoDup_cons in Hnd as [Hn _]. intros E. apply Hn. rewrite E.
      apply list_elem_of_here. }
    pose proof (assign_swap kv2.1 (spec.arg_for kv2) kv1.1 (spec.arg_for kv1) r Hne) as Hs.
    destruct (assign kv2.1 (spec.arg_for kv2) r) as [r2|],
             (assign kv1.1 (spec.arg_for kv1) r) as [r1|].
    + rewrite Hs. reflexivity.
    + rewrite Hs. reflexivity.
    + rewrite <- Hs. reflexivity.
    + reflexivity.
  - rewrite IH12 by assumption. apply IH23. rewrite <- H12. exact Hnd.
Qed.

(** Running the SET parts of numbered entries against their arguments is
    running the assignments of the entries. *)
Lemma assign_all_numbered fields : ∀ pre post rest r,
  assign_all (numbered (S (length pre)) fields ++ rest)
             (pre ++ map spec.arg_for fields ++ post) r
  = match assign_fields fields r with
    | Some r' =>
      assign_all rest (pre ++ map spec.arg_for fields ++ post) r'
    | None => None
    end.
Proof.
  induction fields as [|kv fields IH]; intros pre post rest r.
  - reflexivity.
  - rewrite numbered_cons. cbn [app assign_all placeholder column param map assign_fields].
    rewrite lookup_app_r by lia. rewrite Nat.sub_diag. cbn [lookup list_lookup].
    change ((spec.arg_for kv :: map spec.arg_for fields ++ post) !! 0%nat)
      with (Some (spec.arg_for kv)).
    destruct (assign kv.1 (spec.arg_for kv) r) as [r'|]; [|reflexivity].
    specialize (IH (pre ++ [spec.arg_for kv]) post rest r').
    rewrite length_app in IH. cbn [length] in IH.
    replace (S (length pre + 1)) with (S (S (length pre))) in IH by lia.
    rewrite <- !app_assoc in IH. cbn [app] in IH. exact IH.
Qed.

Lemma range_updates_panic updates : ∀ st,
  Exists (λ kv, spec.no_panic kv.1 kv.2 = false) updates →
  range_updates updates st = None.
Proof.
  induction updates as [|[field v] rest IH]; intros st H; [inversion H|].
  cbn [range_updates]. destruct (add_field st field v) as [st'|] eqn:E; [|reflexivity].
  apply IH. inversion H as [? ? Hkv|? ? Hrest]; subst; [|exact Hrest]. exfalso.
  cbn [fst snd] in Hkv. unfold spec.no_panic in Hkv. apply negb_false_iff in Hkv.
  apply andb_true_iff in Hkv as [Hf Hv]. apply String.eqb_eq in Hf as ->.
  destruct v; [|discriminate]. discriminate E.
Qed.

Lemma recognized_entries_perm l l' :
  l ≡ₚ l' → recognized_entries l ≡ₚ recognized_entries l'.
Proof. intros H. unfold recognized_entries. rewrite H. reflexivity. Qed.

Lemma recognized_entries_NoDup l : NoDup l.*1 → NoDup (recognized_entries l).*1.
Proof.
  unfold recognized_entries. induction l as [|kv l IH]; intros H; [constructor|].
  cbn in H. apply NoDup_cons in H as [Hn Hl]. rewrite filter_cons.
  destruct (decide _); [|auto]. cbn. apply NoDup_cons. split; [|auto].
  intros Hin. apply Hn. apply list_elem_of_fmap in Hin as (kv' & -> & Hin).
  apply list_elem_of_filter in Hin as [_ Hin]. apply list_elem_of_fmap. eauto.
Qed.

Lemma forallb_perm {A} (f : A → bool) l l' : l ≡ₚ l' → forallb f l = forallb f l'.
Proof.
  induction 1 as [|x l l' _ IH|x y l|l1 l2 l3 _ IH1 _ IH2]; cbn.
  - reflexivity.
  - rewrite IH. reflexivity.
  - destruct (f x), (f y); reflexivity.
  - congruence.
Qed.

(** The statement of [Update] run against the store, in terms of the
    assignments of the recognized entries. *)
Lemma update_returning_fields db id fields now :
  let n := length fields in
  update_returning db
    (numbered 1 fields ++ [{| column := "updated_at"; placeholder := S n |}])
    (S (S n)) ((map spec.arg_for fields ++ [ArgTime now]) ++ [ArgString id])
  = if negb (forallb driver_accepts (map spec.arg_for fields)) then (QueryError, db)
    else
      match tickets db !! id with
      | None => (ErrNoRows, db)
      | Some r =>
        match assign_fields fields r with
        | None => (QueryError, db)
        | Some r1 =>
          let r' := set_updated_at now r1 in
          if admits db id r'
          then (OneRow id r', with_tickets db (<[id := r']> (tickets db)))
          else (QueryError, db)
        end
      end.
Proof.
  cbv zeta. unfold update_returning.
  rewrite !forallb_app. cbn [forallb driver_accepts]. rewrite !andb_true_r.
  destruct (forallb driver_accepts (map spec.arg_for fields)); [|reflexivity].
  cbn [negb]. pose proof (where_param (map spec.arg_for fields) now id) as Hw.
  rewrite length_map in Hw. rewrite Hw. clear Hw.
  destruct (tickets db !! id) as [r|]; [|reflexivity].
  rewrite <- app_assoc.
  rewrite (assign_all_numbered fields [] [ArgTime now; ArgString id]).
  destruct (assign_fields fields r) as [r1|]; [|reflexivity].
  cbn [assign_all placeholder column param app].
  rewrite lookup_app_r by (rewrite length_map; lia).
  rewrite length_map, Nat.sub_diag. reflexivity.
Qed.

(** Whatever the order in which the range loop meets the entries of the
    map, [Update] returns the same result and leaves the same store. *)
Theorem Update_any_order (db : DB) (id : string) (m : gmap string value)
        (updates : list (string * value)) (now : Time) :
  spec.range_order m updates →
  Update db id updates now = Update db id (map_to_list m) now.
Proof.
  unfold spec.range_order. intros Hp.
  destruct (decide (Forall (λ kv, spec.no_panic kv.1 kv.2 = true) updates)) as [Hok|Hbad].
  - assert (Forall (λ kv, spec.no_panic kv.1 kv.2 = true) (map_to_list m)) as Hok'
      by (rewrite <- Hp; exact Hok).
    pose proof (recognized_entries_perm _ _ Hp) as Hrp.
    destruct (recognized_entries updates) as [|kv fields] eqn:E.
    + apply Permutation_nil_l in Hrp.
      rewrite (Update_unrecognized db id updates now E).
      rewrite (Update_unrecognized db id (map_to_list m) now (eq_sym Hrp)). reflexivity.
    + assert (recognized_entries (map_to_list m) ≠ []) as Hne.
      { intros E'. rewrite E' in Hrp. apply Permutation_nil_r in Hrp. discriminate. }
      rewrite !Update_statement_run by (trivial; congruence). cbv zeta.
      rewrite !update_returning_fields. rewrite E. cbv zeta.
      rewrite <- (forallb_perm driver_accepts _ _ (Permutation_map spec.arg_for Hrp)).
      destruct (negb _); [reflexivity|].
      destruct (tickets db !! id) as [r|]; [|reflexivity].
      rewrite <- (assign_fields_perm _ _ Hrp).
      * reflexivity.
      * rewrite <- E. apply recognized_entries_NoDup. rewrite Hp.
        apply NoDup_fst_map_to_list.
  - apply not_Forall_Exists in Hbad; [|intros kv; apply _].
    assert (Exists (λ kv, spec.no_panic kv.1 kv.2 = false) updates) as Hex.
    { eapply Exists_impl; [exact Hbad|]. intros kv H. cbn in H.
      destruct (spec.no_panic kv.1 kv.2); congruence. }
    assert (Exists (λ kv, spec.no_panic kv.1 kv.2 = false) (map_to_list m)) as Hex'
      by (rewrite <- Hp; exact Hex).
    unfold Update. rewrite !range_updates_panic by assumption. reflexivity.
Qed.

(** ** Only the supplied fields change *)

Ltac string_cases :=
  repeat match goal with
  | |- context [String.eqb ?a ?b] => destruct (String.eqb_spec a b); [subst|]
  | H : context [String.eqb ?a ?b] |- _ => destruct (String.eqb_spec a b); [subst|]
  end.

Lemma assign_other col a r r' c :
  assign col a r = Some r' → c ≠ col →
  get_column c r' = get_column c r ∧ created_at r' = created_at r.
Proof.
  unfold assign. intros H Hne.
  destruct a as [s| |t].
  - destruct (String.eqb_spec col "title"); [subst; injection H as <-|].
    { unfold get_column. destruct (String.eqb_spec c "title"); [contradiction|]. split; reflexivity. }
    destruct (String.eqb_spec col "description"); [subst; injection H as <-|].
    { unfold get_column. destruct (String.eqb_spec c "description"); [contradiction|]. split; reflexivity. }
    destruct (String.eqb_spec col "status"); [subst; injection H as <-|].
    { unfold get_column. destruct (String.eqb_spec c "status"); [contradiction|]. split; reflexivity. }
    destruct (String.eqb_spec col "priority"); [subst; injection H as <-|].
    { unfold get_column. destruct (String.eqb_spec c "priority"); [contradiction|]. split; reflexivity. }
    destruct (String.eqb_spec col "assignee_id"); [subst; injection H as <-|].
    { unfold get_column. destruct (String.eqb_spec c "assignee_id"); [contradiction|]. split; reflexivity. }
    destruct (String.eqb_spec col "tags"); [subst; injection H as <-|discriminate].
    unfold get_column. destruct (String.eqb_spec c "tags"); [contradiction|]. split; reflexivity.
  - discriminate.
  - destruct (String.eqb col "updated_at"); [injection H as <-|discriminate].
    split; reflexivity.
Qed.

Lemma assign_same col s r r' :
  assign col (ArgString s) r = Some r' → get_column col r' = Some s.
Proof.
  unfold assign. intros H.
  destruct (String.eqb_spec col "title"); [subst; injection H as <-; reflexivity|].
  destruct (String.eqb_spec col "description"); [subst; injection H as <-; reflexivity|].
  destruct (String.eqb_spec col "status"); [subst; injection H as <-; reflexivity|].
  destruct (String.eqb_spec col "priority"); [subst; injection H as <-; reflexivity|].
  destruct (String.eqb_spec col "assignee_id"); [subst; injection H as <-; reflexivity|].
  destruct (String.eqb_spec col "tags"); [subst; injection H as <-; reflexivity|discriminate].
Qed.

Lemma assign_updated_at col s r r' :
  assign col (ArgString s) r = Some r' → updated_at r' = updated_at r.
Proof.
  unfold assign. intros H.
  repeat (destruct (String.eqb col _); [injection H as <-; reflexivity|]).
  discriminate.
Qed.

Lemma assign_fields_other fields : ∀ r r1 c,
  assign_fields fields r = Some r1 → c ∉ fields.*1 →
  get_column c r1 = get_column c r ∧ created_at r1 = created_at r.
Proof.
  induction fields as [|kv fields IH]; intros r r1 c H Hc; cbn [assign_fields] in H.
  - injection H as <-. split; reflexivity.
  - destruct (assign kv.1 (spec.arg_for kv) r) as [r'|] eqn:E; [|discriminate].
    cbn in Hc. apply not_elem_of_cons in Hc as [Hne Hc].
    destruct (IH _ _ _ H Hc) as [-> ->]. eapply assign_other; eauto.
Qed.

Lemma assign_fields_same fields : ∀ r r1 c v,
  NoDup fields.*1 → (c, v) ∈ fields →
  assign_fields fields r = Some r1 →
  ∃ s, spec.arg_for (c, v) = ArgString s ∧ get_column c r1 = Some s.
Proof.
  induction fields as [|kv fields IH]; intros r r1 c v Hnd Hin H; [inversion Hin|].
  cbn [assign_fields] in H. cbn in Hnd. apply NoDup_cons in Hnd as [Hn Hnd].
  destruct (assign kv.1 (spec.arg_for kv) r) as [r'|] eqn:E; [|discriminate].
  apply elem_of_cons in Hin as [<-|Hin].
  - cbn [fst] in *.
    destruct (assign_fields_other _ _ _ c H Hn) as [-> _].
    destruct (spec.arg_for (c, v)) as [s| |t] eqn:Ea; try discriminate E.
    + exists s. split; [reflexivity|]. eapply assign_same; eauto.
    + exfalso. unfold spec.arg_for in Ea. cbn [fst snd] in Ea.
      destruct v; [discriminate|]. destruct (String.eqb c "tags"); discriminate.
  - eapply IH; eauto.
Qed.

Lemma recognized_entries_keys updates c :
  c ∈ (recognized_entries updates).*1 → c ∈ updates.*1 ∧ spec.recognized c = true.
Proof.
  intros Hin. apply list_elem_of_fmap in Hin as ([c' v] & -> & Hin).
  apply list_elem_of_filter in Hin as [Hr Hin]. cbn [fst] in *. split.
  - apply list_elem_of_fmap. exists (c', v). split; [reflexivity | exact Hin].
  - apply Is_true_true. exact Hr.
Qed.

Lemma range_order_keys m updates c :
  spec.range_order m updates → c ∈ updates.*1 → is_Some (m !! c).
Proof.
  unfold spec.range_order. intros Hp Hin.
  apply list_elem_of_fmap in Hin as ([c' v] & -> & Hin). cbn [fst].
  exists v. apply elem_of_map_to_list. rewrite <- Hp. exact Hin.
Qed.

(** Partial update, in general. For a stored ticket and an [Update] with any
    mapping, in any order of its entries: the stored row keeps its created_at
    and every text column (title, description, status, priority,
    assignee_id, tags, reporter_id) that the mapping does not name or that
    is not a recognized field; every other row is untouched; and when the
    call returns a ticket for a mapping with a recognized field, updated_at
    is the time of the call and each recognized field of the mapping holds
    its new value (the tags as their JSON text). *)
Theorem Update_changes_supplied_fields (db : DB) (id : string) (r : Row)
        (m : gmap string value) (updates : list (string * value)) (now : Time) :
  tickets db !! id = Some r → spec.range_order m updates →
  ∃ r', tickets (Update db id updates now).2 !! id = Some r'
    ∧ created_at r' = created_at r
    ∧ (∀ c, m !! c = None ∨ spec.recognized c = false →
         get_column c r' = get_column c r)
    ∧ (∀ id', id' ≠ id →
         tickets (Update db id updates now).2 !! id' = tickets db !! id')
    ∧ (∀ t, (Update db id updates now).1 = Ok t →
         recognized_entries updates ≠ [] →
         updated_at r' = now
         ∧ ∀ c v, m !! c = Some v → spec.recognized c = true →
             ∃ s, spec.arg_for (c, v) = ArgString s ∧ get_column c r' = Some s).
Proof.
  intros Hr Hp.
  assert (∃ r', tickets db !! id = Some r' ∧ created_at r' = created_at r
            ∧ (∀ c, m !! c = None ∨ spec.recognized c = false →
                 get_column c r' = get_column c r)
            ∧ ∀ id', id' ≠ id → tickets db !! id' = tickets db !! id') as Hsame.
  { exists r. split_and!; trivial. }
  destruct (decide (Forall (λ kv, spec.no_panic kv.1 kv.2 = true) updates)) as [Hok|Hbad].
  2:{ apply not_Forall_Exists in Hbad; [|intros kv; apply _].
      assert (Exists (λ kv, spec.no_panic kv.1 kv.2 = false) updates) as Hex.
      { eapply Exists_impl; [exact Hbad|]. intros kv H. cbn in H.
        destruct (spec.no_panic kv.1 kv.2); congruence. }
      unfold Update. rewrite range_updates_panic by assumption. cbn [fst snd].
      destruct Hsame as (r' & ? & ? & ? & ?). exists r'. split_and!; trivial.
      intros t Ht. discriminate. }
  destruct (recognized_entries updates) as [|kv0 fields0] eqn:E.
  { rewrite (Update_unrecognized db id updates now E). cbn [fst snd].
    destruct Hsame as (r' & ? & ? & ? & ?). exists r'. split_and!; trivial.
    intros t _ Hne. congruence. }
  rewrite Update_statement_run by (trivial; congruence). cbv zeta.
  rewrite update_returning_fields. rewrite E. cbv zeta. rewrite Hr.
  destruct (negb _).
  { cbn [fst snd]. destruct Hsame as (r' & ? & ? & ? & ?). exists r'.
    split_and!; trivial. intros t Ht. discriminate. }
  destruct (assign_fields (kv0 :: fields0) r) as [r1|] eqn:Ea.
  2:{ cbn [fst snd]. destruct Hsame as (r' & ? & ? & ? & ?). exists r'.
      split_and!; trivial. intros t Ht. discriminate. }
  destruct (admits db id (set_updated_at now r1)) eqn:Hadm.
  2:{ cbn [fst snd]. destruct Hsame as (r' & ? & ? & ? & ?). exists r'.
      split_and!; trivial. intros t Ht. discriminate. }
  exists (set_updated_at now r1).
  assert (NoDup (kv0 :: fields0).*1) as Hnd.
  { rewrite <- E. apply recognized_entries_NoDup.
    unfold spec.range_order in Hp. rewrite Hp. apply NoDup_fst_map_to_list. }
  assert (∀ c, m !! c = None ∨ spec.recognized c = false → c ∉ (kv0 :: fields0).*1)
    as Hout.
  { intros c Hc Hin. rewrite <- E in Hin.
    apply recognized_entries_keys in Hin as [Hin Hrec].
    destruct Hc as [Hc|Hc]; [|congruence].
    destruct (range_order_keys m updates c Hp Hin) as [v Hv]. congruence. }
  assert (created_at r1 = created_at r) as Hcreated.
  { destruct (assign_fields_other _ _ _ "" Ea) as [_ Hc]; [|exact Hc].
    intros Hin. rewrite <- E in Hin.
    apply recognized_entries_keys in Hin as [_ Hrec]. discriminate Hrec. }
  assert (tickets (with_tickets db (<[id := set_updated_at now r1]> (tickets db))) !! id
          = Some (set_updated_at now r1)) as Hnew by apply lookup_insert_eq.
  destruct (scan id (set_updated_at now r1)) as [[ticket js]|];
    cbn [fst snd]; (split_and!; [exact Hnew | exact Hcreated | | |]).
  all: try (intros c Hc; change (get_column c (set_updated_at now r1)) with (get_column c r1);
            apply (assign_fields_other _ _ _ c Ea); apply Hout; exact Hc).
  all: try (intros id' Hne; apply lookup_insert_ne; congruence).
  - intros t Ht _. split; [reflexivity|]. intros c v Hv Hrec.
    change (get_column c (set_updated_at now r1)) with (get_column c r1).
    eapply assign_fields_same; [exact Hnd| |exact Ea].
    rewrite <- E. apply list_elem_of_filter. split; [cbn; apply Is_true_true; exact Hrec|].
    unfold spec.range_order in Hp. rewrite Hp. apply elem_of_map_to_list. exact Hv.
  - intros t Ht. discriminate.
Qed.

(** ** Status and priority between the wire and the store *)

(** The conversions between the wire enums and the stored strings are
    inverse to each other on the four named statuses and the four named
    priorities; every other wire value (the unspecified one and the numbers
    without a name) comes back as OPEN, respectively MEDIUM, and every other
    stored string is shown as OPEN, respectively MEDIUM. *)
Theorem convert_round_trip (st : ticketpb.TicketStatus)
        (pr : ticketpb.TicketPriority) (s p : string) :
  server.convertStatusToProto (server.convertStatusFromProto st)
  = match st with
    | ticketpb.TICKET_STATUS_UNSPECIFIED | ticketpb.TICKET_STATUS_unknown _ =>
        ticketpb.TICKET_STATUS_OPEN
    | _ => st
    end
  ∧ server.convertPriorityToProto (server.convertPriorityFromProto pr)
    = match pr with
      | ticketpb.TICKET_PRIORITY_UNSPECIFIED | ticketpb.TICKET_PRIORITY_unknown _ =>
          ticketpb.TICKET_PRIORITY_MEDIUM
      | _ => pr
      end
  ∧ server.convertStatusFromProto (server.convertStatusToProto s)
    = (if bool_decide (s ∈ ["OPEN"; "IN_PROGRESS"; "RESOLVED"; "CLOSED"])
       then s else "OPEN")
  ∧ server.convertPriorityFromProto (server.convertPriorityToProto p)
    = (if bool_decide (p ∈ ["LOW"; "MEDIUM"; "HIGH"; "CRITICAL"])
       then p else "MEDIUM").
Proof.
  split_and!.
  - destruct st; reflexivity.
  - destruct pr; reflexivity.
  - unfold server.convertStatusToProto.
    string_cases; try reflexivity.
    rewrite bool_decide_eq_false_2; [reflexivity|].
    rewrite !elem_of_cons, elem_of_nil. intros [?|[?|[?|[?|[]]]]]; congruence.
  - unfold server.convertPriorityToProto.
    string_cases; try reflexivity.
    rewrite bool_decide_eq_false_2; [reflexivity|].
    rewrite !elem_of_cons, elem_of_nil. intros [?|[?|[?|[?|[]]]]]; congruence.
Qed.

(** ** The repository: how its operations compose *)

Lemma Update_cases db id updates now :
  (Exists (λ kv, spec.no_panic kv.1 kv.2 = false) updates
   ∧ Update db id updates now = (Panic, db))
  ∨ (Forall (λ kv, spec.no_panic kv.1 kv.2 = true) updates
     ∧ recognized_entries updates = []
     ∧ Update db id updates now = (GetByID db id, db))
  ∨ (Forall (λ kv, spec.no_panic kv.1 kv.2 = true) updates
     ∧ recognized_entries updates ≠ []
     ∧ Update db id updates now = updated db id (recognized_entries updates) now).
Proof.
  destruct (decide (Forall (λ kv, spec.no_panic kv.1 kv.2 = true) updates)) as [Hok|Hbad].
  2:{ left. apply not_Forall_Exists in Hbad; [|intros kv; apply _].
      assert (Exists (λ kv, spec.no_panic kv.1 kv.2 = false) updates) as Hex.
      { eapply Exists_impl; [exact Hbad|]. intros kv H. cbn in H.
        destruct (spec.no_panic kv.1 kv.2); congruence. }
      split; [exact Hex|]. unfold Update. rewrite range_updates_panic by assumption.
      reflexivity. }
  right. destruct (recognized_entries updates) as [|kv0 fields0] eqn:E.
  { left. split_and!; trivial. apply Update_unrecognized. exact E. }
  right. split_and!; [exact Hok | discriminate |].
  rewrite Update_statement_run by (trivial; congruence). cbv zeta.
  rewrite update_returning_fields. rewrite E. unfold updated.
  destruct (negb _); [reflexivity|].
  destruct (tickets db !! id) as [r|]; [|reflexivity].
  destruct (assign_fields (kv0 :: fields0) r) as [r1|]; [|reflexivity].
  cbv zeta. destruct (admits db id (set_updated_at now r1)); [|reflexivity].
  destruct (scan id (set_updated_at now r1)) as [[ticket js]|]; reflexivity.
Qed.

Lemma range_order_NoDup m updates : spec.range_order m updates → NoDup updates.*1.
Proof.
  unfold spec.range_order. intros Hp. rewrite Hp. apply NoDup_fst_map_to_list.
Qed.

Lemma range_order_elem m updates c v :
  spec.range_order m updates → (c, v) ∈ updates ↔ m !! c = Some v.
Proof.
  unfold spec.range_order. intros Hp. rewrite Hp. apply elem_of_map_to_list.
Qed.

Lemma recognized_entries_elem updates c v :
  (c, v) ∈ recognized_entries updates ↔ spec.recognized c = true ∧ (c, v) ∈ updates.
Proof.
  unfold recognized_entries. rewrite list_elem_of_filter. cbn [fst].
  rewrite Is_true_true. reflexivity.
Qed.

Lemma assign_fields_fits fields : ∀ r,
  Forall (λ kv, spec.fits kv.1 kv.2 = true ∧ spec.recognized kv.1 = true) fields →
  is_Some (assign_fields fields r).
Proof.
  induction fields as [|[c v] fields IH]; intros r H; [eexists; reflexivity|].
  apply Forall_cons in H as [[Hf Hr] H]. cbn [assign_fields fst snd] in *.
  assert (is_Some (assign c (spec.arg_for (c, v)) r)) as [r' Hr'].
  { unfold spec.recognized, spec.fits, is_text_field, spec.arg_for, assign in *.
    cbn [fst snd].
    destruct (String.eqb_spec c "title"); [subst; destruct v; try discriminate; eexists; reflexivity|].
    destruct (String.eqb_spec c "description"); [subst; destruct v; try discriminate; eexists; reflexivity|].
    destruct (String.eqb_spec c "status"); [subst; destruct v; try discriminate; eexists; reflexivity|].
    destruct (String.eqb_spec c "priority"); [subst; destruct v; try discriminate; eexists; reflexivity|].
    destruct (String.eqb_spec c "assignee_id"); [subst; destruct v; try discriminate; eexists; reflexivity|].
    destruct (String.eqb_spec c "tags"); [subst; destruct v; try discriminate; eexists; reflexivity|].
    discriminate. }
  rewrite Hr'. apply IH. exact H.
Qed.

Lemma recognized_entries_fits updates :
  Forall (λ kv, spec.fits kv.1 kv.2 = true) updates →
  Forall (λ kv, spec.fits kv.1 kv.2 = true ∧ spec.recognized kv.1 = true)
         (recognized_entries updates).
Proof.
  intros H. apply Forall_forall. intros [c v] Hin.
  apply recognized_entries_elem in Hin as [Hr Hin]. cbn [fst snd]. split; [|exact Hr].
  rewrite Forall_forall in H. apply (H (c, v) Hin).
Qed.

(** Whether the tags text decodes does not depend on the ticket it is
    decoded into. *)
Lemma unmarshal_tags_ok t t0 js u :
  unmarshal_tags t js = Ok u → ∃ u0, unmarshal_tags t0 js = Ok u0.
Proof.
  unfold unmarshal_tags. destruct (String.eqb js ""); [eauto|].
  destruct (json.Unmarshal js); [eauto | discriminate].
Qed.

Lemma updated_ok db id fields now t db' :
  updated db id fields now = (Ok t, db') →
  ∃ r r1 ticket js,
    tickets db !! id = Some r
    ∧ assign_fields fields r = Some r1
    ∧ db' = with_tickets db (<[id := set_updated_at now r1]> (tickets db))
    ∧ scan id (set_updated_at now r1) = Some (ticket, js)
    ∧ unmarshal_tags ticket js = Ok t.
Proof.
  unfold updated. destruct (negb _); [discriminate|].
  destruct (tickets db !! id) as [r|]; [|discriminate].
  destruct (assign_fields fields r) as [r1|] eqn:Ea; [|discriminate].
  cbv zeta. destruct (admits db id (set_updated_at now r1)); [|discriminate].
  destruct (scan id (set_updated_at now r1)) as [[ticket js]|] eqn:Es; [|discriminate].
  intros H. injection H as Ht <-. exists r, r1, ticket, js. split_and!; trivial.
Qed.

Lemma GetByID_no_panic db id : GetByID db id ≠ Panic.
Proof.
  unfold GetByID. destruct (select_by_id db id) as [r|]; [|discriminate].
  destruct (scan id r) as [[ticket js]|]; [|discriminate].
  unfold unmarshal_tags. destruct (String.eqb js ""); [discriminate|].
  destruct (json.Unmarshal js); discriminate.
Qed.

Lemma updated_no_panic db id fields now : (updated db id fields now).1 ≠ Panic.
Proof.
  unfold updated. destruct (negb _); [discriminate|].
  destruct (tickets db !! id) as [r|]; [|discriminate].
  destruct (assign_fields fields r) as [r1|]; [|discriminate].
  cbv zeta. destruct (admits db id _); [|discriminate]. cbn [fst].
  destruct (scan id _) as [[ticket js]|]; [|discriminate].
  unfold unmarshal_tags. destruct (String.eqb js ""); [discriminate|].
  destruct (json.Unmarshal js); discriminate.
Qed.

(** What [Update] returns is what is stored: when [Update] returns a
    ticket, [GetByID] on the resulting store returns that same ticket. *)
Theorem Update_then_GetByID (db db' : DB) (id : string)
        (updates : list (string * value)) (now : Time) (t : Ticket) :
  Update db id updates now = (Ok t, db') → GetByID db' id = Ok t.
Proof.
  intros H.
  destruct (Update_cases db id updates now)
    as [[_ E]|[(_ & _ & E)|(_ & _ & E)]]; rewrite E in H.
  - discriminate.
  - injection H as H <-. exact H.
  - apply updated_ok in H as (r & r1 & ticket & js & _ & _ & -> & Hs & Hu).
    unfold GetByID, select_by_id. cbn [tickets with_tickets].
    rewrite lookup_insert_eq, Hs. exact Hu.
Qed.

(** The panic of [Update]. [Update] panics exactly when the mapping binds
    [tags] to a value that is not a sequence of strings (the type assertion
    [value.([]string)]): it does so in whatever order the entries are met,
    before anything is sent to the store, which is left unchanged; and it
    panics for no other mapping, store or id. *)
Theorem Update_panic_iff (db : DB) (id : string)
        (m : gmap string value) (updates : list (string * value)) (now : Time) :
  spec.range_order m updates →
  ((∃ s, m !! "tags" = Some (VString s)) ↔ (Update db id updates now).1 = Panic)
  ∧ ((Update db id updates now).1 = Panic → (Update db id updates now).2 = db).
Proof.
  intros Hp.
  destruct (Update_cases db id updates now)
    as [[Hex E]|[(Hok & _ & E)|(Hok & _ & E)]]; rewrite E; cbn [fst snd].
  - split; [|reflexivity]. split; [reflexivity|]. intros _.
    apply Exists_exists in Hex as ([k v] & Hkv & Hfalse). cbn [fst snd] in Hfalse.
    unfold spec.no_panic in Hfalse.
    destruct (String.eqb_spec k "tags") as [->|]; [|discriminate Hfalse].
    destruct v as [s|l]; [|discriminate Hfalse].
    exists s. apply (range_order_elem m updates); assumption.
  - split; [|intros H; exfalso; exact (GetByID_no_panic db id H)].
    split; [|intros H; exfalso; exact (GetByID_no_panic db id H)].
    intros [s Hs]. exfalso.
    apply (range_order_elem m updates) in Hs; [|exact Hp].
    rewrite Forall_forall in Hok. specialize (Hok _ Hs). discriminate Hok.
  - pose proof (updated_no_panic db id (recognized_entries updates) now) as Hnp.
    split; [|intros H; contradiction].
    split; [|intros H; contradiction].
    intros [s Hs]. exfalso.
    apply (range_order_elem m updates) in Hs; [|exact Hp].
    rewrite Forall_forall in Hok. specialize (Hok _ Hs). discriminate Hok.
Qed.

(** An [Update] that reports a failure may have been applied. For a stored
    ticket that [GetByID] cannot read (its tags are NULL or do not decode
    into a sequence of strings) and a field-updates mapping that has a
    recognized field but not [tags], on a store that accepts the new row:
    [Update] returns an error, and yet the stored row has the new values
    and the time of the call as updated_at. *)
Theorem Update_error_after_write (db : DB) (id : string) (r : Row)
        (m : gmap string value) (updates : list (string * value)) (now : Time) :
  tickets db !! id = Some r →
  (∀ t, GetByID db id ≠ Ok t) →
  spec.field_updates m → spec.range_order m updates →
  m !! "tags" = None →
  (∃ c, spec.recognized c = true ∧ is_Some (m !! c)) →
  (∀ r', admits db id r' = true) →
  ∃ e r',
    Update db id updates now
    = (Err e, with_tickets db (<[id := r']> (tickets db)))
    ∧ updated_at r' = now
    ∧ created_at r' = created_at r ∧ tags r' = tags r
    ∧ ∀ c v, m !! c = Some v → spec.recognized c = true →
        ∃ s, v = VString s ∧ get_column c r' = Some s.
Proof.
  intros Hr Hbad Hm Hp Htags (c0 & Hc0 & [v0 Hv0]) Hadm.
  pose proof (field_updates_range m updates Hm Hp) as Hfits.
  assert ((c0, v0) ∈ recognized_entries updates) as Hin0.
  { apply recognized_entries_elem. split; [exact Hc0|].
    apply (range_order_elem m); assumption. }
  destruct (Update_cases db id updates now)
    as [[Hex _]|[(_ & E & _)|(_ & _ & E)]].
  { exfalso. apply Exists_exists in Hex as (kv & Hkv & Hfalse).
    pose proof (fits_all_no_panic updates Hfits) as Hok.
    rewrite Forall_forall in Hok. rewrite (Hok kv Hkv) in Hfalse. discriminate. }
  { rewrite E in Hin0. inversion Hin0. }
  rewrite E. unfold updated. rewrite (args_accepted updates Hfits). cbn [negb].
  rewrite Hr.
  destruct (assign_fields_fits (recognized_entries updates) r
              (recognized_entries_fits updates Hfits)) as [r1 Hr1].
  rewrite Hr1. cbv zeta. rewrite Hadm.
  assert (NoDup (recognized_entries updates).*1) as Hnd.
  { apply recognized_entries_NoDup. apply (range_order_NoDup m). exact Hp. }
  assert (tags r1 = tags r ∧ created_at r1 = created_at r) as [Ht Hc].
  { apply (assign_fields_other _ _ _ "tags" Hr1). intros Hin.
    apply recognized_entries_keys in Hin as [Hin _].
    destruct (range_order_keys m updates "tags" Hp Hin) as [v Hv]. congruence. }
  assert (∃ e, match scan id (set_updated_at now r1) with
               | None => Err (ErrFailed "update ticket")
               | Some (ticket, tagsJSON) => unmarshal_tags ticket tagsJSON
               end = Err e) as [e He].
  { unfold scan. cbn [tags set_updated_at]. rewrite Ht.
    unfold GetByID, select_by_id in Hbad. rewrite Hr in Hbad. unfold scan in Hbad.
    destruct (tags r) as [js|]; [|eauto].
    match goal with |- ∃ e, unmarshal_tags ?t js = Err e =>
      destruct (unmarshal_tags t js) as [u|e|] eqn:Eu end; [|eauto|].
    - exfalso. eapply unmarshal_tags_ok in Eu as [u0 Hu0]. eapply Hbad. exact Hu0.
    - exfalso. unfold unmarshal_tags in Eu. destruct (String.eqb js ""); [discriminate|].
      destruct (json.Unmarshal js); discriminate. }
  exists e, (set_updated_at now r1). rewrite He.
  split_and!; [reflexivity | reflexivity | exact Hc | exact Ht |].
  intros c v Hv Hrec.
  destruct (assign_fields_same (recognized_entries updates) r r1 c v Hnd) as (s & Hs & Hg).
  { apply recognized_entries_elem. split; [exact Hrec|].
    apply (range_order_elem m); assumption. }
  { exact Hr1. }
  exists s. split; [|exact Hg].
  specialize (Hm c v Hv). cbn in Hm. unfold spec.arg_for in Hs. cbn [fst snd] in Hs.
  destruct v as [s'|l]; [congruence|].
  destruct (String.eqb_spec c "tags") as [->|]; [congruence | discriminate Hs].
Qed.

(** Tags through [Update]: when [Update] with a mapping that binds [tags]
    to a sequence of strings returns a ticket, its tags are that sequence,
    element for element and in order, with every invalid byte replaced by
    U+FFFD; exactly that sequence when every tag is valid UTF-8. *)
Theorem Update_tags_round_trip (db db' : DB) (id : string)
        (m : gmap string value) (updates : list (string * value)) (now : Time)
        (T : slice string) (t : Ticket) :
  spec.range_order m updates →
  m !! "tags" = Some (VStrings T) →
  Update db id updates now = (Ok t, db') →
  Tags t = slice_map utf8.coerced T
  ∧ (spec.valid_tags T → Tags t = T)
  ∧ ∃ r', tickets db' !! id = Some r' ∧ tags r' = Some (json.Marshal T).
Proof.
  intros Hp Htags H.
  assert (("tags", VStrings T) ∈ recognized_entries updates) as Hin.
  { apply recognized_entries_elem. split; [reflexivity|].
    apply (range_order_elem m); assumption. }
  destruct (Update_cases db id updates now)
    as [[_ E]|[(_ & E & _)|(_ & _ & E)]].
  { rewrite E in H. discriminate. }
  { rewrite E in Hin. inversion Hin. }
  rewrite E in H.
  apply updated_ok in H as (r & r1 & ticket & js & Hr & Hr1 & -> & Hs & Hu).
  assert (NoDup (recognized_entries updates).*1) as Hnd.
  { apply recognized_entries_NoDup. apply (range_order_NoDup m). exact Hp. }
  destruct (assign_fields_same _ r r1 "tags" (VStrings T) Hnd Hin Hr1) as (s & Hs' & Hg).
  cbn in Hs'. injection Hs' as <-. cbn in Hg.
  unfold scan in Hs. cbn [tags set_updated_at] in Hs. rewrite Hg in Hs.
  injection Hs as <- <-. rewrite unmarshal_Marshal_tags in Hu. injection Hu as <-.
  cbn [Tags with_Tags]. split_and!.
  - reflexivity.
  - apply slice_map_coerced_valid.
  - exists (set_updated_at now r1). cbn [tickets with_tickets].
    rewrite lookup_insert_eq. split; [reflexivity | exact Hg].
Qed.

(** *** Create and Delete *)

(** [Create] never overwrites: every stored row is still there, unchanged,
    after a [Create], whatever it returns. With an id that is already stored
    it fails and leaves the store as it was, as it does whenever it returns
    an error; when it returns a ticket the id was not stored before and
    every other id reads as before. It never panics. *)
Theorem Create_never_overwrites (db : DB) (ticket : Ticket) :
  (∀ id r, tickets db !! id = Some r →
     tickets (Create db ticket).2 !! id = Some r)
  ∧ (∀ r, tickets db !! ID ticket = Some r →
       Create db ticket = (Err (ErrFailed "create ticket"), db))
  ∧ (∀ e, (Create db ticket).1 = Err e → (Create db ticket).2 = db)
  ∧ (Create db ticket).1 ≠ Panic
  ∧ (∀ t, (Create db ticket).1 = Ok t →
       tickets db !! ID ticket = None
       ∧ t = ticket
       ∧ ∀ id, id ≠ ID ticket →
           tickets (Create db ticket).2 !! id = tickets db !! id).
Proof.
  unfold Create, insert. fold (row_of_ticket ticket).
  destruct (tickets db !! ID ticket) as [r0|] eqn:El.
  { cbn [fst snd]. split_and!; try discriminate; trivial. }
  destruct (admits db (ID ticket) (row_of_ticket ticket)).
  2:{ cbn [fst snd]. split_and!; try discriminate; trivial. }
  cbn [fst snd tickets with_tickets]. split_and!; try discriminate.
  - intros id r Hr. rewrite lookup_insert_ne; [exact Hr | congruence].
  - intros t Ht. injection Ht as <-. split_and!; [reflexivity | destruct ticket; reflexivity |].
    intros id Hne. apply lookup_insert_ne. congruence.
Qed.

Lemma with_tickets_same db : with_tickets db (tickets db) = db.
Proof. destruct db; reflexivity. Qed.

(** [Delete] undoes [Create]: deleting the id of a ticket that [Create] has
    just stored succeeds and gives back the store [Create] started from. *)
Theorem Create_Delete_inverse (db db' : DB) (ticket created : Ticket) :
  Create db ticket = (Ok created, db') →
  Delete db' (ID created) = (None, db).
Proof.
  intros H. apply Create_ok in H as (Hl & _ & -> & ->).
  unfold Delete, delete_by_id. cbn [tickets with_tickets].
  rewrite lookup_insert_eq. cbn [Z.eqb]. f_equal.
  unfold with_tickets. cbn [admits tickets].
  rewrite delete_insert_id by exact Hl. destruct db; reflexivity.
Qed.

Lemma select_page_stored db limit offset rows id r :
  select_page db limit offset = Some rows → (id, r) ∈ rows →
  tickets db !! id = Some r.
Proof.
  unfold select_page. destruct (_ || _)%Z; [discriminate|].
  intros H; injection H as <-. intros Hin. apply elem_of_map_to_list.
  rewrite <- (merge_sort_Permutation newer_first).
  eapply elem_of_sublist; [exact Hin|].
  etransitivity; [apply sublist_take | apply sublist_drop].
Qed.

Lemma row_ticket_GetByID db id r t :
  tickets db !! id = Some r → row_ticket (id, r) = Ok t → GetByID db id = Ok t.
Proof.
  unfold GetByID, select_by_id, row_ticket. cbn [fst snd]. intros ->.
  destruct (scan id r) as [[ticket js]|]; [trivial | discriminate].
Qed.

Lemma List_rows db limit offset ts :
  List db limit offset = Ok ts →
  ∃ rows, select_page db limit offset = Some rows
    ∧ Forall2 (λ row t, row_ticket row = Ok t) rows ts.
Proof.
  unfold List. destruct (select_page db limit offset) as [rows|]; [|discriminate].
  intros H. apply list_rows_spec in H as (ts' & -> & HF). exists rows.
  split; [reflexivity | exact HF].
Qed.

(** After a [Delete], whatever it returned: the id is not found by
    [GetByID] nor by a second [Delete], which changes nothing; no page that
    [List] returns has a ticket with that id; and every other id reads
    as before. *)
Theorem Delete_only_that_ticket (db : DB) (id : string) :
  GetByID (Delete db id).2 id = Err (ErrNotFound id)
  ∧ Delete (Delete db id).2 id = (Some (ErrNotFound id), (Delete db id).2)
  ∧ (∀ id', id' ≠ id → GetByID (Delete db id).2 id' = GetByID db id')
  ∧ (∀ limit offset ts, List (Delete db id).2 limit offset = Ok ts →
       ∀ t, t ∈ ts → ID t ≠ id).
Proof.
  assert (tickets (Delete db id).2 !! id = None
          ∧ ∀ id', id' ≠ id → tickets (Delete db id).2 !! id' = tickets db !! id')
    as [Hgone Hother].
  { unfold Delete, delete_by_id. destruct (tickets db !! id) as [r|] eqn:El;
      cbn [Z.eqb snd tickets with_tickets].
    - split; [apply lookup_delete_eq|]. intros id' Hne. apply lookup_delete_ne. congruence.
    - split; [exact El | reflexivity]. }
  split_and!.
  - apply GetByID_missing. exact Hgone.
  - unfold Delete at 1, delete_by_id. rewrite Hgone. reflexivity.
  - intros id' Hne. unfold GetByID, select_by_id. rewrite (Hother id' Hne). reflexivity.
  - intros limit offset ts H t Ht Hid.
    apply List_rows in H as (rows & Hsel & HF).
    apply list_elem_of_lookup in Ht as [k Hk].
    destruct (Forall2_lookup_r _ _ _ _ _ HF Hk) as ([id0 r0] & Hrow & Hrt).
    apply row_ticket_fields in Hrt as [Hid0 _]. cbn [fst] in Hid0.
    apply list_elem_of_lookup_2 in Hrow.
    apply (select_page_stored _ _ _ _ _ _ Hsel) in Hrow. congruence.
Qed.

(** *** List *)

Lemma list_rows_outcome rows : ∀ acc,
  (∃ ts, list_rows rows acc = Ok ts)
  ∨ (∃ what, list_rows rows acc = Err (ErrFailed what)).
Proof.
  induction rows as [|[id r] rows IH]; intros acc; cbn [list_rows].
  - left. eexists; reflexivity.
  - destruct (scan id r) as [[ticket js]|]; [|right; eexists; reflexivity].
    unfold unmarshal_tags. destruct (String.eqb js ""); [apply IH|].
    destruct (json.Unmarshal js); [apply IH | right; eexists; reflexivity].
Qed.

(** [List] is all or nothing, and agrees with [GetByID]. Every ticket of a
    page that [List] returns is the ticket [GetByID] returns for its id. A
    single stored ticket that [GetByID] cannot read makes every page that
    covers the whole table fail, at the repository and at the dispatcher:
    no partial list is returned. *)
Theorem List_all_or_nothing (db : DB) :
  (∀ limit offset ts, List db limit offset = Ok ts →
     ∀ t, t ∈ ts → GetByID db (ID t) = Ok t)
  ∧ (∀ id r, tickets db !! id = Some r → (∀ t, GetByID db id ≠ Ok t) →
       (∀ limit, (size (tickets db) ≤ Z.to_nat limit)%nat →
          ∃ what, List db limit 0 = Err (ErrFailed what))
       ∧ (∀ page_size,
            (size (tickets db) ≤ Z.to_nat (server.page_limit page_size))%nat →
            ∃ what, server.ListTickets db page_size = Err (ErrFailed what))).
Proof.
  split.
  - intros limit offset ts H t Ht.
    apply List_rows in H as (rows & Hsel & HF).
    apply list_elem_of_lookup in Ht as [k Hk].
    destruct (Forall2_lookup_r _ _ _ _ _ HF Hk) as ([id0 r0] & Hrow & Hrt).
    pose proof (row_ticket_fields _ _ Hrt) as [Hid0 _]. cbn [fst] in Hid0.
    apply list_elem_of_lookup_2 in Hrow.
    apply (select_page_stored _ _ _ _ _ _ Hsel) in Hrow.
    rewrite Hid0. apply (row_ticket_GetByID _ _ r0); assumption.
  - intros id r Hr Hbad.
    assert (∀ limit, (size (tickets db) ≤ Z.to_nat limit)%nat →
              ∃ what, List db limit 0 = Err (ErrFailed what)) as HList.
    { intros limit Hsize. unfold List.
      destruct (select_page db limit 0) as [rows|] eqn:Hsel; [|eexists; reflexivity].
      destruct (list_rows_outcome rows []) as [[ts Hts]|Herr]; [|exact Herr].
      exfalso. apply list_rows_spec in Hts as (ts' & _ & HF).
      assert ((id, r) ∈ rows) as Hin.
      { unfold select_page in Hsel. destruct (_ || _)%Z; [discriminate|].
        injection Hsel as <-. cbn [Z.to_nat]. rewrite drop_0.
        rewrite take_ge.
        - rewrite merge_sort_Permutation. apply elem_of_map_to_list. exact Hr.
        - rewrite merge_sort_Permutation, length_map_to_list. exact Hsize. }
      apply list_elem_of_lookup in Hin as [k Hk].
      destruct (Forall2_lookup_l _ _ _ _ _ HF Hk) as (t & _ & Hrt).
      apply (Hbad t). apply (row_ticket_GetByID _ _ r); assumption. }
    split; [exact HList|].
    intros page_size Hsize. unfold server.ListTickets, server.page_offset. cbv zeta.
    destruct (HList _ Hsize) as [what ->]. eexists; reflexivity.
Qed.

Lemma filter_none {A} (P : A → Prop) `{∀ x, Decision (P x)} (l : list A) :
  Forall (λ x, ¬ P x) l → filter P l = [].
Proof.
  induction 1 as [|x l Hx _ IH]; [reflexivity|].
  rewrite filter_cons. destruct (decide (P x)); [contradiction | exact IH].
Qed.

Lemma sorted_newer (l : list (string * Row)) :
  StronglySorted newer_first l → NoDup ((λ kv, created_at kv.2) <$> l) →
  ∀ i x, l !! i = Some x →
    filter (λ kv : string * Row, (created_at x.2 < created_at kv.2)%Z) l = take i l.
Proof.
  induction 1 as [|a l Hs IH Hall]; intros Hnd i x Hx; [discriminate|].
  cbn [fmap list_fmap] in Hnd. apply NoDup_cons in Hnd as [Hnotin Hnd].
  rewrite filter_cons. destruct i as [|j]; cbn [lookup list_lookup take firstn] in *.
  - injection Hx as <-. destruct (decide _) as [Hlt|_]; [lia|].
    apply filter_none. eapply Forall_impl; [exact Hall|].
    intros y Hy. unfold newer_first in Hy. lia.
  - assert (x ∈ l) as Hin by (eapply list_elem_of_lookup_2; exact Hx).
    rewrite Forall_forall in Hall. pose proof (Hall x Hin) as Hle.
    unfold newer_first in Hle.
    assert (created_at a.2 ≠ created_at x.2) as Hne.
    { intros E. apply Hnotin. rewrite E.
      apply list_elem_of_fmap. exists x. split; [reflexivity | exact Hin]. }
    destruct (decide _) as [_|Hn]; [|lia].
    f_equal. apply IH; assumption.
Qed.

(** Pages by rank. On a table whose tickets have pairwise different
    creation times, a page that [List] returns for a limit and an offset
    has as many tickets as the limit allows and the table has left after
    the offset, and its k-th ticket (counting from zero) is the stored
    ticket with exactly offset + k stored tickets newer than it. So
    consecutive pages neither overlap nor leave a ticket out. *)
Theorem List_rank (db : DB) (limit offset : Z) (ts : list Ticket) :
  (∀ id1 id2 r1 r2,
     tickets db !! id1 = Some r1 → tickets db !! id2 = Some r2 →
     created_at r1 = created_at r2 → id1 = id2) →
  List db limit offset = Ok ts →
  length ts
  = Nat.min (Z.to_nat limit) (size (tickets db) - Z.to_nat offset)
  ∧ ∀ k t, ts !! k = Some t →
      GetByID db (ID t) = Ok t
      ∧ newer_than db (CreatedAt t) = (Z.to_nat offset + k)%nat.
Proof.
  intros Hdistinct H.
  pose proof (List_rows _ _ _ _ H) as (rows & Hsel & HF).
  pose proof Hsel as Hrows. unfold select_page in Hrows.
  destruct (_ || _)%Z; [discriminate|]. injection Hrows as Hrows.
  set (sorted := merge_sort newer_first (map_to_list (tickets db))) in *.
  assert (sorted ≡ₚ map_to_list (tickets db)) as Hperm
    by apply merge_sort_Permutation.
  split.
  - rewrite <- (Forall2_length _ _ _ HF), <- Hrows.
    rewrite length_take, length_drop, Hperm, length_map_to_list. reflexivity.
  - intros k t Hk.
    destruct (Forall2_lookup_r _ _ _ _ _ HF Hk) as ([id0 r0] & Hrow & Hrt).
    pose proof (row_ticket_fields _ _ Hrt) as [Hid Hc]. cbn [fst snd] in Hid, Hc.
    split.
    { rewrite Hid. apply (row_ticket_GetByID _ _ r0); [|exact Hrt].
      apply (select_page_stored _ _ _ _ _ _ Hsel).
      eapply list_elem_of_lookup_2. exact Hrow. }
    rewrite <- Hrows in Hrow. apply lookup_take_Some in Hrow as [Hrow _].
    rewrite lookup_drop in Hrow.
    unfold newer_than. rewrite <- Hperm, Hc.
    change (created_at r0) with (created_at (id0, r0).2).
    rewrite (sorted_newer sorted) with (i := (Z.to_nat offset + k)%nat).
    + rewrite length_take. apply lookup_lt_Some in Hrow. lia.
    + apply sorted_all.
    + apply NoDup_fmap_2_strong.
      * intros [i1 x1] [i2 x2] H1 H2 E. cbn [snd] in E.
        rewrite Hperm in H1, H2.
        apply elem_of_map_to_list in H1, H2.
        pose proof (Hdistinct _ _ _ _ H1 H2 E) as ->. congruence.
      * rewrite Hperm. apply NoDup_map_to_list.
    + exact Hrow.
Qed.

(** ** The dispatcher: what a client observes *)

Lemma lookup_cond_insert (b : bool) (k : string) (v : value)
      (m : gmap string value) (c : string) :
  (if b then <[k := v]> m else m) !! c
  = if b && String.eqb c k then Some v else m !! c.
Proof.
  destruct b; cbn [andb]; [|reflexivity].
  destruct (String.eqb_spec c k) as [->|Hne].
  - apply lookup_insert_eq.
  - apply lookup_insert_ne. congruence.
Qed.

Lemma lookup_insert_eqb (k : string) (v : value) (m : gmap string value)
      (c : string) :
  (<[k := v]> m) !! c = if String.eqb c k then Some v else m !! c.
Proof. apply (lookup_cond_insert true). Qed.

Lemma build_updates_lookup req c :
  server.build_updates req !! c = requested req c.
Proof.
  unfold server.build_updates, requested. cbv zeta.
  generalize (String.eqb (ticketpb.update_Title req) "");
    generalize (String.eqb (ticketpb.update_Description req) "");
    generalize (String.eqb (ticketpb.update_AssigneeId req) "");
    generalize (0 <? len (ticketpb.update_Tags req))%nat.
  intros b4 b3 b2 b1.
  destruct (ticketpb.update_Status req), (ticketpb.update_Priority req);
    repeat first [rewrite lookup_cond_insert | rewrite lookup_insert_eqb
                 | rewrite lookup_empty];
    (destruct (String.eqb_spec c "title") as [->|?];
       [destruct b1, b2, b3, b4; reflexivity|]);
    (destruct (String.eqb_spec c "description") as [->|?];
       [destruct b1, b2, b3, b4; reflexivity|]);
    (destruct (String.eqb_spec c "status") as [->|?];
       [destruct b1, b2, b3, b4; reflexivity|]);
    (destruct (String.eqb_spec c "priority") as [->|?];
       [destruct b1, b2, b3, b4; reflexivity|]);
    (destruct (String.eqb_spec c "assignee_id") as [->|?];
       [destruct b1, b2, b3, b4; reflexivity|]);
    (destruct (String.eqb_spec c "tags") as [->|?];
       [destruct b1, b2, b3, b4; reflexivity|]);
    destruct b1, b2, b3, b4; reflexivity.
Qed.

Lemma requested_recognized req c v :
  requested req c = Some v → spec.recognized c = true.
Proof.
  unfold requested, spec.recognized, is_text_field.
  repeat (destruct (String.eqb c _); [reflexivity|]). discriminate.
Qed.

(** [UpdateTicket] never panics. The repository's [Update] panics on a
    mapping that binds [tags] to a string; the mapping [UpdateTicket] builds
    binds [tags] to the request's tag sequence only, so for every request
    and every store [UpdateTicket] returns a ticket or an error. *)
Theorem UpdateTicket_never_panics (db : DB) (now : Time)
        (req : ticketpb.UpdateTicketRequest) :
  (server.UpdateTicket db now req).1 ≠ Panic
  ∧ (Update db (ticketpb.update_Id req)
       (map_to_list (server.build_updates req)) now).1 ≠ Panic
  ∧ ∀ s, server.build_updates req !! "tags" ≠ Some (VString s).
Proof.
  assert ((Update db (ticketpb.update_Id req)
             (map_to_list (server.build_updates req)) now).1 ≠ Panic) as H.
  { destruct (Update_cases db (ticketpb.update_Id req)
                (map_to_list (server.build_updates req)) now)
      as [[Hex _]|[(_ & _ & ->)|(_ & _ & ->)]].
    - exfalso. apply Exists_exists in Hex as (kv & Hkv & Hfalse).
      pose proof (fits_all_no_panic _ (build_updates_range req)) as Hok.
      rewrite Forall_forall in Hok. rewrite (Hok kv Hkv) in Hfalse. discriminate.
    - apply GetByID_no_panic.
    - apply updated_no_panic. }
  split_and!.
  - unfold server.UpdateTicket. cbv zeta.
    destruct (Update _ _ _ _) as [[t|e|] db']; [discriminate | discriminate |].
    exfalso. apply H. reflexivity.
  - exact H.
  - intros s. rewrite build_updates_lookup. unfold requested.
    cbn [String.eqb Ascii.eqb Bool.eqb].
    destruct (0 <? len (ticketpb.update_Tags req))%nat; discriminate.
Qed.

Lemma recognized_entries_build req :
  recognized_entries (map_to_list (server.build_updates req)) = []
  ↔ server.build_updates req = ∅.
Proof.
  split.
  - intros E. apply map_empty. intros c.
    destruct (server.build_updates req !! c) as [v|] eqn:El; [|reflexivity].
    exfalso. assert ((c, v) ∈ recognized_entries (map_to_list (server.build_updates req))) as Hin.
    { apply recognized_entries_elem. split.
      - rewrite build_updates_lookup in El. exact (requested_recognized _ _ _ El).
      - apply elem_of_map_to_list. exact El. }
    rewrite E in Hin. inversion Hin.
  - intros ->. rewrite map_to_list_empty. reflexivity.
Qed.

Lemma UpdateTicket_row db db' now req r t :
  tickets db !! ticketpb.update_Id req = Some r →
  server.UpdateTicket db now req = (Ok t, db') →
  ∃ r', tickets db' !! ticketpb.update_Id req = Some r'
    ∧ server.GetTicket db' (ticketpb.update_Id req) = Ok t
    ∧ created_at r' = created_at r ∧ reporter_id r' = reporter_id r
    ∧ updated_at r'
      = (if decide (server.build_updates req = ∅) then updated_at r else now)
    ∧ ∀ c, spec.recognized c = true →
        get_column c r'
        = match requested req c with
          | Some v =>
            match spec.arg_for (c, v) with
            | ArgString s => Some s
            | _ => None
            end
          | None => get_column c r
          end.
Proof.
  intros Hr H. unfold server.UpdateTicket in H. cbv zeta in H.
  set (id := ticketpb.update_Id req) in *.
  set (updates := map_to_list (server.build_updates req)) in *.
  destruct (Update db id updates now) as [[u|e|] db1] eqn:Hu; try discriminate.
  injection H as <- <-.
  assert (spec.range_order (server.build_updates req) updates) as Hp
    by (unfold spec.range_order; reflexivity).
  destruct (Update_cases db id updates now)
    as [[_ E]|[(_ & Hnone & E)|(_ & Hsome & E)]]; rewrite E in Hu.
  - discriminate.
  - injection Hu as Hget <-. exists r.
    apply recognized_entries_build in Hnone.
    split_and!; trivial.
    + unfold server.GetTicket. rewrite Hget. reflexivity.
    + rewrite decide_True by exact Hnone. reflexivity.
    + intros c _. rewrite <- build_updates_lookup, Hnone, lookup_empty. reflexivity.
  - apply updated_ok in Hu as (r0 & r1 & ticket & js & Hr0 & Hr1 & -> & Hs & Hun).
    assert (r0 = r) as -> by congruence.
    exists (set_updated_at now r1). cbn [tickets with_tickets].
    assert (NoDup (recognized_entries updates).*1) as Hnd.
    { apply recognized_entries_NoDup.
      apply (range_order_NoDup (server.build_updates req)). exact Hp. }
    split_and!.
    + apply lookup_insert_eq.
    + unfold server.GetTicket, GetByID, select_by_id. cbn [tickets with_tickets].
      rewrite lookup_insert_eq, Hs, Hun. reflexivity.
    + apply (assign_fields_other _ _ _ "reporter_id" Hr1). intros Hin.
      apply recognized_entries_keys in Hin as [_ Hrec]. discriminate Hrec.
    + assert (get_column "reporter_id" r1 = get_column "reporter_id" r) as Hg.
      { apply (assign_fields_other _ _ _ "reporter_id" Hr1). intros Hin.
        apply recognized_entries_keys in Hin as [_ Hrec]. discriminate Hrec. }
      cbn in Hg. injection Hg as Hg. exact Hg.
    + rewrite decide_False; [reflexivity|]. intros Hempty.
      apply Hsome. apply recognized_entries_build. exact Hempty.
    + intros c Hrec.
      change (get_column c (set_updated_at now r1)) with (get_column c r1).
      rewrite <- build_updates_lookup.
      destruct (server.build_updates req !! c) as [v|] eqn:El.
      * destruct (assign_fields_same _ r r1 c v Hnd) as (s & -> & Hg); trivial.
        apply recognized_entries_elem. split; [exact Hrec|].
        apply elem_of_map_to_list. exact El.
      * apply (assign_fields_other _ _ _ c Hr1). intros Hin.
        apply recognized_entries_keys in Hin as [Hin _].
        destruct (range_order_keys _ _ c Hp Hin) as [v Hv]. congruence.
Qed.

(** What [UpdateTicket] writes. When [UpdateTicket] returns a ticket for a
    stored id, each attribute of the stored row is the request's value if
    the request sets it and the old value otherwise, where a request sets a
    text attribute by a non-empty string, the status or the priority by a
    value other than UNSPECIFIED and the tags by a non-empty sequence: an
    attribute cannot be cleared, and a status or priority number without a
    name is stored as OPEN, respectively MEDIUM. created_at and
    reporter_id are kept; updated_at is the time of the call unless the
    request sets nothing; and [GetTicket] then returns the same ticket. *)
Theorem UpdateTicket_fields (db db' : DB) (now : Time)
        (req : ticketpb.UpdateTicketRequest) (r : Row) (t : ticketpb.Ticket) :
  tickets db !! ticketpb.update_Id req = Some r →
  server.UpdateTicket db now req = (Ok t, db') →
  ∃ r', tickets db' !! ticketpb.update_Id req = Some r'
    ∧ title r'
      = (if String.eqb (ticketpb.update_Title req) "" then title r
         else ticketpb.update_Title req)
    ∧ description r'
      = (if String.eqb (ticketpb.update_Description req) "" then description r
         else Some (ticketpb.update_Description req))
    ∧ status r'
      = match ticketpb.update_Status req with
        | ticketpb.TICKET_STATUS_UNSPECIFIED => status r
        | ticketpb.TICKET_STATUS_IN_PROGRESS => "IN_PROGRESS"
        | ticketpb.TICKET_STATUS_RESOLVED => "RESOLVED"
        | ticketpb.TICKET_STATUS_CLOSED => "CLOSED"
        | _ => "OPEN"
        end
    ∧ priority r'
      = match ticketpb.update_Priority req with
        | ticketpb.TICKET_PRIORITY_UNSPECIFIED => priority r
        | ticketpb.TICKET_PRIORITY_LOW => "LOW"
        | ticketpb.TICKET_PRIORITY_HIGH => "HIGH"
        | ticketpb.TICKET_PRIORITY_CRITICAL => "CRITICAL"
        | _ => "MEDIUM"
        end
    ∧ assignee_id r'
      = (if String.eqb (ticketpb.update_AssigneeId req) "" then assignee_id r
         else Some (ticketpb.update_AssigneeId req))
    ∧ tags r'
      = (if (0 <? len (ticketpb.update_Tags req))%nat
         then Some (json.Marshal (ticketpb.update_Tags req)) else tags r)
    ∧ created_at r' = created_at r ∧ reporter_id r' = reporter_id r
    ∧ updated_at r'
      = (if decide (server.build_updates req = ∅) then updated_at r else now)
    ∧ server.GetTicket db' (ticketpb.update_Id req) = Ok t.
Proof.
  intros Hr H.
  destruct (UpdateTicket_row db db' now req r t Hr H)
    as (r' & Hr' & Hget & Hc & Hrep & Hu & Hcol).
  exists r'. split_and!; trivial.
  - specialize (Hcol "title" eq_refl). unfold requested in Hcol. cbn in Hcol.
    destruct (String.eqb (ticketpb.update_Title req) ""); cbn in Hcol; congruence.
  - specialize (Hcol "description" eq_refl). unfold requested in Hcol. cbn in Hcol.
    destruct (String.eqb (ticketpb.update_Description req) ""); cbn in Hcol; congruence.
  - specialize (Hcol "status" eq_refl). unfold requested in Hcol. cbn in Hcol.
    destruct (ticketpb.update_Status req); cbn in Hcol; congruence.
  - specialize (Hcol "priority" eq_refl). unfold requested in Hcol. cbn in Hcol.
    destruct (ticketpb.update_Priority req); cbn in Hcol; congruence.
  - specialize (Hcol "assignee_id" eq_refl). unfold requested in Hcol. cbn in Hcol.
    destruct (String.eqb (ticketpb.update_AssigneeId req) ""); cbn in Hcol; congruence.
  - specialize (Hcol "tags" eq_refl). unfold requested in Hcol.
    cbn [String.eqb Ascii.eqb Bool.eqb get_column] in Hcol.
    destruct (0 <? len (ticketpb.update_Tags req))%nat; [|exact Hcol].
    unfold spec.arg_for in Hcol. cbn [fst snd String.eqb Ascii.eqb Bool.eqb] in Hcol.
    exact Hcol.
Qed.

(** What [CreateTicket] answers is what [GetTicket] answers afterwards:
    the same id, title, description, status, priority, assignee and
    timestamps, and the same tags up to the replacement of invalid bytes by
    U+FFFD; for tags that are valid UTF-8 the two tickets are equal. The
    response of [CreateTicket] itself carries the request's title,
    description, assignee and tags as they were sent. *)
Theorem CreateTicket_then_GetTicket (db db' : DB) (id : string)
        (now1 now2 : Time) (req : ticketpb.CreateTicketRequest)
        (t : ticketpb.Ticket) :
  server.CreateTicket db id now1 now2 req = (Ok t, db') →
  server.GetTicket db' id
  = Ok (with_wire_tags t (slice_map utf8.coerced (ticketpb.create_Tags req)))
  ∧ (spec.valid_tags (ticketpb.create_Tags req) → server.GetTicket db' id = Ok t)
  ∧ ticketpb.Id t = id
  ∧ ticketpb.Title t = ticketpb.create_Title req
  ∧ ticketpb.Description t = ticketpb.create_Description req
  ∧ ticketpb.AssigneeId t = ticketpb.create_AssigneeId req
  ∧ ticketpb.Tags t = ticketpb.create_Tags req.
Proof.
  intros H. apply CreateTicket_ok in H. cbv zeta in H.
  destruct H as (_ & _ & -> & ->).
  assert (server.GetTicket
            (with_tickets db
               (<[id := row_of_ticket (server.new_dbTicket id now1 now2 req)]>
                  (tickets db))) id
          = Ok (with_wire_tags
                  (server.dbTicketToProto (server.new_dbTicket id now1 now2 req))
                  (slice_map utf8.coerced (ticketpb.create_Tags req)))) as Hget.
  { unfold server.GetTicket, GetByID, select_by_id. cbn [tickets with_tickets].
    rewrite lookup_insert_eq. unfold scan, row_of_ticket. cbn [tags].
    rewrite unmarshal_Marshal_tags.
    unfold server.dbTicketToProto, with_wire_tags, with_Tags, server.new_dbTicket.
    cbn. destruct (String.eqb (ticketpb.create_Description req) "") eqn:Ed,
           (String.eqb (ticketpb.create_AssigneeId req) "") eqn:Ea; cbn;
      try (apply String.eqb_eq in Ed; rewrite Ed);
      try (apply String.eqb_eq in Ea; rewrite Ea); reflexivity. }
  split_and!.
  - exact Hget.
  - intros Hvalid. rewrite Hget. rewrite (slice_map_coerced_valid _ Hvalid).
    f_equal.
  - reflexivity.
  - reflexivity.
  - cbn. destruct (String.eqb (ticketpb.create_Description req) "") eqn:Ed; cbn;
      [apply String.eqb_eq in Ed; congruence | reflexivity].
  - cbn. destruct (String.eqb (ticketpb.create_AssigneeId req) "") eqn:Ea; cbn;
      [apply String.eqb_eq in Ea; congruence | reflexivity].
  - reflexivity.
Qed.

(** ** The configuration of [main] *)

Lemma getEnv_nonempty env key fallback :
  fallback ≠ "" → server.getEnv env key fallback ≠ "".
Proof.
  intros Hf. unfold server.getEnv. cbv zeta.
  destruct (String.eqb_spec (server.Getenv env key) ""); cbn [negb]; assumption.
Qed.

Lemma getEnv_empty env key fallback :
  server.getEnv (<[key := ""]> env) key fallback = fallback.
Proof.
  unfold server.getEnv, server.Getenv. rewrite lookup_insert_eq. reflexivity.
Qed.

Lemma getEnv_other env key key' v fallback :
  key' ≠ key →
  server.getEnv (<[key := v]> env) key' fallback = server.getEnv env key' fallback.
Proof.
  intros Hne. unfold server.getEnv, server.Getenv.
  rewrite lookup_insert_ne by congruence. reflexivity.
Qed.

Lemma getEnv_delete env key key' fallback :
  server.getEnv (delete key env) key' fallback
  = if String.eqb key' key then fallback else server.getEnv env key' fallback.
Proof.
  unfold server.getEnv, server.Getenv.
  destruct (String.eqb_spec key' key) as [->|Hne].
  - rewrite lookup_delete_eq. reflexivity.
  - rewrite lookup_delete_ne by congruence. reflexivity.
Qed.

Lemma getEnv_insert_empty env key key' fallback :
  server.getEnv (<[key := ""]> env) key' fallback
  = server.getEnv (delete key env) key' fallback.
Proof.
  rewrite getEnv_delete. destruct (String.eqb_spec key' key) as [->|Hne].
  - apply getEnv_empty.
  - apply getEnv_other. exact Hne.
Qed.

(** The configuration [main] reads from the environment. A variable set to
    the empty string counts as not set: the configuration and the listen
    address are those of the environment without it. No field of the
    configuration is ever empty, and the listen address always names a
    port. With none of the six database variables set the data source name
    is the one of the defaults. *)
Theorem main_config (env : gmap string string) :
  (∀ key, server.dbConfig (<[key := ""]> env) = server.dbConfig (delete key env)
          ∧ server.listen_address (<[key := ""]> env)
            = server.listen_address (delete key env))
  ∧ (Host (server.dbConfig env) ≠ "" ∧ Port (server.dbConfig env) ≠ ""
     ∧ User (server.dbConfig env) ≠ "" ∧ Password (server.dbConfig env) ≠ ""
     ∧ DBName (server.dbConfig env) ≠ "" ∧ SSLMode (server.dbConfig env) ≠ ""
     ∧ server.listen_address env ≠ ":")
  ∧ ((∀ key, key ∈ ["DB_HOST"; "DB_PORT"; "DB_USER"; "DB_PASSWORD"; "DB_NAME";
                    "DB_SSLMODE"] → env !! key = None ∨ env !! key = Some "") →
     dsn (server.dbConfig env)
     = "host=localhost port=5432 user=ayushpandya password=postgres dbname=ticketdb sslmode=disable").
Proof.
  split_and!.
  - intros key. unfold server.dbConfig, server.listen_address.
    rewrite !getEnv_insert_empty. split; reflexivity.
  - apply getEnv_nonempty. discriminate.
  - apply getEnv_nonempty. discriminate.
  - apply getEnv_nonempty. discriminate.
  - apply getEnv_nonempty. discriminate.
  - apply getEnv_nonempty. discriminate.
  - apply getEnv_nonempty. discriminate.
  - unfold server.listen_address. intros E.
    assert (server.getEnv env "GRPC_PORT" "50051" ≠ "") as Hne
      by (apply getEnv_nonempty; discriminate).
    destruct (server.getEnv env "GRPC_PORT" "50051"); [congruence | discriminate E].
  - intros Hunset.
    assert (∀ key fallback,
              key ∈ ["DB_HOST"; "DB_PORT"; "DB_USER"; "DB_PASSWORD"; "DB_NAME";
                     "DB_SSLMODE"] → server.getEnv env key fallback = fallback) as Hdef.
    { intros key fallback Hin. unfold server.getEnv, server.Getenv.
      destruct (Hunset key Hin) as [-> | ->]; reflexivity. }
    unfold server.dbConfig, dsn. cbn [Host Port User Password DBName SSLMode].
    rewrite !Hdef by (rewrite !elem_of_cons; tauto). reflexivity.
Qed.

(** ** A created ticket in the listing *)

Lemma row_ticket_created id now1 now2 req :
  ∃ tk, row_ticket (id, row_of_ticket (server.new_dbTicket id now1 now2 req)) = Ok tk
    ∧ server.dbTicketToProto tk
      = with_wire_tags
          (server.dbTicketToProto (server.new_dbTicket id now1 now2 req))
          (slice_map utf8.coerced (ticketpb.create_Tags req)).
Proof.
  unfold row_ticket, scan, row_of_ticket. cbn [fst snd tags].
  rewrite unmarshal_Marshal_tags. eexists. split; [reflexivity|].
  unfold server.dbTicketToProto, with_wire_tags, with_Tags, server.new_dbTicket.
  cbn. destruct (String.eqb (ticketpb.create_Description req) "") eqn:Ed,
         (String.eqb (ticketpb.create_AssigneeId req) "") eqn:Ea; cbn;
    try (apply String.eqb_eq in Ed; rewrite Ed);
    try (apply String.eqb_eq in Ea; rewrite Ea); reflexivity.
Qed.

Lemma newest_is_head (l : list (string * Row)) (x : string * Row) :
  StronglySorted newer_first l → x ∈ l →
  (∀ y, y ∈ l → y = x ∨ (created_at y.2 < created_at x.2)%Z) →
  ∃ rest, l = x :: rest.
Proof.
  intros Hs Hin Hnew. destruct Hs as [|a l Hs Hall]; [inversion Hin|].
  destruct (Hnew a) as [->|Hlt]; [apply list_elem_of_here | eauto |].
  exfalso. apply elem_of_cons in Hin as [->|Hin]; [lia|].
  rewrite Forall_forall in Hall. specialize (Hall x Hin).
  unfold newer_first in Hall. lia.
Qed.

(** A new ticket is listed first. After a [CreateTicket] whose creation
    time is later than that of every ticket stored before, every list that
    [ListTickets] returns starts with the created ticket, as [GetTicket]
    returns it. *)
Theorem CreateTicket_listed_first (db db' : DB) (id : string)
        (now1 now2 : Time) (req : ticketpb.CreateTicketRequest)
        (t : ticketpb.Ticket) (page_size : Z) (ts : list ticketpb.Ticket) :
  server.CreateTicket db id now1 now2 req = (Ok t, db') →
  (∀ id' r, tickets db !! id' = Some r → (created_at r < now1)%Z) →
  server.ListTickets db' page_size = Ok ts →
  ∃ first rest, ts = first :: rest
    ∧ server.GetTicket db' id = Ok first
    ∧ first = with_wire_tags t (slice_map utf8.coerced (ticketpb.create_Tags req)).
Proof.
  intros H Hold Hlist. apply CreateTicket_ok in H. cbv zeta in H.
  destruct H as (Hfresh & _ & -> & ->).
  set (row := row_of_ticket (server.new_dbTicket id now1 now2 req)) in *.
  set (db' := with_tickets db (<[id := row]> (tickets db))) in *.
  destruct (row_ticket_created id now1 now2 req) as (tk & Htk & Hproto).
  fold row in Htk.
  apply ListTickets_ok in Hlist as (tickets & -> & HF).
  assert (∃ rest, page db' page_size = (id, row) :: rest) as [rest Hpage].
  { unfold page.
    destruct (newest_is_head (merge_sort newer_first (map_to_list (sqldb.tickets db')))
                (id, row)) as [rest Hsorted].
    - apply sorted_all.
    - rewrite merge_sort_Permutation. apply elem_of_map_to_list.
      unfold db'. cbn [sqldb.tickets with_tickets]. apply lookup_insert_eq.
    - intros [id' r'] Hin. rewrite merge_sort_Permutation in Hin.
      apply elem_of_map_to_list in Hin. unfold db' in Hin.
      cbn [sqldb.tickets with_tickets] in Hin.
      apply lookup_insert_Some in Hin as [[<- <-]|[Hne Hr']]; [left; reflexivity|].
      right. cbn [snd]. apply (Hold id' r' Hr').
    - rewrite Hsorted. pose proof (page_limit_range page_size) as Hlim.
      destruct (Z.to_nat (server.page_limit page_size)) as [|n] eqn:En; [lia|].
      cbn [take firstn]. eauto. }
  rewrite Hpage in HF. inversion HF as [|row0 t0 rows0 tickets0 Hrow0 Hrest]; subst.
  assert (t0 = tk) as -> by congruence.
  exists (server.dbTicketToProto tk), (map server.dbTicketToProto tickets0).
  split_and!; [reflexivity | | exact Hproto].
  unfold server.GetTicket.
  rewrite (row_ticket_GetByID db' id row tk); [reflexivity | | exact Htk].
  unfold db'. cbn [sqldb.tickets with_tickets]. apply lookup_insert_eq.
Qed.

Lemma sorted_newer_le (l : list (string * Row)) :
  StronglySorted newer_first l →
  ∀ i x, l !! i = Some x →
    (length (filter (λ kv : string * Row, (created_at x.2 < created_at kv.2)%Z) l)
     ≤ i)%nat.
Proof.
  induction 1 as [|a l Hs IH Hall]; intros i x Hx; [discriminate|].
  rewrite filter_cons. destruct i as [|j]; cbn [lookup list_lookup] in Hx.
  - injection Hx as <-. destruct (decide _) as [Hlt|_]; [lia|].
    rewrite filter_none; [reflexivity|].
    eapply Forall_impl; [exact Hall|]. intros y Hy. unfold newer_first in Hy. lia.
  - specialize (IH j x Hx). destruct (decide _); cbn [length]; lia.
Qed.

(** Only the newest hundred can be listed. [ListTickets] ignores the page
    token and always reads from offset 0 with a limit of at most 100: a
    ticket it returns has fewer than 100 stored tickets newer than it, so a
    ticket with a hundred or more newer ones is out of reach of every
    request. *)
Theorem ListTickets_newest_hundred (db : DB) (page_size : Z)
        (ts : list ticketpb.Ticket) (t : ticketpb.Ticket) :
  server.ListTickets db page_size = Ok ts → t ∈ ts →
  (newer_than db (ticketpb.CreatedAt t) < Z.to_nat (server.page_limit page_size))%nat
  ∧ (newer_than db (ticketpb.CreatedAt t) < 100)%nat.
Proof.
  intros H Hin. apply ListTickets_ok in H as (tickets & -> & HF).
  apply list_elem_of_fmap in Hin as (tk & -> & Hin).
  apply list_elem_of_lookup in Hin as [k Hk].
  destruct (Forall2_lookup_r _ _ _ _ _ HF Hk) as (row & Hrow & Hrt).
  apply proto_fields in Hrt as [_ ->].
  unfold page in Hrow. apply lookup_take_Some in Hrow as [Hrow Hlt].
  pose proof (sorted_newer_le _ (sorted_all db) k row Hrow) as Hle.
  rewrite merge_sort_Permutation in Hle. fold (newer_than db (created_at row.2)) in Hle.
  pose proof (page_limit_range page_size). lia.
Qed.

(** ** Two updates in a row *)

Lemma row_ext r r' :
  (∀ c, get_column c r = get_column c r') →
  created_at r = created_at r' → updated_at r = updated_at r' → r = r'.
Proof.
  intros H Hc Hu.
  pose proof (H "title") as H1. pose proof (H "description") as H2.
  pose proof (H "status") as H3. pose proof (H "priority") as H4.
  pose proof (H "assignee_id") as H5. pose proof (H "tags") as H6.
  pose proof (H "reporter_id") as H7.
  destruct r, r'. cbn in *. congruence.
Qed.

Lemma assign_fields_updated_at fields : ∀ r r1,
  assign_fields fields r = Some r1 → updated_at r1 = updated_at r.
Proof.
  induction fields as [|kv fields IH]; intros r r1 H; cbn [assign_fields] in H.
  - injection H as <-. reflexivity.
  - destruct (assign kv.1 (spec.arg_for kv) r) as [r'|] eqn:E; [|discriminate].
    rewrite (IH _ _ H). unfold spec.arg_for in E.
    destruct kv.2 as [s|l].
    + eapply assign_updated_at. exact E.
    + destruct (String.eqb kv.1 "tags"); [eapply assign_updated_at; exact E|].
      discriminate E.
Qed.

Lemma get_column_changed m r c :
  spec.field_updates m →
  get_column c (changed m r)
  = match m !! c with
    | Some v =>
      if spec.recognized c then
        match spec.arg_for (c, v) with
        | ArgString s => Some s
        | _ => None
        end
      else get_column c r
    | None => get_column c r
    end.
Proof.
  intros Hm. unfold get_column, changed, spec.recognized, is_text_field, spec.arg_for.
  cbn [title description status priority assignee_id tags reporter_id fst snd].
  destruct (String.eqb_spec c "title") as [->|?].
  { destruct (m !! "title") as [v|] eqn:E; [|reflexivity].
    specialize (Hm _ _ E). destruct v; [reflexivity | discriminate Hm]. }
  destruct (String.eqb_spec c "description") as [->|?].
  { destruct (m !! "description") as [v|] eqn:E; [|reflexivity].
    specialize (Hm _ _ E). destruct v; [reflexivity | discriminate Hm]. }
  destruct (String.eqb_spec c "status") as [->|?].
  { destruct (m !! "status") as [v|] eqn:E; [|reflexivity].
    specialize (Hm _ _ E). destruct v; [reflexivity | discriminate Hm]. }
  destruct (String.eqb_spec c "priority") as [->|?].
  { destruct (m !! "priority") as [v|] eqn:E; [|reflexivity].
    specialize (Hm _ _ E). destruct v; [reflexivity | discriminate Hm]. }
  destruct (String.eqb_spec c "assignee_id") as [->|?].
  { destruct (m !! "assignee_id") as [v|] eqn:E; [|reflexivity].
    specialize (Hm _ _ E). destruct v; [reflexivity | discriminate Hm]. }
  destruct (String.eqb_spec c "tags") as [->|?].
  { destruct (m !! "tags") as [v|] eqn:E; [|reflexivity].
    specialize (Hm _ _ E). destruct v; [discriminate Hm | reflexivity]. }
  cbn [orb]. destruct (m !! c); reflexivity.
Qed.

Lemma assign_fields_changed m updates r :
  spec.field_updates m → spec.range_order m updates →
  assign_fields (recognized_entries updates) r = Some (changed m r).
Proof.
  intros Hm Hp.
  pose proof (field_updates_range m updates Hm Hp) as Hfits.
  destruct (assign_fields_fits (recognized_entries updates) r
              (recognized_entries_fits updates Hfits)) as [r1 Hr1].
  rewrite Hr1. f_equal.
  assert (NoDup (recognized_entries updates).*1) as Hnd.
  { apply recognized_entries_NoDup. apply (range_order_NoDup m). exact Hp. }
  apply row_ext.
  - intros c. rewrite (get_column_changed m r c Hm).
    destruct (m !! c) as [v|] eqn:El.
    + destruct (spec.recognized c) eqn:Hrec.
      * destruct (assign_fields_same _ r r1 c v Hnd) as (s & -> & Hg); trivial.
        apply recognized_entries_elem. split; [exact Hrec|].
        apply (range_order_elem m); assumption.
      * apply (assign_fields_other _ _ _ c Hr1). intros Hin.
        apply recognized_entries_keys in Hin as [_ Hrec']. congruence.
    + apply (assign_fields_other _ _ _ c Hr1). intros Hin.
      apply recognized_entries_keys in Hin as [Hin _].
      destruct (range_order_keys m updates c Hp Hin) as [v Hv]. congruence.
  - apply (assign_fields_other _ _ _ "" Hr1). intros Hin.
    apply recognized_entries_keys in Hin as [_ Hrec]. discriminate Hrec.
  - apply (assign_fields_updated_at _ _ _ Hr1).
Qed.

(** [Update] on a stored row, for a field-updates mapping with a recognized
    field and a store that accepts the new row. *)
Lemma Update_changed db id r m updates now :
  tickets db !! id = Some r →
  spec.field_updates m → spec.range_order m updates →
  recognized_entries updates ≠ [] →
  admits db id (set_updated_at now (changed m r)) = true →
  Update db id updates now
  = (match scan id (set_updated_at now (changed m r)) with
     | None => Err (ErrFailed "update ticket")
     | Some (ticket, tagsJSON) => unmarshal_tags ticket tagsJSON
     end,
     with_tickets db (<[id := set_updated_at now (changed m r)]> (tickets db))).
Proof.
  intros Hr Hm Hp Hne Hadm.
  pose proof (field_updates_range m updates Hm Hp) as Hfits.
  destruct (Update_cases db id updates now)
    as [[Hex _]|[(_ & E & _)|(_ & _ & E)]].
  { exfalso. apply Exists_exists in Hex as (kv & Hkv & Hfalse).
    pose proof (fits_all_no_panic updates Hfits) as Hok.
    rewrite Forall_forall in Hok. rewrite (Hok kv Hkv) in Hfalse. discriminate. }
  { contradiction. }
  rewrite E. unfold updated. rewrite (args_accepted updates Hfits). cbn [negb].
  rewrite Hr, (assign_fields_changed m updates r Hm Hp). cbv zeta.
  rewrite Hadm. reflexivity.
Qed.

Lemma changed_union m1 m2 r now :
  spec.field_updates m1 → spec.field_updates m2 →
  changed m2 (set_updated_at now (changed m1 r))
  = set_updated_at now (changed (m2 ∪ m1) r).
Proof.
  intros H1 H2. unfold changed, set_updated_at.
  cbn [title description status priority assignee_id tags created_at updated_at
       reporter_id].
  assert (∀ c, (m2 ∪ m1) !! c
               = match m2 !! c with Some v => Some v | None => m1 !! c end) as Hu.
  { intros c. rewrite lookup_union. destruct (m2 !! c), (m1 !! c); reflexivity. }
  rewrite !Hu.
  assert (∀ c v, m2 !! c = Some v → spec.fits c v = true) as F2 by exact H2.
  f_equal.
  - destruct (m2 !! "title") as [[s|l]|] eqn:E; try reflexivity.
    discriminate (F2 _ _ E).
  - destruct (m2 !! "description") as [[s|l]|] eqn:E; try reflexivity.
    discriminate (F2 _ _ E).
  - destruct (m2 !! "status") as [[s|l]|] eqn:E; try reflexivity.
    discriminate (F2 _ _ E).
  - destruct (m2 !! "priority") as [[s|l]|] eqn:E; try reflexivity.
    discriminate (F2 _ _ E).
  - destruct (m2 !! "assignee_id") as [[s|l]|] eqn:E; try reflexivity.
    discriminate (F2 _ _ E).
  - destruct (m2 !! "tags") as [[s|l]|] eqn:E; try reflexivity.
    discriminate (F2 _ _ E).
Qed.

Lemma changed_updated_at m r now :
  changed m (set_updated_at now r) = set_updated_at now (changed m r).
Proof. reflexivity. Qed.

Lemma field_updates_union m1 m2 :
  spec.field_updates m1 → spec.field_updates m2 → spec.field_updates (m2 ∪ m1).
Proof.
  intros H1 H2 c v Hl. apply lookup_union_Some_raw in Hl as [Hl|[_ Hl]].
  - exact (H2 _ _ Hl).
  - exact (H1 _ _ Hl).
Qed.

Lemma recognized_entries_some m updates c v :
  spec.range_order m updates → spec.recognized c = true → m !! c = Some v →
  recognized_entries updates ≠ [].
Proof.
  intros Hp Hrec Hl E.
  assert ((c, v) ∈ recognized_entries updates) as Hin.
  { apply recognized_entries_elem. split; [exact Hrec|].
    apply (range_order_elem m); assumption. }
  rewrite E in Hin. inversion Hin.
Qed.

(** Two updates in a row are one update. On a store that accepts every row,
    an [Update] of a stored ticket followed by a second [Update] of it,
    the second with a recognized field, returns the same and leaves the same
    store as the single [Update] with the two field-updates mappings
    merged, the second taking precedence, at the time of the second. In
    particular an update repeated changes nothing but updated_at. *)
Theorem Update_twice (db : DB) (id : string) (r : Row)
        (m1 m2 : gmap string value) (updates1 updates2 merged : list (string * value))
        (now1 now2 : Time) :
  tickets db !! id = Some r →
  (∀ id' r', admits db id' r' = true) →
  spec.field_updates m1 → spec.field_updates m2 →
  spec.range_order m1 updates1 → spec.range_order m2 updates2 →
  spec.range_order (m2 ∪ m1) merged →
  (∃ c, spec.recognized c = true ∧ is_Some (m2 !! c)) →
  Update (Update db id updates1 now1).2 id updates2 now2
  = Update db id merged now2.
Proof.
  intros Hr Hadm H1 H2 Hp1 Hp2 Hp (c & Hrec & [v Hv]).
  pose proof (recognized_entries_some m2 updates2 c v Hp2 Hrec Hv) as Hne2.
  assert (recognized_entries merged ≠ []) as Hne.
  { apply (recognized_entries_some (m2 ∪ m1) merged c v Hp Hrec).
    apply lookup_union_Some_raw. left. exact Hv. }
  rewrite (Update_changed db id r (m2 ∪ m1) merged now2 Hr
             (field_updates_union m1 m2 H1 H2) Hp Hne (Hadm _ _)).
  destruct (recognized_entries updates1) as [|kv fields] eqn:E1.
  - rewrite (Update_unrecognized db id updates1 now1 E1). cbn [snd].
    rewrite (Update_changed db id r m2 updates2 now2 Hr H2 Hp2 Hne2 (Hadm _ _)).
    assert (changed (m2 ∪ m1) r = changed m2 r) as ->; [|reflexivity].
    assert (∀ c, spec.recognized c = true → m1 !! c = None) as Hnone.
    { intros c' Hrec'. destruct (m1 !! c') as [v'|] eqn:El; [|reflexivity].
      exfalso. exact (recognized_entries_some m1 updates1 c' v' Hp1 Hrec' El E1). }
    unfold changed. rewrite !lookup_union, !Hnone by reflexivity.
    destruct (m2 !! "title"), (m2 !! "description"), (m2 !! "status"),
      (m2 !! "priority"), (m2 !! "assignee_id"), (m2 !! "tags"); reflexivity.
  - assert (recognized_entries updates1 ≠ []) as Hne1 by (rewrite E1; discriminate).
    rewrite (Update_changed db id r m1 updates1 now1 Hr H1 Hp1 Hne1 (Hadm _ _)).
    cbn [snd].
    set (r1 := set_updated_at now1 (changed m1 r)).
    set (db1 := with_tickets db (<[id := r1]> (tickets db))).
    assert (tickets db1 !! id = Some r1) as Hr1 by apply lookup_insert_eq.
    rewrite (Update_changed db1 id r1 m2 updates2 now2 Hr1 H2 Hp2 Hne2 (Hadm _ _)).
    unfold r1. rewrite (changed_union m1 m2 r now1 H1 H2).
    change (set_updated_at now2 (set_updated_at now1 (changed (m2 ∪ m1) r)))
      with (set_updated_at now2 (changed (m2 ∪ m1) r)).
    f_equal. unfold db1, with_tickets. cbn [admits tickets].
    rewrite insert_insert_eq. reflexivity.
Qed.

Section concrete_runs.
Local Open Scope Z_scope.

(** ** Concrete runs *)

Lemma ex_db_lookup : tickets ex_db !! "t-1" = Some ex_row.
Proof. vm_compute. reflexivity. Qed.

Lemma Update_title_isolation_witness :
  ∃ r', tickets (Update ex_db "t-1" [("title", VString "Fix login")] 20%Z).2 !! "t-1"
        = Some r'
    ∧ title r' = "Fix login" ∧ updated_at r' = 20%Z
    ∧ description r' = Some "Users cannot log in" ∧ status r' = "OPEN"
    ∧ priority r' = "HIGH" ∧ assignee_id r' = None
    ∧ tags r' = tags ex_row ∧ reporter_id r' = "user-7"
    ∧ created_at r' = 10%Z.
Proof.
  destruct (Update_title_isolation ex_db "t-1" ex_row (VString "Fix login")
              [("title", VString "Fix login")] 20%Z ex_db_lookup)
    as (r' & Hr' & Hd & Hs & Hp & Ha & Ht & Hrep & Hc & _ & _ & Hnew).
  { unfold spec.range_order. rewrite map_to_list_singleton. reflexivity. }
  exists r'. rewrite (Hnew "Fix login" eq_refl eq_refl) in *.
  split_and!; try assumption; reflexivity.
Defined.

(** *** Tags through the store *)

Lemma tags_round_trip_witness :
  ∃ t', GetByID (ex_created "t-2" (mk_slice ["bug"; "auth"])) "t-2" = Ok t'
    ∧ Tags t' = mk_slice ["bug"; "auth"].
Proof.
  destruct (tags_round_trip ex_db (ex_ticket "t-2" (mk_slice ["bug"; "auth"]))
              (ex_ticket "t-2" (mk_slice ["bug"; "auth"]))
              (ex_created "t-2" (mk_slice ["bug"; "auth"])))
    as (t' & Hget & _ & _ & Hvalid).
  { vm_compute. reflexivity. }
  exists t'. split; [exact Hget|]. apply Hvalid.
  repeat constructor.
Defined.

Lemma tags_round_trip_counterexample :
  (Create ex_db (ex_ticket "t-2" (mk_slice [bad_tag]))).1
  = Ok (ex_ticket "t-2" (mk_slice [bad_tag]))
  ∧ ∃ t', GetByID (ex_created "t-2" (mk_slice [bad_tag])) "t-2" = Ok t'
      ∧ Tags t' = mk_slice [replaced_tag]
      ∧ elems (Tags t') ≠ elems (Tags (ex_ticket "t-2" (mk_slice [bad_tag]))).
Proof.
  split; [vm_compute; reflexivity|].
  eexists. split; [vm_compute; reflexivity|].
  split; [reflexivity|]. cbn. intros H. discriminate H.
Qed.

(** *** CreateTicket *)

Lemma CreateTicket_normalization_witness :
  ∃ row, tickets (server.CreateTicket ex_db "t-3" 40 41 (ex_request "Add dark mode")).2
         !! "t-3" = Some row
    ∧ status row = "OPEN" ∧ priority row = "MEDIUM"
    ∧ description row = None ∧ assignee_id row = Some "user-9".
Proof.
  destruct (CreateTicket_normalization ex_db "t-3" 40 41 (ex_request "Add dark mode")
              (server.dbTicketToProto
                 (server.new_dbTicket "t-3" 40 41 (ex_request "Add dark mode")))
              (server.CreateTicket ex_db "t-3" 40 41 (ex_request "Add dark mode")).2)
    as (row & Hrow & Hs & _ & Hp & _ & Hd & Ha).
  { vm_compute. reflexivity. }
  exists row. split_and!; assumption.
Defined.

Lemma CreateTicket_title_verbatim_witness :
  ∃ row, tickets (server.CreateTicket ex_db "t-3" 40 41 (ex_request "Add dark mode")).2
         !! "t-3" = Some row
    ∧ title row = "Add dark mode".
Proof.
  destruct (CreateTicket_title_verbatim ex_db "t-3" 40 41 (ex_request "Add dark mode")
              (server.dbTicketToProto
                 (server.new_dbTicket "t-3" 40 41 (ex_request "Add dark mode")))
              (server.CreateTicket ex_db "t-3" 40 41 (ex_request "Add dark mode")).2)
    as (row & Hrow & Ht & _).
  { vm_compute. reflexivity. }
  exists row. split; assumption.
Defined.

(** A request with the empty title creates a ticket with the empty title. *)
Lemma CreateTicket_title_counterexample :
  ∃ resp row,
    server.CreateTicket ex_db "t-3" 40 41 (ex_request "")
    = (Ok resp, spec.store (<["t-3" := row]> (tickets ex_db)))
    ∧ ticketpb.Title resp = "" ∧ title row = "".
Proof.
  eexists _, _. split; [vm_compute; reflexivity|]. split; reflexivity.
Qed.

(** *** GetByID *)

Lemma GetByID_returns_stored_witness :
  GetByID ex_db "t-1" =
  Ok {| ID := "t-1"; Title := "Fix login bug";
        Description := {| sql.String_ := "Users cannot log in"; sql.Valid := true |};
        Status := "OPEN"; Priority := "HIGH"; AssigneeID := sql.null;
        Tags := mk_slice ["bug"; "auth"]; CreatedAt := 10; UpdatedAt := 11;
        ReporterID := "" |}.
Proof.
  apply (GetByID_returns_stored ex_db "t-1" ex_row
           (json.Marshal (mk_slice ["bug"; "auth"])) (mk_slice ["bug"; "auth"])).
  - exact ex_db_lookup.
  - reflexivity.
  - vm_compute. reflexivity.
Defined.

(** The stored reporter is [user-7]; the ticket [GetByID] returns has the
    empty string for it. *)
Lemma GetByID_reporter_counterexample :
  ∃ r t, tickets ex_db !! "t-1" = Some r ∧ GetByID ex_db "t-1" = Ok t
    ∧ reporter_id r = "user-7" ∧ ReporterID t = ""
    ∧ ReporterID t ≠ reporter_id r.
Proof.
  eexists _, _. split; [exact ex_db_lookup|]. split; [vm_compute; reflexivity|].
  split; [reflexivity|]. split; [reflexivity|]. cbn. intros H. discriminate H.
Qed.

(** *** Not found, delete *)

Lemma not_found_and_delete_witness :
  GetByID ex_db "t-9" = Err (ErrNotFound "t-9")
  ∧ Update ex_db "t-9" [("status", VString "CLOSED")] 50
    = (Err (ErrNotFound "t-9"), ex_db)
  ∧ server.DeleteTicket ex_db "t-9" = (Ok {| ticketpb.Success := false |}, ex_db)
  ∧ server.DeleteTicket ex_db "t-1"
    = (Ok {| ticketpb.Success := true |},
       with_tickets ex_db (delete "t-1" (tickets ex_db))).
Proof.
  destruct (not_found_and_delete ex_db "t-9") as [Hmissing _].
  destruct Hmissing as (Hget & _ & Hupd & _ & _ & Hdel); [vm_compute; reflexivity|].
  destruct (not_found_and_delete ex_db "t-1") as [_ Hpresent].
  destruct (Hpresent ex_row ex_db_lookup) as (_ & Hdel1 & _).
  split_and!; try assumption.
  apply (Hupd {["status" := VString "CLOSED"]}).
  - apply map_Forall_singleton. reflexivity.
  - unfold spec.range_order. rewrite map_to_list_singleton. reflexivity.
Defined.

(** *** No-op updates *)

Lemma Update_empty_is_GetByID_witness :
  Update ex_db "t-1" [] 50 = (GetByID ex_db "t-1", ex_db)
  ∧ tickets (Update ex_db "t-1" [] 50).2 !! "t-1" = Some ex_row.
Proof.
  destruct (Update_empty_is_GetByID ex_db "t-1" 50) as (_ & Hempty & Hrow).
  split; [exact Hempty | exact (Hrow ex_row ex_db_lookup)].
Defined.

Lemma Update_unrecognized_only_witness :
  Update ex_db "t-1" [("note", VString "n")] 50 = (GetByID ex_db "t-1", ex_db).
Proof.
  apply (Update_unrecognized_only ex_db "t-1" {["note" := VString "n"]}).
  - apply insert_non_empty.
  - intros field Hf. rewrite dom_singleton_L in Hf. apply elem_of_singleton in Hf.
    subst field. intros Hin.
    repeat (apply elem_of_cons in Hin as [Hin|Hin]; [discriminate Hin|]).
    inversion Hin.
  - unfold spec.range_order. rewrite map_to_list_singleton. reflexivity.
Defined.

(** *** The statement of an update *)

Lemma ex_updates_order :
  spec.range_order ex_updates
    [("tags", VStrings (mk_slice ["bug"])); ("note", VString "n");
     ("title", VString "T")].
Proof.
  unfold spec.range_order, ex_updates.
  rewrite map_to_list_insert by (vm_compute; reflexivity).
  rewrite map_to_list_insert by (vm_compute; reflexivity).
  rewrite map_to_list_singleton. reflexivity.
Qed.

Lemma Update_parameter_indices_witness :
  ∃ st sets where_ args,
    range_updates [("tags", VStrings (mk_slice ["bug"])); ("note", VString "n");
                   ("title", VString "T")] builder0 = Some st
    ∧ update_statement st 50 "t-1" = Some (sets, where_, args)
    ∧ sets = [ {| column := "tags"; placeholder := 1 |};
               {| column := "title"; placeholder := 2 |};
               {| column := "updated_at"; placeholder := 3 |} ]
    ∧ setClause sets = "tags = $1, title = $2, updated_at = $3"
    ∧ where_ = 4%nat
    ∧ args = [ ArgString (json.Marshal (mk_slice ["bug"])); ArgString "T";
               ArgTime 50; ArgString "t-1" ].
Proof.
  destruct (Update_parameter_indices ex_updates
              [("tags", VStrings (mk_slice ["bug"])); ("note", VString "n");
               ("title", VString "T")] 50 "t-1")
    as (st & sets & where_ & args & Hst & Hstmt & _).
  - unfold ex_updates. repeat (apply map_Forall_insert_2; [reflexivity|]).
    apply map_Forall_empty.
  - exact ex_updates_order.
  - vm_compute. discriminate.
  - exists st, sets, where_, args. split; [exact Hst|]. split; [exact Hstmt|].
    vm_compute in Hst. injection Hst as <-.
    vm_compute in Hstmt. injection Hstmt as <- <- <-.
    split_and!; vm_compute; reflexivity.
Defined.

(** *** Listing *)

Lemma ListTickets_pagination_witness :
  ∃ ts, server.ListTickets ex_db3 2 = Ok ts
    ∧ ticketpb.Title <$> ts = ["Newest"; "Middle"]
    ∧ length ts = 2%nat
    ∧ StronglySorted spec.newest_first ts
    ∧ server.page_limit 0 = 50 ∧ server.page_limit 1000 = 50
    ∧ server.page_limit 10 = 10
    ∧ server.ListTickets (spec.store ∅) 10 = Ok [].
Proof.
  destruct (ListTickets_pagination ex_db3 2) as (_ & _ & _ & Hlist & _ & _).
  destruct (ListTickets_pagination ex_db3 0) as (Hdefault & _).
  destruct (ListTickets_pagination ex_db3 1000) as (Hdefault' & _).
  destruct (ListTickets_pagination ex_db3 10) as (_ & Hsame & _).
  destruct (ListTickets_pagination (spec.store ∅) 10) as (_ & _ & _ & _ & Hempty & _).
  destruct (server.ListTickets ex_db3 2) as [ts| |] eqn:E; try (vm_compute in E; discriminate E).
  destruct (Hlist ts eq_refl) as (_ & Hlen & Hsorted & _).
  exists ts. split; [reflexivity|].
  split_and!.
  - vm_compute in E. injection E as <-. reflexivity.
  - rewrite Hlen. vm_compute. reflexivity.
  - exact Hsorted.
  - apply Hdefault. lia.
  - apply Hdefault'. lia.
  - apply Hsame. lia.
  - apply Hempty. reflexivity.
Defined.

(** *** A partial update with several fields *)

Lemma Update_any_order_witness :
  Update ex_db "t-1"
    [("tags", VStrings (mk_slice ["bug"])); ("note", VString "n");
     ("title", VString "T")] 50
  = Update ex_db "t-1" (map_to_list ex_updates) 50.
Proof.
  apply (Update_any_order ex_db "t-1" ex_updates
           [("tags", VStrings (mk_slice ["bug"])); ("note", VString "n");
            ("title", VString "T")] 50).
  exact ex_updates_order.
Defined.

Lemma Update_changes_supplied_fields_witness :
  ∃ r', tickets (Update ex_db "t-1"
                   [("tags", VStrings (mk_slice ["bug"])); ("note", VString "n");
                    ("title", VString "T")] 50).2 !! "t-1" = Some r'
    ∧ created_at r' = 10 ∧ updated_at r' = 50
    ∧ get_column "title" r' = Some "T"
    ∧ get_column "tags" r' = Some (json.Marshal (mk_slice ["bug"]))
    ∧ get_column "status" r' = Some "OPEN"
    ∧ get_column "reporter_id" r' = Some "user-7".
Proof.
  destruct (Update_changes_supplied_fields ex_db "t-1" ex_row ex_updates
              [("tags", VStrings (mk_slice ["bug"])); ("note", VString "n");
               ("title", VString "T")] 50 ex_db_lookup ex_updates_order)
    as (r' & Hr' & Hc & Hkeep & _ & Hnew).
  exists r'. split; [exact Hr'|]. split; [exact Hc|].
  assert (∃ t, (Update ex_db "t-1"
                  [("tags", VStrings (mk_slice ["bug"])); ("note", VString "n");
                   ("title", VString "T")] 50).1 = Ok t) as [t Ht].
  { vm_compute. eexists. reflexivity. }
  destruct (Hnew t Ht) as [Hu Hset].
  { vm_compute. discriminate. }
  split; [exact Hu|].
  destruct (Hset "title" (VString "T") eq_refl eq_refl) as (s & Hs & ->).
  destruct (Hset "tags" (VStrings (mk_slice ["bug"])) eq_refl eq_refl) as (s' & Hs' & ->).
  rewrite (Hkeep "status") by (left; reflexivity).
  rewrite (Hkeep "reporter_id") by (left; reflexivity).
  vm_compute in Hs. injection Hs as <-. vm_compute in Hs'. injection Hs' as <-.
  split_and!; vm_compute; reflexivity.
Defined.

(** *** Update: what is returned, mistyped values, unreadable rows *)

Lemma Update_then_GetByID_witness :
  ∃ t, (Update ex_db "t-1" [("status", VString "CLOSED")] 40).1 = Ok t
    ∧ GetByID (Update ex_db "t-1" [("status", VString "CLOSED")] 40).2 "t-1" = Ok t.
Proof.
  assert (∃ t db', Update ex_db "t-1" [("status", VString "CLOSED")] 40 = (Ok t, db'))
    as (t & db' & H).
  { vm_compute. eexists _, _. reflexivity. }
  exists t. rewrite H. split; [reflexivity|].
  exact (Update_then_GetByID ex_db db' "t-1" [("status", VString "CLOSED")] 40 t H).
Defined.

Lemma range_order_one field v : spec.range_order {[field := v]} [(field, v)].
Proof. unfold spec.range_order. rewrite map_to_list_singleton. reflexivity. Qed.

Lemma Update_panic_iff_witness :
  Update ex_db "t-1" [("tags", VString "bug")] 40 = (Panic, ex_db)
  ∧ (Update ex_db "t-1" [("title", VString "bug")] 40).1 ≠ Panic.
Proof.
  destruct (Update_panic_iff ex_db "t-1" {["tags" := VString "bug"]}
              [("tags", VString "bug")] 40 (range_order_one _ _)) as [[Hpanic _] Hdb].
  destruct (Update_panic_iff ex_db "t-1" {["title" := VString "bug"]}
              [("title", VString "bug")] 40 (range_order_one _ _)) as [[_ Honly] _].
  assert ((Update ex_db "t-1" [("tags", VString "bug")] 40).1 = Panic) as H1.
  { apply Hpanic. exists "bug". vm_compute. reflexivity. }
  split.
  - specialize (Hdb H1).
    destruct (Update ex_db "t-1" [("tags", VString "bug")] 40) as [res db'].
    cbn [fst snd] in *. congruence.
  - intros H. destruct (Honly H) as [s Hs]. vm_compute in Hs. discriminate Hs.
Defined.

Lemma ex_db_null_unreadable t : GetByID ex_db_null "t-9" ≠ Ok t.
Proof. vm_compute. discriminate. Qed.

Lemma Update_error_after_write_witness :
  ∃ e r',
    Update ex_db_null "t-9" [("title", VString "Renamed")] 40
    = (Err e, with_tickets ex_db_null (<["t-9" := r']> (tickets ex_db_null)))
    ∧ updated_at r' = 40 ∧ get_column "title" r' = Some "Renamed".
Proof.
  destruct (Update_error_after_write ex_db_null "t-9" ex_null_tags
              {["title" := VString "Renamed"]} [("title", VString "Renamed")] 40)
    as (e & r' & Hu & Hat & _ & _ & Hcol).
  - vm_compute. reflexivity.
  - exact ex_db_null_unreadable.
  - apply map_Forall_singleton. reflexivity.
  - apply range_order_one.
  - vm_compute. reflexivity.
  - exists "title". split; [reflexivity|]. exists (VString "Renamed").
    vm_compute. reflexivity.
  - intros r'. reflexivity.
  - exists e, r'. split; [exact Hu|]. split; [exact Hat|].
    destruct (Hcol "title" (VString "Renamed")) as (s & Hs & Hg).
    + vm_compute. reflexivity.
    + reflexivity.
    + injection Hs as <-. exact Hg.
Defined.

Lemma Update_tags_round_trip_witness :
  ∃ t, (Update ex_db "t-1" [("tags", VStrings (mk_slice ["ui"; "p1"]))] 40).1 = Ok t
    ∧ Tags t = mk_slice ["ui"; "p1"].
Proof.
  assert (∃ t db', Update ex_db "t-1" [("tags", VStrings (mk_slice ["ui"; "p1"]))] 40
                   = (Ok t, db')) as (t & db' & H).
  { vm_compute. eexists _, _. reflexivity. }
  exists t. rewrite H. split; [reflexivity|].
  destruct (Update_tags_round_trip ex_db db' "t-1"
              {["tags" := VStrings (mk_slice ["ui"; "p1"])]}
              [("tags", VStrings (mk_slice ["ui"; "p1"]))] 40
              (mk_slice ["ui"; "p1"]) t (range_order_one _ _))
    as (_ & Hvalid & _).
  - vm_compute. reflexivity.
  - exact H.
  - apply Hvalid. repeat constructor.
Defined.

(** *** Create, Delete and List together *)

Lemma Create_Delete_inverse_witness :
  Delete (ex_created "t-2" (mk_slice ["bug"])) "t-2" = (None, ex_db).
Proof.
  apply (Create_Delete_inverse ex_db (ex_created "t-2" (mk_slice ["bug"]))
           (ex_ticket "t-2" (mk_slice ["bug"])) (ex_ticket "t-2" (mk_slice ["bug"]))).
  vm_compute. reflexivity.
Defined.

Lemma ex_db3_rows id r :
  tickets ex_db3 !! id = Some r →
  (id, r) ∈ [("t-1", ex_row_at "Middle" 20); ("t-2", ex_row_at "Newest" 30);
             ("t-3", ex_row_at "Oldest" 10)].
Proof.
  intros H. apply elem_of_map_to_list in H.
  unfold ex_db3, spec.store in H. cbn [tickets] in H.
  rewrite map_to_list_insert in H by (vm_compute; reflexivity).
  rewrite map_to_list_insert in H by (vm_compute; reflexivity).
  rewrite map_to_list_singleton in H.
  rewrite !elem_of_cons in *. rewrite elem_of_nil in H. tauto.
Qed.

Lemma List_rank_witness :
  ∃ ts, List ex_db3 2 1 = Ok ts
    ∧ Title <$> ts = ["Middle"; "Oldest"]
    ∧ ∀ k t, ts !! k = Some t → newer_than ex_db3 (CreatedAt t) = (1 + k)%nat.
Proof.
  assert (∃ ts, List ex_db3 2 1 = Ok ts) as [ts H].
  { vm_compute. eexists. reflexivity. }
  exists ts. split; [exact H|].
  destruct (List_rank ex_db3 2 1 ts) as [_ Hrank].
  - intros id1 id2 r1 r2 H1 H2 E.
    apply ex_db3_rows in H1, H2. rewrite !elem_of_cons, elem_of_nil in H1, H2.
    destruct H1 as [H1|[H1|[H1|[]]]], H2 as [H2|[H2|[H2|[]]]];
      injection H1 as -> ->; injection H2 as -> ->;
      first [reflexivity | discriminate E].
  - exact H.
  - split.
    + vm_compute in H. injection H as <-. reflexivity.
    + intros k t Hk. exact (proj2 (Hrank k t Hk)).
Defined.

Lemma List_all_or_nothing_witness :
  ∃ what, List ex_db_null 10 0 = Err (ErrFailed what).
Proof.
  destruct (List_all_or_nothing ex_db_null) as [_ Hfail].
  destruct (Hfail "t-9" ex_null_tags) as [HList _].
  - vm_compute. reflexivity.
  - exact ex_db_null_unreadable.
  - apply (HList 10). vm_compute. lia.
Defined.

(** *** The dispatcher *)

Lemma UpdateTicket_fields_witness :
  ∃ r', tickets (server.UpdateTicket ex_db 40 ex_update).2 !! "t-1" = Some r'
    ∧ title r' = "Fix login bug - URGENT"
    ∧ description r' = Some "Users cannot log in"
    ∧ status r' = "OPEN" ∧ priority r' = "HIGH"
    ∧ tags r' = tags ex_row ∧ updated_at r' = 40.
Proof.
  assert (∃ t db', server.UpdateTicket ex_db 40 ex_update = (Ok t, db'))
    as (t & db' & H).
  { vm_compute. eexists _, _. reflexivity. }
  destruct (UpdateTicket_fields ex_db db' 40 ex_update ex_row t ex_db_lookup H)
    as (r' & Hr' & Ht & Hd & Hs & Hp & _ & Htags & _ & _ & Hu & _).
  rewrite H. exists r'. split; [exact Hr'|].
  split_and!; [exact Ht | exact Hd | exact Hs | exact Hp | exact Htags |].
  rewrite Hu. apply decide_False. intros E.
  assert (server.build_updates ex_update !! "title" = None) as Hl
    by (rewrite E; apply lookup_empty).
  vm_compute in Hl. discriminate Hl.
Defined.

Lemma CreateTicket_then_GetTicket_witness :
  ∃ t, (server.CreateTicket ex_db "t-4" 30 31 ex_create).1 = Ok t
    ∧ server.GetTicket (server.CreateTicket ex_db "t-4" 30 31 ex_create).2 "t-4" = Ok t
    ∧ ticketpb.Tags t = mk_slice ["feature"; "ui"]
    ∧ ticketpb.AssigneeId t = "".
Proof.
  assert (∃ t db', server.CreateTicket ex_db "t-4" 30 31 ex_create = (Ok t, db'))
    as (t & db' & H).
  { vm_compute. eexists _, _. reflexivity. }
  destruct (CreateTicket_then_GetTicket ex_db db' "t-4" 30 31 ex_create t H)
    as (_ & Hvalid & _ & _ & _ & Ha & Htags).
  exists t. rewrite H. split_and!; [reflexivity | | exact Htags | exact Ha].
  apply Hvalid. repeat constructor.
Defined.

Lemma CreateTicket_listed_first_witness :
  ∃ t first rest,
    (server.CreateTicket ex_db "t-4" 30 31 ex_create).1 = Ok t
    ∧ server.ListTickets (server.CreateTicket ex_db "t-4" 30 31 ex_create).2 10
      = Ok (first :: rest)
    ∧ ticketpb.Id first = "t-4" ∧ ticketpb.Title first = "Add dark mode".
Proof.
  assert (∃ t db', server.CreateTicket ex_db "t-4" 30 31 ex_create = (Ok t, db'))
    as (t & db' & H).
  { vm_compute. eexists _, _. reflexivity. }
  assert (∃ ts, server.ListTickets db' 10 = Ok ts) as [ts Hts].
  { vm_compute in H. injection H as _ <-. vm_compute. eexists. reflexivity. }
  destruct (CreateTicket_listed_first ex_db db' "t-4" 30 31 ex_create t 10 ts H)
    as (first & rest & -> & _ & Hfirst).
  - intros id' r Hr. unfold ex_db, spec.store in Hr. cbn [tickets] in Hr.
    apply lookup_singleton_Some in Hr as [_ <-]. reflexivity.
  - exact Hts.
  - exists t, first, rest. rewrite H. split_and!; [reflexivity | exact Hts | |].
    + rewrite Hfirst. vm_compute in H. injection H as <- _. reflexivity.
    + rewrite Hfirst. vm_compute in H. injection H as <- _. reflexivity.
Defined.

Lemma ListTickets_newest_hundred_witness :
  ∃ ts, server.ListTickets ex_db3 2 = Ok ts
    ∧ ticketpb.Title <$> ts = ["Newest"; "Middle"]
    ∧ ∀ t, t ∈ ts → (newer_than ex_db3 (ticketpb.CreatedAt t) < 2)%nat.
Proof.
  assert (∃ ts, server.ListTickets ex_db3 2 = Ok ts) as [ts H].
  { vm_compute. eexists. reflexivity. }
  exists ts. split; [exact H|]. split.
  - vm_compute in H. injection H as <-. reflexivity.
  - intros t Ht.
    destruct (ListTickets_newest_hundred ex_db3 2 ts t H Ht) as [Hlt _].
    exact Hlt.
Defined.

Lemma Update_twice_witness :
  Update (Update ex_db "t-1" [("title", VString "Fix login")] 20).2 "t-1"
         [("status", VString "CLOSED")] 40
  = Update ex_db "t-1" [("status", VString "CLOSED"); ("title", VString "Fix login")] 40.
Proof.
  apply (Update_twice ex_db "t-1" ex_row
           {["title" := VString "Fix login"]} {["status" := VString "CLOSED"]}).
  - exact ex_db_lookup.
  - intros id' r'. reflexivity.
  - apply map_Forall_singleton. reflexivity.
  - apply map_Forall_singleton. reflexivity.
  - apply range_order_one.
  - apply range_order_one.
  - unfold spec.range_order. rewrite <- insert_union_singleton_l.
    rewrite map_to_list_insert by (vm_compute; reflexivity).
    rewrite map_to_list_singleton. reflexivity.
  - exists "status". split; [reflexivity|]. exists (VString "CLOSED").
    vm_compute. reflexivity.
Defined.

End concrete_runs.
